(** * worktree-tui: the controller, the text layout helpers and the
      readers of git's output, verified

    A shallow embedding of the [ui] package of worktree-tui (the Bubbletea
    model of [model.go], the transition function of [update.go] and the
    layout helpers, modals and footer of [view.go]) and of the functions of
    package [git] that read what the [git] binary prints, together with
    the properties its specification states about them and further
    properties read off the code.

    Conventions of the embedding.
    - A Go [string] is taken to hold well-formed UTF-8 and is represented by
      the sequence of code points that [range s] and [[]rune(s)] yield, so
      [[]rune(s)] is the identity; [len(s)], which counts bytes, is
      recomputed from the code points by [len].
    - A Go [int] is a [Z]; where the source can really leave the 64-bit
      range ([commitDetailScroll++], [m.width * 80]) the wrap-around is
      written out with [wrap]; [/] and [%] are [Z.quot] and [Z.rem].
    - A [tea.Cmd] is described by the value of type [Cmd] that names the
      operation it will run; the calls [Update] makes into the [git] package
      on the spot are recorded as [Effect]s, and what those calls report
      back is read from an [Env].
    - An index out of range makes the Go runtime panic: the handlers return
      [option], and [None] is the panic.
    - [filepath.Join] and [filepath.Clean] are those of a Unix system, with
      the slash as the only separator. *)

From Stdlib Require Import ZArith List Bool Lia String Ascii DecimalString.
From stdpp Require Import base option list gmap.

Open Scope Z_scope.

(** ** Go text *)

Module GoText.

Abbreviation rune := Z.
Abbreviation gostring := (list Z).

(** A string literal of the source, for ASCII text. *)
Definition lit (s : string) : gostring :=
  map (λ a, Z.of_N (N_of_ascii a)) (list_ascii_of_string s).

Definition streq (a b : gostring) : bool := bool_decide (a = b).

(** [utf8.RuneLen] on valid code points. *)
Definition RuneLen (r : rune) : Z :=
  if r <? 0x80 then 1 else if r <? 0x800 then 2 else if r <? 0x10000 then 3 else 4.

(** The builtin [len] on a string: its size in bytes. *)
Definition len (s : gostring) : Z := foldr (λ r n, RuneLen r + n) 0 s.

(** [len([]rune(s))]. *)
Definition runeCount (s : gostring) : Z := Z.of_nat (length s).

(** [string(runes)]: a value that is no Unicode scalar is replaced by U+FFFD. *)
Definition validRune (r : rune) : bool :=
  (0 <=? r) && (r <=? 0x10FFFF) && negb ((0xD800 <=? r) && (r <=? 0xDFFF)).

Definition string_of_runes (rs : list rune) : gostring :=
  map (λ r, if validRune r then r else 0xFFFD) rs.

(** [unicode.IsSpace]: the Latin-1 spaces and the White_Space table. *)
Definition IsSpace (r : rune) : bool :=
  ((0x09 <=? r) && (r <=? 0x0D)) || (r =? 0x20) || (r =? 0x85) || (r =? 0xA0)
  || (r =? 0x1680) || ((0x2000 <=? r) && (r <=? 0x200A))
  || (r =? 0x2028) || (r =? 0x2029) || (r =? 0x202F) || (r =? 0x205F)
  || (r =? 0x3000).

(** [strings.ContainsRune(cutset, r)]. *)
Definition inCutset (cutset : gostring) (r : rune) : bool :=
  existsb (Z.eqb r) cutset.

(** [strings.TrimRight(s, cutset)]. *)
Fixpoint TrimRight (s cutset : gostring) : gostring :=
  match s with
  | [] => []
  | r :: s' =>
      match TrimRight s' cutset with
      | [] => if inCutset cutset r then [] else [r]
      | t => r :: t
      end
  end.

(** [strings.Split(s, sep)] for a one-rune separator: never empty. *)
Fixpoint Split (s : gostring) (sep : rune) : list gostring :=
  match s with
  | [] => [[]]
  | r :: s' =>
      if r =? sep then [] :: Split s' sep
      else match Split s' sep with
           | [] => [[r]]
           | p :: ps => (r :: p) :: ps
           end
  end.

(** [strings.Join]. *)
Fixpoint Join (parts : list gostring) (sep : gostring) : gostring :=
  match parts with
  | [] => []
  | [p] => p
  | p :: rest => p ++ sep ++ Join rest sep
  end.

(** [filepath.Clean] on a Unix system, where the separator is the slash.
    The path is read element by element; [stack] holds the elements
    written so far, the last one first. An empty element and ["."] are
    passed over; [".."] takes the last element back when there is one to
    take, is written when the path is not rooted and nothing or only
    [".."] precedes it, and is dropped at the root. *)
Definition cleanStep (rooted : bool) (stack : list gostring) (e : gostring)
  : list gostring :=
  if streq e [] || streq e [0x2E] then stack
  else if streq e [0x2E; 0x2E]
  then match stack with
       | top :: rest =>
           if negb rooted && streq top [0x2E; 0x2E] then e :: stack else rest
       | [] => if rooted then [] else [e]
       end
  else e :: stack.

Definition filepath_Clean (path : gostring) : gostring :=
  if streq path [] then [0x2E]
  else
    let rooted := bool_decide (head path = Some 0x2F) in
    let stack := fold_left (cleanStep rooted) (Split path 0x2F) [] in
    let body := Join (reverse stack) [0x2F] in
    if rooted then 0x2F :: body
    else if stack is [] then [0x2E] else body.

(** [filepath.Join]: the elements from the first non-empty one on, joined
    by slashes and cleaned; the empty path when there is none. *)
Fixpoint filepath_Join (elem : list gostring) : gostring :=
  match elem with
  | [] => []
  | e :: rest =>
      if streq e [] then filepath_Join rest
      else filepath_Clean (Join elem [0x2F])
  end.

(** [strings.Fields(s)]: the maximal runs of non-space runes; [cur] is the
    run being read. *)
Fixpoint FieldsFrom (cur s : gostring) : list gostring :=
  match s with
  | [] => if cur is [] then [] else [cur]
  | r :: s' =>
      if IsSpace r
      then (if cur is [] then FieldsFrom [] s' else cur :: FieldsFrom [] s')
      else FieldsFrom (cur ++ [r]) s'
  end.

Definition Fields (s : gostring) : list gostring := FieldsFrom [] s.

(** [strings.ReplaceAll(s, old, new)] for one-rune [old] and [new]. *)
Definition ReplaceAll (s : gostring) (old new : rune) : gostring :=
  map (λ r, if r =? old then new else r) s.

(** [strings.Repeat]. *)
Definition Repeat (r : rune) (n : Z) : gostring := replicate (Z.to_nat n) r.

(** [fmt.Sprintf("%d", n)]. *)
Definition itoa (n : Z) : gostring := lit (NilZero.string_of_int (Z.to_int n)).

(** The case tables of package [unicode] beyond ASCII are not part of this
    program: they are parameters. *)
Section CaseTables.
Variable lowerTable : rune → rune.
Variable upperTable : rune → rune.

(** [unicode.ToLower]. *)
Definition unicode_ToLower (r : rune) : rune :=
  if r <=? 0x7F
  then (if (0x41 <=? r) && (r <=? 0x5A) then r + 0x20 else r)
  else lowerTable r.

(** [unicode.ToUpper]. *)
Definition unicode_ToUpper (r : rune) : rune :=
  if r <=? 0x7F
  then (if (0x61 <=? r) && (r <=? 0x7A) then r - 0x20 else r)
  else upperTable r.

Definition ToLower (s : gostring) : gostring := map unicode_ToLower s.
Definition ToUpper (s : gostring) : gostring := map unicode_ToUpper s.
End CaseTables.

(** Sixty-four bit two's complement: the value of a Go [int] expression
    whose mathematical value is [x]. *)
Definition wrap (x : Z) : Z := (x + 2 ^ 63) mod 2 ^ 64 - 2 ^ 63.

End GoText.
Import GoText.

(** ** Text layout helpers ([view.go]) *)

Module Layout.

Definition ellipsis : rune := 0x2026.
Definition space : rune := 0x20.
Definition newline : rune := 0x0A.

(** [truncate(s, max)]. The slices [r[:max]] and [r[:max-1]] are taken only
    when [len(r) > max], so they are in range. *)
Definition truncate (s : gostring) (max : Z) : gostring :=
  if max <=? 0 then []
  else if runeCount s <=? max then s
  else if max <=? 1 then take (Z.to_nat max) s
  else take (Z.to_nat (max - 1)) s ++ [ellipsis].

(** One turn of the inner loop of [wrapWords]: [lines] and [line] before and
    after the word [w]. *)
Definition packWord (width : Z) (st : list gostring * gostring) (w : gostring)
  : list gostring * gostring :=
  let '(lines, line) := st in
  if line is [] then (lines, w)
  else if len line + 1 + len w <=? width then (lines, line ++ [space] ++ w)
  else (lines ++ [line], w).

(** One turn of the outer loop: a paragraph's words, then the pending line. *)
Definition wrapParagraph (width : Z) (lines : list gostring) (paragraph : gostring)
  : list gostring :=
  let '(lines', line) := fold_left (packWord width) (Fields paragraph) (lines, []) in
  if line is [] then lines' else lines' ++ [line].

(** [wrapWords(s, width)]. *)
Definition wrapWords (s : gostring) (width : Z) : list gostring :=
  if width <=? 0 then [s]
  else fold_left (wrapParagraph width) (Split s newline) [].

Section Width.
(** [lipgloss.Width]: the number of terminal cells a string takes. *)
Variable lipgloss_Width : gostring → Z.

(** [padRight(s, width)]. *)
Definition padRight (s : gostring) (width : Z) : gostring :=
  let w := lipgloss_Width s in
  if w >=? width then s else s ++ Repeat space (width - w).
End Width.

(** A terminal's cell count for plain text, as [lipgloss.Width] gives it
    through go-runewidth: the East Asian wide and fullwidth blocks listed
    here take two cells, control codes and combining marks none, anything
    else one. *)
Definition cellWidth (r : rune) : Z :=
  if (r <? 0x20) || ((0x7F <=? r) && (r <? 0xA0)) then 0
  else if (0x0300 <=? r) && (r <=? 0x036F) then 0
  else if ((0x1100 <=? r) && (r <=? 0x115F))
       || ((0x2E80 <=? r) && (r <=? 0x303E))
       || ((0x3041 <=? r) && (r <=? 0x33FF))
       || ((0x3400 <=? r) && (r <=? 0x4DBF))
       || ((0x4E00 <=? r) && (r <=? 0x9FFF))
       || ((0xAC00 <=? r) && (r <=? 0xD7A3))
       || ((0xF900 <=? r) && (r <=? 0xFAFF))
       || ((0xFF01 <=? r) && (r <=? 0xFF60))
       || ((0xFFE0 <=? r) && (r <=? 0xFFE6)) then 2
  else 1.

Definition cellsWidth (s : gostring) : Z := foldr (λ r n, cellWidth r + n) 0 s.

End Layout.
Import Layout.

(** ** Domain data ([types.go]) *)

Module Types.

Inductive AppState :=
| StateNoGit
| StateShellSetup
| StateList
| StateNewWorktree
| StateEditWorktree
| StateDeleteConfirm
| StateRightPaneFocused
| StateCommitDetail.

#[global] Instance AppState_eq_dec : EqDecision AppState.
Proof. solve_decision. Defined.

Module Commit.
Record t := mk { Hash : gostring; Message : gostring; RelTime : gostring }.
End Commit.

Module Worktree.
Record t := mk {
  Name : gostring;
  Path : gostring;
  Branch : gostring;
  IsMain : bool;
  UpdatedAt : gostring;
  Description : gostring;
  CreatedFrom : gostring;
  Ahead : Z;
  Behind : Z;
  IsMerged : bool;
  Commits : list Commit.t;
  HeadSHA : gostring;
  StatusChanged : Z;
  StatusUntracked : Z
}.
End Worktree.

Module PRInfo.
Record t := mk { State : gostring; Number : Z; URL : gostring }.
End PRInfo.

Module CommitFile.
Record t := mk { Status : gostring; Path : gostring }.
End CommitFile.

Module DiffLine.
Record t := mk { Type_ : gostring; Content : gostring }.
End DiffLine.

Module CommitDetail.
Record t := mk {
  ShortHash : gostring;
  Subject : gostring;
  Body : gostring;
  RelTime : gostring;
  Files : list CommitFile.t;
  Diff : list DiffLine.t;
  Loaded : bool
}.
(** The zero value [types.CommitDetail{}]. *)
Definition zero : t := mk [] [] [] [] [] [] false.
End CommitDetail.

End Types.
Import Types.

(** ** The Bubbletea side: keys, messages, commands *)

Module Tea.

Inductive KeyType :=
| KeyRunes
| KeyEnter
| KeyEsc
| KeyTab
| KeyUp
| KeyDown
| KeySpace
| KeyBackspace
| KeyCtrlC
| KeyOther (name : gostring).   (* any further key type, with its name *)

Record KeyMsg := mkKey {
  Type_ : KeyType;
  Runes : list rune;
  Alt : bool;
  Paste : bool
}.

Definition keyNames (t : KeyType) : gostring :=
  match t with
  | KeyRunes => lit "runes"
  | KeyEnter => lit "enter"
  | KeyEsc => lit "esc"
  | KeyTab => lit "tab"
  | KeyUp => lit "up"
  | KeyDown => lit "down"
  | KeySpace => lit " "
  | KeyBackspace => lit "backspace"
  | KeyCtrlC => lit "ctrl+c"
  | KeyOther name => name
  end.

(** [Key.String()]. *)
Definition KeyString (k : KeyMsg) : gostring :=
  (if Alt k then lit "alt+" else []) ++
  match Type_ k with
  | KeyRunes =>
      if Paste k then lit "[" ++ string_of_runes (Runes k) ++ lit "]"
      else string_of_runes (Runes k)
  | t => keyNames t
  end.

(** The plain key presses the handlers name. *)
Definition key (t : KeyType) : KeyMsg := mkKey t [] false false.
Definition runeKey (s : string) : KeyMsg := mkKey KeyRunes (lit s) false false.

End Tea.
Import Tea.

(** ** The model ([model.go]) *)

Module Ui.

(** [prCacheEntry = *types.PRInfo]: [None] is the nil pointer, no PR. *)
Abbreviation prCacheEntry := (option PRInfo.t).

(** The root model. [prCache] is a Go map: [None] is the nil map. A Go map
    is a reference, shared by the copies of the model that [Update] takes
    and returns; Bubbletea keeps only the model returned last, so the map is
    carried here as a value of that model. *)
Record Model := mkModel {
  state : AppState;
  worktrees : list Worktree.t;
  repoName : gostring;
  curBranch : gostring;
  cursor : Z;
  width : Z;
  height : Z;
  remoteURL : gostring;
  stashCount : Z;
  fetchedAgo : gostring;
  defaultBranch : gostring;
  ghAvailable : bool;
  prCache : option (gmap (list Z) prCacheEntry);
  hasCommits : bool;
  newTypeIdx : Z;
  newTypeListOpen : bool;
  newDisplayName : gostring;
  newBranch : gostring;
  newDescription : gostring;
  newActiveField : Z;
  newBranchEdited : bool;
  editName : gostring;
  selectedCommitIndex : Z;
  commitDetailScroll : Z;
  activeCommit : CommitDetail.t;
  errMsg : gostring
}.

Definition set_state (v : AppState) (m : Model) : Model :=
  mkModel v (worktrees m) (repoName m) (curBranch m) (cursor m) (width m)
    (height m) (remoteURL m) (stashCount m) (fetchedAgo m) (defaultBranch m)
    (ghAvailable m) (prCache m) (hasCommits m) (newTypeIdx m)
    (newTypeListOpen m) (newDisplayName m) (newBranch m) (newDescription m)
    (newActiveField m) (newBranchEdited m) (editName m)
    (selectedCommitIndex m) (commitDetailScroll m) (activeCommit m) (errMsg m).
Definition set_worktrees (v : list Worktree.t) (m : Model) : Model :=
  mkModel (state m) v (repoName m) (curBranch m) (cursor m) (width m)
    (height m) (remoteURL m) (stashCount m) (fetchedAgo m) (defaultBranch m)
    (ghAvailable m) (prCache m) (hasCommits m) (newTypeIdx m)
    (newTypeListOpen m) (newDisplayName m) (newBranch m) (newDescription m)
    (newActiveField m) (newBranchEdited m) (editName m)
    (selectedCommitIndex m) (commitDetailScroll m) (activeCommit m) (errMsg m).
Definition set_repoName (v : gostring) (m : Model) : Model :=
  mkModel (state m) (worktrees m) v (curBranch m) (cursor m) (width m)
    (height m) (remoteURL m) (stashCount m) (fetchedAgo m) (defaultBranch m)
    (ghAvailable m) (prCache m) (hasCommits m) (newTypeIdx m)
    (newTypeListOpen m) (newDisplayName m) (newBranch m) (newDescription m)
    (newActiveField m) (newBranchEdited m) (editName m)
    (selectedCommitIndex m) (commitDetailScroll m) (activeCommit m) (errMsg m).
Definition set_curBranch (v : gostring) (m : Model) : Model :=
  mkModel (state m) (worktrees m) (repoName m) v (cursor m) (width m)
    (height m) (remoteURL m) (stashCount m) (fetchedAgo m) (defaultBranch m)
    (ghAvailable m) (prCache m) (hasCommits m) (newTypeIdx m)
    (newTypeListOpen m) (newDisplayName m) (newBranch m) (newDescription m)
    (newActiveField m) (newBranchEdited m) (editName m)
    (selectedCommitIndex m) (commitDetailScroll m) (activeCommit m) (errMsg m).
Definition set_cursor (v : Z) (m : Model) : Model :=
  mkModel (state m) (worktrees m) (repoName m) (curBranch m) v (width m)
    (height m) (remoteURL m) (stashCount m) (fetchedAgo m) (defaultBranch m)
    (ghAvailable m) (prCache m) (hasCommits m) (newTypeIdx m)
    (newTypeListOpen m) (newDisplayName m) (newBranch m) (newDescription m)
    (newActiveField m) (newBranchEdited m) (editName m)
    (selectedCommitIndex m) (commitDetailScroll m) (activeCommit m) (errMsg m).
Definition set_width (v : Z) (m : Model) : Model :=
  mkModel (state m) (worktrees m) (repoName m) (curBranch m) (cursor m) v
    (height m) (remoteURL m) (stashCount m) (fetchedAgo m) (defaultBranch m)
    (ghAvailable m) (prCache m) (hasCommits m) (newTypeIdx m)
    (newTypeListOpen m) (newDisplayName m) (newBranch m) (newDescription m)
    (newActiveField m) (newBranchEdited m) (editName m)
    (selectedCommitIndex m) (commitDetailScroll m) (activeCommit m) (errMsg m).
Definition set_height (v : Z) (m : Model) : Model :=
  mkModel (state m) (worktrees m) (repoName m) (curBranch m) (cursor m)
    (width m) v (remoteURL m) (stashCount m) (fetchedAgo m) (defaultBranch m)
    (ghAvailable m) (prCache m) (hasCommits m) (newTypeIdx m)
    (newTypeListOpen m) (newDisplayName m) (newBranch m) (newDescription m)
    (newActiveField m) (newBranchEdited m) (editName m)
    (selectedCommitIndex m) (commitDetailScroll m) (activeCommit m) (errMsg m).
Definition set_remoteURL (v : gostring) (m : Model) : Model :=
  mkModel (state m) (worktrees m) (repoName m) (curBranch m) (cursor m)
    (width m) (height m) v (stashCount m) (fetchedAgo m) (defaultBranch m)
    (ghAvailable m) (prCache m) (hasCommits m) (newTypeIdx m)
    (newTypeListOpen m) (newDisplayName m) (newBranch m) (newDescription m)
    (newActiveField m) (newBranchEdited m) (editName m)
    (selectedCommitIndex m) (commitDetailScroll m) (activeCommit m) (errMsg m).
Definition set_stashCount (v : Z) (m : Model) : Model :=
  mkModel (state m) (worktrees m) (repoName m) (curBranch m) (cursor m)
    (width m) (height m) (remoteURL m) v (fetchedAgo m) (defaultBranch m)
    (ghAvailable m) (prCache m) (hasCommits m) (newTypeIdx m)
    (newTypeListOpen m) (newDisplayName m) (newBranch m) (newDescription m)
    (newActiveField m) (newBranchEdited m) (editName m)
    (selectedCommitIndex m) (commitDetailScroll m) (activeCommit m) (errMsg m).
Definition set_fetchedAgo (v : gostring) (m : Model) : Model :=
  mkModel (state m) (worktrees m) (repoName m) (curBranch m) (cursor m)
    (width m) (height m) (remoteURL m) (stashCount m) v (defaultBranch m)
    (ghAvailable m) (prCache m) (hasCommits m) (newTypeIdx m)
    (newTypeListOpen m) (newDisplayName m) (newBranch m) (newDescription m)
    (newActiveField m) (newBranchEdited m) (editName m)
    (selectedCommitIndex m) (commitDetailScroll m) (activeCommit m) (errMsg m).
Definition set_defaultBranch (v : gostring) (m : Model) : Model :=
  mkModel (state m) (worktrees m) (repoName m) (curBranch m) (cursor m)
    (width m) (height m) (remoteURL m) (stashCount m) (fetchedAgo m) v
    (ghAvailable m) (prCache m) (hasCommits m) (newTypeIdx m)
    (newTypeListOpen m) (newDisplayName m) (newBranch m) (newDescription m)
    (newActiveField m) (newBranchEdited m) (editName m)
    (selectedCommitIndex m) (commitDetailScroll m) (activeCommit m) (errMsg m).
Definition set_ghAvailable (v : bool) (m : Model) : Model :=
  mkModel (state m) (worktrees m) (repoName m) (curBranch m) (cursor m)
    (width m) (height m) (remoteURL m) (stashCount m) (fetchedAgo m)
    (defaultBranch m) v (prCache m) (hasCommits m) (newTypeIdx m)
    (newTypeListOpen m) (newDisplayName m) (newBranch m) (newDescription m)
    (newActiveField m) (newBranchEdited m) (editName m)
    (selectedCommitIndex m) (commitDetailScroll m) (activeCommit m) (errMsg m).
Definition set_prCache (v : option (gmap (list Z) prCacheEntry)) (m : Model) : Model :=
  mkModel (state m) (worktrees m) (repoName m) (curBranch m) (cursor m)
    (width m) (height m) (remoteURL m) (stashCount m) (fetchedAgo m)
    (defaultBranch m) (ghAvailable m) v (hasCommits m) (newTypeIdx m)
    (newTypeListOpen m) (newDisplayName m) (newBranch m) (newDescription m)
    (newActiveField m) (newBranchEdited m) (editName m)
    (selectedCommitIndex m) (commitDetailScroll m) (activeCommit m) (errMsg m).
Definition set_newTypeIdx (v : Z) (m : Model) : Model :=
  mkModel (state m) (worktrees m) (repoName m) (curBranch m) (cursor m)
    (width m) (height m) (remoteURL m) (stashCount m) (fetchedAgo m)
    (defaultBranch m) (ghAvailable m) (prCache m) (hasCommits m) v
    (newTypeListOpen m) (newDisplayName m) (newBranch m) (newDescription m)
    (newActiveField m) (newBranchEdited m) (editName m)
    (selectedCommitIndex m) (commitDetailScroll m) (activeCommit m) (errMsg m).
Definition set_newTypeListOpen (v : bool) (m : Model) : Model :=
  mkModel (state m) (worktrees m) (repoName m) (curBranch m) (cursor m)
    (width m) (height m) (remoteURL m) (stashCount m) (fetchedAgo m)
    (defaultBranch m) (ghAvailable m) (prCache m) (hasCommits m)
    (newTypeIdx m) v (newDisplayName m) (newBranch m) (newDescription m)
    (newActiveField m) (newBranchEdited m) (editName m)
    (selectedCommitIndex m) (commitDetailScroll m) (activeCommit m) (errMsg m).
Definition set_newDisplayName (v : gostring) (m : Model) : Model :=
  mkModel (state m) (worktrees m) (repoName m) (curBranch m) (cursor m)
    (width m) (height m) (remoteURL m) (stashCount m) (fetchedAgo m)
    (defaultBranch m) (ghAvailable m) (prCache m) (hasCommits m)
    (newTypeIdx m) (newTypeListOpen m) v (newBranch m) (newDescription m)
    (newActiveField m) (newBranchEdited m) (editName m)
    (selectedCommitIndex m) (commitDetailScroll m) (activeCommit m) (errMsg m).
Definition set_newBranch (v : gostring) (m : Model) : Model :=
  mkModel (state m) (worktrees m) (repoName m) (curBranch m) (cursor m)
    (width m) (height m) (remoteURL m) (stashCount m) (fetchedAgo m)
    (defaultBranch m) (ghAvailable m) (prCache m) (hasCommits m)
    (newTypeIdx m) (newTypeListOpen m) (newDisplayName m) v (newDescription m)
    (newActiveField m) (newBranchEdited m) (editName m)
    (selectedCommitIndex m) (commitDetailScroll m) (activeCommit m) (errMsg m).
Definition set_newDescription (v : gostring) (m : Model) : Model :=
  mkModel (state m) (worktrees m) (repoName m) (curBranch m) (cursor m)
    (width m) (height m) (remoteURL m) (stashCount m) (fetchedAgo m)
    (defaultBranch m) (ghAvailable m) (prCache m) (hasCommits m)
    (newTypeIdx m) (newTypeListOpen m) (newDisplayName m) (newBranch m) v
    (newActiveField m) (newBranchEdited m) (editName m)
    (selectedCommitIndex m) (commitDetailScroll m) (activeCommit m) (errMsg m).
Definition set_newActiveField (v : Z) (m : Model) : Model :=
  mkModel (state m) (worktrees m) (repoName m) (curBranch m) (cursor m)
    (width m) (height m) (remoteURL m) (stashCount m) (fetchedAgo m)
    (defaultBranch m) (ghAvailable m) (prCache m) (hasCommits m)
    (newTypeIdx m) (newTypeListOpen m) (newDisplayName m) (newBranch m)
    (newDescription m) v (newBranchEdited m) (editName m)
    (selectedCommitIndex m) (commitDetailScroll m) (activeCommit m) (errMsg m).
Definition set_newBranchEdited (v : bool) (m : Model) : Model :=
  mkModel (state m) (worktrees m) (repoName m) (curBranch m) (cursor m)
    (width m) (height m) (remoteURL m) (stashCount m) (fetchedAgo m)
    (defaultBranch m) (ghAvailable m) (prCache m) (hasCommits m)
    (newTypeIdx m) (newTypeListOpen m) (newDisplayName m) (newBranch m)
    (newDescription m) (newActiveField m) v (editName m)
    (selectedCommitIndex m) (commitDetailScroll m) (activeCommit m) (errMsg m).
Definition set_editName (v : gostring) (m : Model) : Model :=
  mkModel (state m) (worktrees m) (repoName m) (curBranch m) (cursor m)
    (width m) (height m) (remoteURL m) (stashCount m) (fetchedAgo m)
    (defaultBranch m) (ghAvailable m) (prCache m) (hasCommits m)
    (newTypeIdx m) (newTypeListOpen m) (newDisplayName m) (newBranch m)
    (newDescription m) (newActiveField m) (newBranchEdited m) v
    (selectedCommitIndex m) (commitDetailScroll m) (activeCommit m) (errMsg m).
Definition set_selectedCommitIndex (v : Z) (m : Model) : Model :=
  mkModel (state m) (worktrees m) (repoName m) (curBranch m) (cursor m)
    (width m) (height m) (remoteURL m) (stashCount m) (fetchedAgo m)
    (defaultBranch m) (ghAvailable m) (prCache m) (hasCommits m)
    (newTypeIdx m) (newTypeListOpen m) (newDisplayName m) (newBranch m)
    (newDescription m) (newActiveField m) (newBranchEdited m) (editName m) v
    (commitDetailScroll m) (activeCommit m) (errMsg m).
Definition set_commitDetailScroll (v : Z) (m : Model) : Model :=
  mkModel (state m) (worktrees m) (repoName m) (curBranch m) (cursor m)
    (width m) (height m) (remoteURL m) (stashCount m) (fetchedAgo m)
    (defaultBranch m) (ghAvailable m) (prCache m) (hasCommits m)
    (newTypeIdx m) (newTypeListOpen m) (newDisplayName m) (newBranch m)
    (newDescription m) (newActiveField m) (newBranchEdited m) (editName m)
    (selectedCommitIndex m) v (activeCommit m) (errMsg m).
Definition set_activeCommit (v : CommitDetail.t) (m : Model) : Model :=
  mkModel (state m) (worktrees m) (repoName m) (curBranch m) (cursor m)
    (width m) (height m) (remoteURL m) (stashCount m) (fetchedAgo m)
    (defaultBranch m) (ghAvailable m) (prCache m) (hasCommits m)
    (newTypeIdx m) (newTypeListOpen m) (newDisplayName m) (newBranch m)
    (newDescription m) (newActiveField m) (newBranchEdited m) (editName m)
    (selectedCommitIndex m) (commitDetailScroll m) v (errMsg m).
Definition set_errMsg (v : gostring) (m : Model) : Model :=
  mkModel (state m) (worktrees m) (repoName m) (curBranch m) (cursor m)
    (width m) (height m) (remoteURL m) (stashCount m) (fetchedAgo m)
    (defaultBranch m) (ghAvailable m) (prCache m) (hasCommits m)
    (newTypeIdx m) (newTypeListOpen m) (newDisplayName m) (newBranch m)
    (newDescription m) (newActiveField m) (newBranchEdited m) (editName m)
    (selectedCommitIndex m) (commitDetailScroll m) (activeCommit m) v.

(** [InitialModel()]. *)
Definition InitialModel : Model :=
  mkModel StateNoGit [] [] [] 0 0 0 [] 0 [] [] false None false
    0 false [] [] [] 0 false [] 0 0 CommitDetail.zero [].

(** The payload of [worktreesLoadedMsg]; [err] is the error's text. *)
Record worktreesLoaded := mkLoaded {
  l_worktrees : list Worktree.t;
  l_repoName : gostring;
  l_curBranch : gostring;
  l_remoteURL : gostring;
  l_stashCount : Z;
  l_fetchedAgo : gostring;
  l_defaultBranch : gostring;
  l_ghAvailable : bool;
  l_hasCommits : bool;
  l_err : option gostring
}.

Inductive Msg :=
| WindowSizeMsg (Width Height : Z)
| gitCheckMsg (isGit : bool)
| worktreesLoadedMsg (msg : worktreesLoaded)
| prFetchedMsg (branch : gostring) (info : prCacheEntry)
| commitDetailLoadedMsg (detail : option CommitDetail.t) (err : option gostring)
| gitInitMsg (err : option gostring)
| worktreeCreatedMsg (err : option gostring)
| worktreeDeletedMsg (err : option gostring)
| worktreeRenamedMsg (err : option gostring)
| tea_KeyMsg (k : KeyMsg)
| otherMsg.   (* a message of any other type *)

(** The commands of [model.go], by name and arguments. *)
Inductive Cmd :=
| tea_Quit
| checkGitRepo
| loadWorktrees
| initGitRepo
| fetchPR (branch : gostring)
| loadCommitDetail (worktreePath sha : gostring)
| createWorktree (displayName branch path description : gostring)
| deleteWorktree (branch path : gostring)
| renameWorktree (oldName newName : gostring).

(** The calls into package [git] that a handler makes itself. *)
Inductive Effect :=
| SetupShellIntegration
| MarkShellIntegrated
| WriteCDPath (path : gostring).

(** What package [git] answers when a handler asks. *)
Record Env := mkEnv {
  IsShellIntegrated : bool;
  GetRepoRoot : gostring
}.

(** What one call of [Update] yields. *)
Record Outcome := mkOutcome {
  next : Model;
  cmd : option Cmd;
  effects : list Effect
}.

Definition ret (m : Model) (c : option Cmd) : option Outcome :=
  Some (mkOutcome m c []).

(** [l[i]] for a Go [int] index. *)
Definition index {A} (l : list A) (i : Z) : option A :=
  if i <? 0 then None else l !! Z.to_nat i.

(** [len(l)] for a slice. *)
Definition slen {A} (l : list A) : Z := Z.of_nat (length l).

(** [m.prCache[branch]] with the comma-ok form: reading a nil map finds
    nothing. *)
Definition cacheLookup (m : Model) (branch : gostring) : option prCacheEntry :=
  match prCache m with
  | None => None
  | Some c => c !! branch
  end.

(** [if m.prCache == nil { m.prCache = make(...) }]. *)
Definition ensureCache (m : Model) : Model :=
  match prCache m with
  | None => set_prCache (Some ∅) m
  | Some _ => m
  end.

(** [m.prCache[branch] = info], on a map that was made. *)
Definition cacheStore (branch : gostring) (info : prCacheEntry) (m : Model) : Model :=
  match prCache m with
  | None => m
  | Some c => set_prCache (Some (<[branch := info]> c)) m
  end.

Definition branchTypes : list gostring :=
  map lit ["feat"; "fix"; "chore"; "docs"; "refactor";
           "test"; "style"; "ci"; "perf"; "release"]%string.

(** [resetNewModal]. *)
Definition resetNewModal (m : Model) : Model :=
  let m := set_newTypeIdx 0 m in
  let m := set_newTypeListOpen false m in
  let m := set_newDisplayName [] m in
  let m := set_newBranch [] m in
  let m := set_newDescription [] m in
  let m := set_newActiveField 0 m in
  set_newBranchEdited false m.

(** [openNewModal]. *)
Definition openNewModal (m : Model) : Model :=
  set_state StateNewWorktree (resetNewModal m).

(** [dropLast]. *)
Definition dropLast (s : gostring) : gostring :=
  if runeCount s =? 0 then s else take (length s - 1)%nat s.

(** ** The transition function ([update.go]) *)

Section Update.
Variable lowerTable : rune → rune.

(** The body of the loop of [slugify]: the builder [b] and [prevSep]
    before and after the rune [r]. *)
Definition slugStep (st : gostring * bool) (r : rune) : gostring * bool :=
  let '(b, prevSep) := st in
  if ((0x61 <=? r) && (r <=? 0x7A)) || ((0x30 <=? r) && (r <=? 0x39))
  then (b ++ [r], false)
  else if r =? 0x2F
  then (b ++ [0x2F], false)
  else if IsSpace r || (r =? 0x5F) || (r =? 0x2D)
  then (if negb prevSep && (len b >? 0) then (b ++ [0x2D], true) else (b, prevSep))
  else (b, prevSep).

(** [slugify(s)]. *)
Definition slugify (s : gostring) : gostring :=
  TrimRight (fst (fold_left slugStep (ToLower lowerTable s) ([], false))) (lit "-/").

(** [recalcBranch]. *)
Definition recalcBranch (m : Model) : option Model :=
  if newBranchEdited m then Some m
  else
    let slug := slugify (newDisplayName m) in
    ty ← index branchTypes (newTypeIdx m);
    if streq slug [] then Some (set_newBranch ty m)
    else Some (set_newBranch (ty ++ lit "/" ++ slug) m).

(** [deleteChar]. *)
Definition deleteChar (m : Model) : option Model :=
  if newActiveField m =? 1
  then recalcBranch (set_newDisplayName (dropLast (newDisplayName m)) m)
  else if newActiveField m =? 2
  then Some (set_newBranchEdited true (set_newBranch (dropLast (newBranch m)) m))
  else if newActiveField m =? 3
  then Some (set_newDescription (dropLast (newDescription m)) m)
  else Some m.

(** [appendRunes]. *)
Definition appendRunes (runes : list rune) (m : Model) : option Model :=
  if newActiveField m =? 0 then Some m
  else if newActiveField m =? 1
  then recalcBranch (set_newDisplayName (newDisplayName m ++ string_of_runes runes) m)
  else if newActiveField m =? 2
  then
    let typed := map (λ r, if IsSpace r then 0x2D else r) runes in
    Some (set_newBranchEdited true
            (set_newBranch (newBranch m ++ string_of_runes typed) m))
  else if newActiveField m =? 3
  then Some (set_newDescription (newDescription m ++ string_of_runes runes) m)
  else Some m.

(** [maybeFetchPR]. *)
Definition maybeFetchPR (m : Model) : option (option Cmd) :=
  if negb (ghAvailable m) || (cursor m =? 0) || (cursor m - 1 >=? slen (worktrees m))
  then Some None
  else
    wt ← index (worktrees m) (cursor m - 1);
    if Worktree.IsMain wt then Some None
    else if cacheLookup m (Worktree.Branch wt) is Some _ then Some None
    else Some (Some (fetchPR (Worktree.Branch wt))).

Definition keyIs (k : KeyMsg) (name : string) : bool :=
  streq (KeyString k) (lit name).

(** [handleNoGit]. *)
Definition handleNoGit (m : Model) (k : KeyMsg) : option Outcome :=
  if keyIs k "i" then ret m (Some initGitRepo)
  else if keyIs k "q" then ret m (Some tea_Quit)
  else ret m None.

(** [handleShellSetup]. *)
Definition handleShellSetup (m : Model) (k : KeyMsg) : option Outcome :=
  if keyIs k "y"
  then Some (mkOutcome (set_state StateList m) (Some loadWorktrees)
               [SetupShellIntegration; MarkShellIntegrated])
  else if keyIs k "n" || keyIs k "esc" || keyIs k "q"
  then Some (mkOutcome (set_state StateList m) (Some loadWorktrees)
               [MarkShellIntegrated])
  else ret m None.

(** [handleList]. *)
Definition handleList (m : Model) (k : KeyMsg) : option Outcome :=
  let total := slen (worktrees m) + 1 in
  if keyIs k "q" then ret m (Some tea_Quit)
  else if keyIs k "up" || keyIs k "k"
  then
    let m := if cursor m >? 0 then set_cursor (cursor m - 1) m else m in
    c ← maybeFetchPR m; ret m c
  else if keyIs k "down" || keyIs k "j"
  then
    let m := if cursor m <? total - 1 then set_cursor (cursor m + 1) m else m in
    c ← maybeFetchPR m; ret m c
  else if keyIs k "enter"
  then
    if cursor m =? 0 then ret (openNewModal m) None
    else if cursor m - 1 <? slen (worktrees m)
    then ret (set_state StateRightPaneFocused (set_selectedCommitIndex 0 m)) None
    else ret m None
  else if keyIs k "n" then ret (openNewModal m) None
  else if keyIs k "d"
  then
    if cursor m >? 0
    then
      wt ← index (worktrees m) (cursor m - 1);
      if negb (Worktree.IsMain wt) then ret (set_state StateDeleteConfirm m) None
      else ret m None
    else ret m None
  else if keyIs k "e"
  then
    if cursor m >? 0
    then
      wt ← index (worktrees m) (cursor m - 1);
      ret (set_state StateEditWorktree (set_editName (Worktree.Branch wt) m)) None
    else ret m None
  else if keyIs k "c"
  then
    if cursor m >? 0
    then
      wt ← index (worktrees m) (cursor m - 1);
      Some (mkOutcome m (Some tea_Quit) [WriteCDPath (Worktree.Path wt)])
    else ret m None
  else ret m None.

(** [handleTypeList]. *)
Definition handleTypeList (m : Model) (k : KeyMsg) : option Outcome :=
  if keyIs k "up" || keyIs k "k"
  then ret (if newTypeIdx m >? 0 then set_newTypeIdx (newTypeIdx m - 1) m else m) None
  else if keyIs k "down" || keyIs k "j"
  then ret (if newTypeIdx m <? slen branchTypes - 1
            then set_newTypeIdx (newTypeIdx m + 1) m else m) None
  else if keyIs k "enter"
  then m' ← recalcBranch (set_newTypeListOpen false m); ret m' None
  else if keyIs k "esc"
  then ret (set_newTypeListOpen false m) None
  else ret m None.

(** [handleNewWorktree]. *)
Definition handleNewWorktree (env : Env) (m : Model) (k : KeyMsg) : option Outcome :=
  if newTypeListOpen m then handleTypeList m k
  else
    match Type_ k with
    | KeyEsc => ret (resetNewModal (set_state StateList m)) None
    | KeyTab | KeyDown =>
        ret (set_newActiveField (Z.rem (newActiveField m + 1) 4) m) None
    | KeyUp =>
        ret (set_newActiveField (Z.rem (newActiveField m + 3) 4) m) None
    | KeyEnter =>
        if newActiveField m =? 0 then ret (set_newTypeListOpen true m) None
        else if negb (streq (newDisplayName m) []) && negb (streq (newBranch m) [])
        then
          let root := GetRepoRoot env in
          let safePath := ReplaceAll (newBranch m) 0x2F 0x2D in
          let wtPath := filepath_Join [root; lit ".wt"; safePath] in
          ret m (Some (createWorktree (newDisplayName m) (newBranch m) wtPath
                         (newDescription m)))
        else ret m None
    | KeySpace => m' ← appendRunes [0x20] m; ret m' None
    | KeyBackspace => m' ← deleteChar m; ret m' None
    | KeyRunes => m' ← appendRunes (Runes k) m; ret m' None
    | _ => ret m None
    end.

(** [handleRightPaneFocused]. *)
Definition handleRightPaneFocused (m : Model) (k : KeyMsg) : option Outcome :=
  commits ←
    (if (cursor m >? 0) && (cursor m - 1 <? slen (worktrees m))
     then Worktree.Commits <$> index (worktrees m) (cursor m - 1)
     else Some []);
  if keyIs k "q" then ret m (Some tea_Quit)
  else if keyIs k "esc" then ret (set_state StateList m) None
  else if keyIs k "up" || keyIs k "k"
  then ret (if selectedCommitIndex m >? 0
            then set_selectedCommitIndex (selectedCommitIndex m - 1) m else m) None
  else if keyIs k "down" || keyIs k "j"
  then ret (if selectedCommitIndex m <? slen commits - 1
            then set_selectedCommitIndex (selectedCommitIndex m + 1) m else m) None
  else if keyIs k "enter"
  then
    if (slen commits >? 0) && (selectedCommitIndex m <? slen commits)
    then
      c ← index commits (selectedCommitIndex m);
      wt ← index (worktrees m) (cursor m - 1);
      let m := set_activeCommit
                 (CommitDetail.mk (Commit.Hash c) (Commit.Message c) []
                    (Commit.RelTime c) [] [] false) m in
      let m := set_commitDetailScroll 0 m in
      let m := set_state StateCommitDetail m in
      ret m (Some (loadCommitDetail (Worktree.Path wt) (Commit.Hash c)))
    else ret m None
  else ret m None.

(** [handleCommitDetail]. *)
Definition handleCommitDetail (m : Model) (k : KeyMsg) : option Outcome :=
  if keyIs k "esc" then ret (set_state StateRightPaneFocused m) None
  else if keyIs k "up" || keyIs k "k"
  then ret (if commitDetailScroll m >? 0
            then set_commitDetailScroll (commitDetailScroll m - 1) m else m) None
  else if keyIs k "down" || keyIs k "j"
  then ret (set_commitDetailScroll (wrap (commitDetailScroll m + 1)) m) None
  else ret m None.

(** [handleEditWorktree]. *)
Definition handleEditWorktree (m : Model) (k : KeyMsg) : option Outcome :=
  match Type_ k with
  | KeyEsc => ret (set_editName [] (set_state StateList m)) None
  | KeyEnter =>
      if (cursor m >? 0) && negb (streq (editName m) [])
      then
        wt ← index (worktrees m) (cursor m - 1);
        if negb (streq (Worktree.Branch wt) (editName m))
        then ret m (Some (renameWorktree (Worktree.Branch wt) (editName m)))
        else ret (set_state StateList m) None
      else ret (set_state StateList m) None
  | KeyBackspace => ret (set_editName (dropLast (editName m)) m) None
  | KeySpace => ret (set_editName (editName m ++ lit " ") m) None
  | KeyRunes => ret (set_editName (editName m ++ string_of_runes (Runes k)) m) None
  | _ => ret m None
  end.

(** [handleDeleteConfirm]. *)
Definition handleDeleteConfirm (m : Model) (k : KeyMsg) : option Outcome :=
  if keyIs k "y"
  then
    if cursor m >? 0
    then
      wt ← index (worktrees m) (cursor m - 1);
      ret m (Some (deleteWorktree (Worktree.Branch wt) (Worktree.Path wt)))
    else ret m None
  else if keyIs k "n" || keyIs k "esc" then ret (set_state StateList m) None
  else ret m None.

(** [handleKey]. *)
Definition handleKey (env : Env) (m : Model) (k : KeyMsg) : option Outcome :=
  if keyIs k "ctrl+c" then ret m (Some tea_Quit)
  else if negb (streq (errMsg m) []) then ret (set_errMsg [] m) None
  else
    match state m with
    | StateNoGit => handleNoGit m k
    | StateShellSetup => handleShellSetup m k
    | StateList => handleList m k
    | StateNewWorktree => handleNewWorktree env m k
    | StateEditWorktree => handleEditWorktree m k
    | StateDeleteConfirm => handleDeleteConfirm m k
    | StateRightPaneFocused => handleRightPaneFocused m k
    | StateCommitDetail => handleCommitDetail m k
    end.

(** [if msg.err != nil { m.errMsg = msg.err.Error() }]. *)
Definition noteErr (err : option gostring) (m : Model) : Model :=
  match err with
  | Some e => set_errMsg e m
  | None => m
  end.

(** [Update]. *)
Definition Update (env : Env) (m : Model) (msg : Msg) : option Outcome :=
  match msg with
  | WindowSizeMsg w h => ret (set_height h (set_width w m)) None
  | gitCheckMsg isGit =>
      if negb isGit then ret (set_state StateNoGit m) None
      else if IsShellIntegrated env
      then ret (set_state StateList m) (Some loadWorktrees)
      else ret (set_state StateShellSetup m) None
  | worktreesLoadedMsg msg =>
      match l_err msg with
      | Some e => ret (set_errMsg e m) None
      | None =>
          let m := set_worktrees (l_worktrees msg) m in
          let m := set_repoName (l_repoName msg) m in
          let m := set_curBranch (l_curBranch msg) m in
          let m := set_remoteURL (l_remoteURL msg) m in
          let m := set_stashCount (l_stashCount msg) m in
          let m := set_fetchedAgo (l_fetchedAgo msg) m in
          let m := set_defaultBranch (l_defaultBranch msg) m in
          let m := set_ghAvailable (l_ghAvailable msg) m in
          let m := ensureCache m in
          let m := set_state StateList m in
          let m := if cursor m >? slen (worktrees m)
                   then set_cursor (slen (worktrees m)) m else m in
          c ← maybeFetchPR m; ret m c
      end
  | prFetchedMsg branch info =>
      ret (cacheStore branch info (ensureCache m)) None
  | commitDetailLoadedMsg detail err =>
      match err with
      | Some e => ret (set_errMsg e m) None
      | None =>
          match detail with
          | Some d => ret (set_activeCommit d m) None
          | None => ret m None
          end
      end
  | gitInitMsg err =>
      match err with
      | Some e => ret (set_errMsg e m) None
      | None => ret (set_state StateList m) (Some loadWorktrees)
      end
  | worktreeCreatedMsg err =>
      let m := set_state StateList m in
      let m := resetNewModal m in
      let m := noteErr err m in
      ret m (Some loadWorktrees)
  | worktreeDeletedMsg err =>
      let m := set_state StateList m in
      let m := noteErr err m in
      let m := if cursor m >? 0 then set_cursor (cursor m - 1) m else m in
      ret m (Some loadWorktrees)
  | worktreeRenamedMsg err =>
      let m := set_state StateList m in
      let m := noteErr err m in
      ret m (Some loadWorktrees)
  | tea_KeyMsg k => handleKey env m k
  | otherMsg => ret m None
  end.

(** The program's run: the messages of the queue, one after the other,
    each with what the environment answers at that moment. *)
Fixpoint run (m : Model) (events : list (Env * Msg)) : option Model :=
  match events with
  | [] => Some m
  | (env, msg) :: rest => o ← Update env m msg; run (next o) rest
  end.
End Update.

(** ** Rendering ([view.go], [styles.go]) *)

(** The part of a lipgloss style the program sets on text. *)
Record Style := mkStyle { bold : bool; foreground : option gostring }.

Definition fg (c : string) : Style := mkStyle false (Some (lit c)).
Definition boldStyle : Style := mkStyle true None.
Definition boldFg (c : string) : Style := mkStyle true (Some (lit c)).

Definition clrAccent : string := "5".
Definition clrDim : string := "8".
Definition clrBlue : string := "4".
Definition clrFlamingo : string := "#f2cdcd".
Definition clrPROpen : string := "#94e2d5".
Definition clrPRMerged : string := "#cba6f7".
Definition clrPRClosed : string := "#f38ba8".
Definition clrPRNone : string := "#a6adc8".
Definition clrCommitTitle : string := "#cdd6f4".
Definition clrCommitBody : string := "#bac2de".
Definition clrCommitContext : string := "#a6adc8".
Definition clrDiffAdded : string := "#a6e3a1".
Definition clrDiffRemoved : string := "#f38ba8".
Definition clrFileAdded : string := "#a6e3a1".
Definition clrFileModified : string := "#f9e2af".
Definition clrFileDeleted : string := "#f38ba8".
Definition clrFileRenamed : string := "#cba6f7".

Definition dimStyle : Style := fg clrDim.
Definition sectionDividerStyle : Style := fg clrDim.
Definition commitDotStyle : Style := fg clrBlue.
Definition footerStyle : Style := fg clrDim.
Definition footerKeyStyle : Style := boldFg clrAccent.

(** [strings.Index(h, "  ")]: where the first pair of spaces starts. *)
Fixpoint indexTwoSpaces (h : gostring) : option nat :=
  match h with
  | a :: ((b :: _) as t) =>
      if (a =? 0x20) && (b =? 0x20) then Some 0%nat
      else S <$> indexTwoSpaces t
  | _ => None
  end.

(** The scroll arithmetic of [renderCommitDetailOverlay]: the offset put to
    use and the window shown, for the line buffer [lines], the window height
    [scrollH] and the stored offset [stored]. *)
Definition maxScroll {A} (lines : list A) (scrollH : Z) : Z :=
  let maxScroll := slen lines - scrollH in
  if maxScroll <? 0 then 0 else maxScroll.

Definition appliedScroll {A} (lines : list A) (scrollH stored : Z) : Z :=
  if stored >? maxScroll lines scrollH then maxScroll lines scrollH else stored.

Definition visibleLines (lines : list gostring) (scrollH stored : Z) : list gostring :=
  let scroll := appliedScroll lines scrollH stored in
  let visible :=
    if (scroll >? 0) && (scroll <? slen lines)
    then drop (Z.to_nat scroll) lines else lines in
  let visible :=
    if slen visible >? scrollH then take (Z.to_nat scrollH) visible else visible in
  visible ++ replicate (Z.to_nat (scrollH - slen visible)) [].

Section View.
Variable upperTable : rune → rune.
(** lipgloss: [Style.Render], [Width], and the bordered, padded box of the
    overlay for a given inner width. *)
Variable Render : Style → gostring → gostring.
Variable lipgloss_Width : gostring → Z.
Variable boxRender : Z → gostring → gostring.
(** The three screens of [View], built with lipgloss. *)
Variable viewNoGit viewShellSetup viewMain : Model → gostring.

(** [View]. *)
Definition View (m : Model) : gostring :=
  if (width m =? 0) || (height m =? 0) then []
  else
    match state m with
    | StateNoGit => viewNoGit m
    | StateShellSetup => viewShellSetup m
    | _ => viewMain m
    end.

(** [prBadge]. *)
Definition prBadge (m : Model) (branch : gostring) : gostring :=
  if negb (ghAvailable m) then []
  else
    match cacheLookup m branch with
    | None => []
    | Some None => Render (fg clrPRNone) (lit "no PR")
    | Some (Some info) =>
        let st := ToUpper upperTable (PRInfo.State info) in
        let n := itoa (PRInfo.Number info) in
        if streq st (lit "OPEN")
        then Render (fg clrPROpen) ([0x25CF] ++ lit " open  #" ++ n)
        else if streq st (lit "MERGED")
        then Render (fg clrPRMerged) ([0x2713] ++ lit " merged  #" ++ n)
        else if streq st (lit "CLOSED")
        then Render (fg clrPRClosed) ([0x2717] ++ lit " closed  #" ++ n)
        else []
    end.

(** [renderHints]. *)
Definition renderHints (hints : list gostring) : gostring :=
  Join
    (map (λ h, match indexTwoSpaces h with
               | Some idx => Render footerKeyStyle (take idx h)
                             ++ Render footerStyle (drop idx h)
               | None => Render footerStyle h
               end) hints)
    (Render footerStyle (lit "    ")).

(** The sizes of the overlay. *)
Definition overlayInnerW (m : Model) : Z :=
  let outerW := Z.quot (wrap (width m * 80)) 100 in
  let outerW := if outerW <? 40 then 40 else outerW in
  outerW - 6.

Definition overlayScrollH (m : Model) : Z :=
  let outerH := Z.quot (wrap (height m * 80)) 100 in
  let outerH := if outerH <? 10 then 10 else outerH in
  let innerH := outerH - 4 in
  let scrollH := innerH - 2 in
  if scrollH <? 1 then 1 else scrollH.

Definition fileLine (f : CommitFile.t) : gostring :=
  let st := CommitFile.Status f in
  let sc := if streq st (lit "A") then clrFileAdded
            else if streq st (lit "D") then clrFileDeleted
            else if streq st (lit "R") then clrFileRenamed
            else clrFileModified in
  Render commitDotStyle [0x25CF] ++ lit "  " ++ Render (fg sc) st ++ lit "  "
  ++ Render (fg clrCommitTitle) (CommitFile.Path f).

Definition diffLine (innerW : Z) (dl : DiffLine.t) : gostring :=
  let ty := DiffLine.Type_ dl in
  let text := truncate (DiffLine.Content dl) innerW in
  if streq ty (lit "+") then Render (fg clrDiffAdded) text
  else if streq ty (lit "-") then Render (fg clrDiffRemoved) text
  else if streq ty (lit "@@") then Render (fg clrAccent) text
  else if streq ty (lit "diff") then Render boldStyle text
  else if streq ty (lit "meta") then Render dimStyle text
  else Render (fg clrCommitContext) text.

(** The line buffer [lines] of [renderCommitDetailOverlay]. *)
Definition overlayLines (m : Model) : list gostring :=
  let innerW := overlayInnerW m in
  let cd := activeCommit m in
  let hashStr := Render (fg clrFlamingo) (CommitDetail.ShortHash cd) in
  let timeStr := Render (fg clrCommitContext) (CommitDetail.RelTime cd) in
  let gap := innerW - lipgloss_Width hashStr - lipgloss_Width timeStr in
  let gap := if gap <? 1 then 1 else gap in
  let lines := [hashStr ++ Repeat space gap ++ timeStr; []] in
  let lines := lines ++
    [Render (boldFg clrCommitTitle) (truncate (CommitDetail.Subject cd) innerW)] in
  let lines :=
    if negb (streq (CommitDetail.Body cd) [])
    then lines ++ [[]]
         ++ map (Render (fg clrCommitBody)) (wrapWords (CommitDetail.Body cd) innerW)
    else lines in
  if negb (CommitDetail.Loaded cd)
  then lines ++ [[]; Render dimStyle (lit "Loading" ++ [ellipsis])]
  else
    let lines :=
      if slen (CommitDetail.Files cd) >? 0
      then
        let hdr := lit "Files changed (" ++ itoa (slen (CommitDetail.Files cd))
                   ++ lit ") " in
        let divW := innerW - lipgloss_Width hdr in
        let divW := if divW <? 0 then 0 else divW in
        lines ++ [[]; Render sectionDividerStyle (hdr ++ Repeat 0x2500 divW); []]
        ++ map fileLine (CommitDetail.Files cd)
      else lines in
    if slen (CommitDetail.Diff cd) >? 0
    then
      let diffHdr := lit "Diff " in
      let divW := innerW - lipgloss_Width diffHdr in
      let divW := if divW <? 0 then 0 else divW in
      lines ++ [[]; Render sectionDividerStyle (diffHdr ++ Repeat 0x2500 divW); []]
      ++ map (diffLine innerW) (CommitDetail.Diff cd)
    else lines.

(** [renderCommitDetailOverlay]. *)
Definition renderCommitDetailOverlay (m : Model) : gostring :=
  let innerW := overlayInnerW m in
  let scrollH := overlayScrollH m in
  let lines := overlayLines m in
  let total := slen lines in
  let scroll := appliedScroll lines scrollH (commitDetailScroll m) in
  let visible := visibleLines lines scrollH (commitDetailScroll m) in
  let scrollInfo :=
    if total >? scrollH
    then lit "  " ++ Render dimStyle (itoa (scroll + 1) ++ lit "/" ++ itoa total)
    else [] in
  let hints := renderHints [[0x2191; 0x2193] ++ lit "  scroll"; lit "esc  close"]
               ++ scrollInfo in
  let body := Join visible [newline] ++ [newline; newline] ++ hints in
  boxRender innerW body.
End View.

End Ui.
Import Ui.

(** ** Vocabulary of the statements *)

Module Vocabulary.

(** A word: what [strings.Fields] returns, non-empty and free of spaces. *)
Definition isWord (l : gostring) : bool :=
  negb (streq l []) && forallb (λ r, negb (IsSpace r)) l.

(** The words of a text, paragraph after paragraph. *)
Definition wordsOf (s : gostring) : list gostring :=
  concat (map Fields (Split s newline)).

Definition hyphen : rune := 0x2D.
Definition slash : rune := 0x2F.

Definition isLowerAlnum (r : rune) : bool :=
  ((0x61 <=? r) && (r <=? 0x7A)) || ((0x30 <=? r) && (r <=? 0x39)).

(** The runes [slugify] copies: letters and digits, and the slash. *)
Definition keptRune (r : rune) : bool := isLowerAlnum r || (r =? slash).

(** The runes a slug is made of. *)
Definition isSlugRune (r : rune) : bool := keptRune r || (r =? hyphen).

(** The runes [slugify] reads as a separator. *)
Definition isSeparator (r : rune) : bool :=
  IsSpace r || (r =? 0x5F) || (r =? hyphen).

(** Two hyphens side by side. *)
Fixpoint hasDoubleHyphen (s : gostring) : bool :=
  match s with
  | a :: ((b :: _) as t) => ((a =? hyphen) && (b =? hyphen)) || hasDoubleHyphen t
  | _ => false
  end.

(** The cursor names the create row or a loaded worktree. *)
Definition cursorInRange (m : Model) : Prop :=
  0 <= cursor m <= slen (worktrees m).

(** A case table that leaves every rune alone: for runs on ASCII text,
    where the tables are never consulted. *)
Definition noTable (r : rune) : rune := r.

(** A line that may leave the loop of [wrapWords]: within the width, or one
    word alone, among the [known] words. *)
Definition fitting (width : Z) (known : gostring → Prop) (l : gostring) : Prop :=
  len l <= width ∨ (isWord l = true ∧ known l ∧ width < len l).

(** The loop invariant of [wrapWords] on [lines] and [line]. *)
Definition packed (width : Z) (known : gostring → Prop)
  (st : list gostring * gostring) : Prop :=
  Forall (fitting width known) st.1 ∧ (st.2 = [] ∨ fitting width known st.2).

(** A separator typed on an ASCII keyboard. *)
Definition asciiSeparator (r : rune) : bool := isSeparator r && (r <=? 0x7F).

Definition notHyphen (r : rune) : bool := negb (r =? hyphen).

(** The loop invariant of [slugify] on the builder and [prevSep]. *)
Definition builderInv (st : gostring * bool) : Prop :=
  Forall (λ r, isSlugRune r = true) st.1 ∧
  head st.1 ≠ Some hyphen ∧
  hasDoubleHyphen st.1 = false ∧
  (st.2 = true ↔ last st.1 = Some hyphen).

(** [slugify] in the words of its description, as a function of its own.
    Of the lower-cased text only letters, digits, slashes and separators
    count, the rest is left out; [dropSeparators] drops the separators the
    text starts with; [squeeze] copies letters, digits and slashes and puts
    one hyphen for each run of separators, long as it may be;
    the hyphens and slashes at the end are then cut. *)
Definition slugRelevant (r : rune) : bool := keptRune r || isSeparator r.

Fixpoint dropSeparators (s : gostring) : gostring :=
  match s with
  | [] => []
  | r :: s' => if isSeparator r then dropSeparators s' else s
  end.

Fixpoint squeeze (s : gostring) : gostring :=
  match s with
  | [] => []
  | r :: s' =>
      if isSeparator r
      then match s' with
           | r' :: _ => if isSeparator r' then squeeze s' else hyphen :: squeeze s'
           | [] => [hyphen]
           end
      else r :: squeeze s'
  end.

Definition slugifySpec (lowerTable : rune → rune) (s : gostring) : gostring :=
  TrimRight
    (squeeze (dropSeparators (List.filter slugRelevant (ToLower lowerTable s))))
    (lit "-/").

(** What [Update] needs of a model to index its slices safely: the cursor
    in range, a branch type chosen among [branchTypes], a commit selection
    that is not negative. *)
Definition wellFormed (m : Model) : Prop :=
  cursorInRange m ∧
  0 <= newTypeIdx m < slen branchTypes ∧
  0 <= selectedCommitIndex m.

(** A terminal without styling: lipgloss hands the text back as it is, and a
    box adds nothing. *)
Definition plainRender (st : Style) (s : gostring) : gostring := s.
Definition plainBox (innerW : Z) (s : gostring) : gostring := s.
Definition blankScreen (m : Model) : gostring := lit " ".

(** Sample data. *)
Definition worktreeOn (branch : string) (isMain : bool) : Worktree.t :=
  Worktree.mk (lit branch) (lit "/repo/.wt/" ++ lit branch) (lit branch) isMain
    [] [] [] 0 0 false [] [] 0 0.

Definition threeWorktrees : list Worktree.t :=
  [worktreeOn "main" true; worktreeOn "feat/a" false; worktreeOn "feat/b" false].

Definition someEnv : Env := mkEnv true (lit "/repo").

(** A commit whose overlay has fifty lines: hash, blank, subject, the three
    lines that head the diff, and forty-four lines of patch. *)
Definition fiftyLineCommit : CommitDetail.t :=
  CommitDetail.mk (lit "1a2b3c4") (lit "Add scroll") [] (lit "3h ago") []
    (replicate 44 (DiffLine.mk (lit " ") (lit "context"))) true.

(** A cache that knows one open pull request, for "feat/b". *)
Definition oneOpenPR : gmap (list Z) prCacheEntry :=
  {[ lit "feat/b" := Some (PRInfo.mk (lit "OPEN") 7 (lit "https://example.test/pr/7")) ]}.

(** The overlay open on [fiftyLineCommit] in a terminal of 100 by 33, whose
    window shows twenty lines, scrolled to the last full window. *)
Definition scrolledToEnd : Model :=
  set_commitDetailScroll 30
    (set_activeCommit fiftyLineCommit
       (set_height 33 (set_width 100 (set_state StateCommitDetail InitialModel)))).

(** A worktree on a detached HEAD, as [ListWorktrees] reads it: branch and
    name are both "(detached)". *)
Definition detachedAt (path : string) : Worktree.t :=
  Worktree.mk (lit "(detached)") (lit path) (lit "(detached)") false
    [] [] [] 0 0 false [] [] 0 0.

Definition twoDetached : list Worktree.t :=
  [worktreeOn "main" true; detachedAt "/repo/.wt/x"; detachedAt "/repo/.wt/y"].

(** A load that brings [wts], with gh at hand, and a load that fails. *)
Definition loadOf (wts : list Worktree.t) : worktreesLoaded :=
  mkLoaded wts (lit "repo") (lit "main") (lit "github.com/org/repo")
    0 (lit "2h ago") (lit "main") true true None.

Definition failedLoad : worktreesLoaded :=
  mkLoaded [] [] [] [] 0 [] [] false false
    (Some (lit "git worktree list: exit status 128")).

(** A session that walks down to the second of two detached worktrees: the
    fetch for the first is under way when the cursor reaches the second. *)
Definition toSecondDetached : list (Env * Msg) :=
  [(someEnv, gitCheckMsg true); (someEnv, worktreesLoadedMsg (loadOf twoDetached));
   (someEnv, tea_KeyMsg (key KeyDown)); (someEnv, tea_KeyMsg (key KeyDown));
   (someEnv, tea_KeyMsg (key KeyDown))].

(** A session that opens the rename modal on "feat/a" and then sees a
    reload fail, which puts up the error banner over the modal. *)
Definition toRenameUnderBanner : list (Env * Msg) :=
  [(someEnv, gitCheckMsg true); (someEnv, worktreesLoadedMsg (loadOf threeWorktrees));
   (someEnv, tea_KeyMsg (key KeyDown)); (someEnv, tea_KeyMsg (key KeyDown));
   (someEnv, tea_KeyMsg (runeKey "e")); (someEnv, worktreesLoadedMsg failedLoad)].

Definition onSecondDetached : Model :=
  default InitialModel (run noTable InitialModel toSecondDetached).

Definition renameUnderBanner : Model :=
  default InitialModel (run noTable InitialModel toRenameUnderBanner).

End Vocabulary.
Import Vocabulary.

(** ** Reachable models and what they keep *)

Module Reach.

(** The models the program can be in: the initial one, and any model a call
    of [Update] returns from one of them. *)
Inductive reachable (lowerTable : rune → rune) : Model → Prop :=
| reach_init : reachable lowerTable InitialModel
| reach_step (m : Model) (env : Env) (msg : Msg) (o : Outcome) :
    reachable lowerTable m →
    Update lowerTable env m msg = Some o →
    reachable lowerTable (next o).

(** [m.worktrees[m.cursor-1]], the worktree under the cursor. *)
Definition selected (m : Model) : option Worktree.t :=
  index (worktrees m) (cursor m - 1).

(** The modes that act on the worktree under the cursor. *)
Definition actsOnSelection (s : AppState) : bool :=
  match s with
  | StateEditWorktree | StateDeleteConfirm
  | StateRightPaneFocused | StateCommitDetail => true
  | _ => false
  end.

Definition noSpace (s : gostring) : Prop := Forall (λ r, IsSpace r = false) s.

(** The modal fields are in range, the branch field holds no space, and a
    mode that acts on the selection has one: in the delete confirmation, a
    worktree that is not the primary one. *)
Definition settled (m : Model) : Prop :=
  0 <= newActiveField m <= 3 ∧
  noSpace (newBranch m) ∧
  (actsOnSelection (state m) = true → 1 <= cursor m) ∧
  (state m = StateDeleteConfirm →
   ∃ wt, selected m = Some wt ∧ Worktree.IsMain wt = false).

(** What every reachable model satisfies. *)
Definition steady (m : Model) : Prop := wellFormed m ∧ settled m.

(** The data loaded from the repository and the viewport: what only
    completion and resize messages may change. *)
Definition sameData (m m' : Model) : Prop :=
  worktrees m' = worktrees m ∧ repoName m' = repoName m ∧
  curBranch m' = curBranch m ∧ remoteURL m' = remoteURL m ∧
  stashCount m' = stashCount m ∧ fetchedAgo m' = fetchedAgo m ∧
  defaultBranch m' = defaultBranch m ∧ ghAvailable m' = ghAvailable m ∧
  prCache m' = prCache m ∧ hasCommits m' = hasCommits m ∧
  width m' = width m ∧ height m' = height m.

(** A path element that [filepath.Clean] copies as it is, and an absolute
    path in clean form other than the root: a slash before each of its
    elements. *)
Definition plainElement (e : gostring) : Prop :=
  e ≠ [] ∧ (0x2F ∉ e) ∧ e ≠ lit "." ∧ e ≠ lit "..".

Definition cleanAbsolute (p : gostring) : Prop :=
  ∃ es, es ≠ [] ∧ Forall plainElement es ∧ p = concat (map (cons 0x2F) es).

(** Where a command comes from: what the model it was issued in and the
    model returned with it say about each command. *)
Definition issuedBy (env : Env) (m : Model) (o : Outcome) : Prop :=
  match cmd o with
  | Some (deleteWorktree b p) =>
      state m = StateDeleteConfirm ∧
      ∃ wt, selected m = Some wt ∧ b = Worktree.Branch wt ∧ p = Worktree.Path wt
  | Some (createWorktree dn br path desc) =>
      state m = StateNewWorktree ∧
      dn = newDisplayName m ∧ dn ≠ [] ∧ br = newBranch m ∧ br ≠ [] ∧
      path = filepath_Join [GetRepoRoot env; lit ".wt"; ReplaceAll br 0x2F 0x2D] ∧
      desc = newDescription m
  | Some (renameWorktree old new) =>
      state m = StateEditWorktree ∧
      ∃ wt, selected m = Some wt ∧ old = Worktree.Branch wt ∧
            new = editName m ∧ new ≠ [] ∧ old ≠ new
  | Some (fetchPR b) => maybeFetchPR (next o) = Some (Some (fetchPR b))
  | Some (loadCommitDetail p h) =>
      state m = StateRightPaneFocused ∧
      ∃ wt c, selected m = Some wt ∧
              index (Worktree.Commits wt) (selectedCommitIndex m) = Some c ∧
              p = Worktree.Path wt ∧ h = Commit.Hash c
  | Some initGitRepo => state m = StateNoGit
  | Some checkGitRepo => False
  | _ => True
  end.

(** The commands issued along a run, in order. *)
Fixpoint runCmds (lowerTable : rune → rune) (m : Model) (events : list (Env * Msg))
  : list Cmd :=
  match events with
  | [] => []
  | (env, msg) :: rest =>
      match Update lowerTable env m msg with
      | Some o =>
          (if cmd o is Some c then [c] else []) ++ runCmds lowerTable (next o) rest
      | None => []
      end
  end.

(** A session up to the delete confirmation: the repository is found, three
    worktrees are loaded, the cursor goes down twice and "d" is pressed. *)
Definition loadedThree : worktreesLoaded :=
  mkLoaded threeWorktrees (lit "repo") (lit "main") (lit "github.com/org/repo")
    0 (lit "2h ago") (lit "main") true true None.

Definition toDeleteConfirm : list (Env * Msg) :=
  [(someEnv, gitCheckMsg true); (someEnv, worktreesLoadedMsg loadedThree);
   (someEnv, tea_KeyMsg (key KeyDown)); (someEnv, tea_KeyMsg (key KeyDown));
   (someEnv, tea_KeyMsg (runeKey "d"))].

(** The model that session ends in. *)
Definition confirming : Model :=
  default InitialModel (run noTable InitialModel toDeleteConfirm).

(** A session up to the filled create form: "n", tab to the name field,
    "Auth Refresh" typed. *)
Definition toFilledForm : list (Env * Msg) :=
  [(someEnv, gitCheckMsg true); (someEnv, worktreesLoadedMsg loadedThree);
   (someEnv, tea_KeyMsg (runeKey "n")); (someEnv, tea_KeyMsg (key KeyTab));
   (someEnv, tea_KeyMsg (runeKey "Auth")); (someEnv, tea_KeyMsg (key KeySpace));
   (someEnv, tea_KeyMsg (runeKey "Refresh"))].

Definition filledForm : Model :=
  default InitialModel (run noTable InitialModel toFilledForm).

(** The list with three worktrees loaded, gh at hand, the cursor on the
    primary worktree. *)
Definition onMain : Model :=
  set_ghAvailable true
    (set_cursor 1 (set_worktrees threeWorktrees (set_state StateList InitialModel))).

(** The same with the PR of "feat/b" in the cache, and a walk down the list
    and back. *)
Definition onMainCached : Model := set_prCache (Some oneOpenPR) onMain.

Definition downAndBack : list (Env * Msg) :=
  [(someEnv, tea_KeyMsg (key KeyDown)); (someEnv, tea_KeyMsg (key KeyDown));
   (someEnv, tea_KeyMsg (key KeyUp)); (someEnv, tea_KeyMsg (key KeyDown))].

End Reach.
Import Reach.

(** ** The modals and the footer ([view.go]) *)

Module Screens.

Definition clrRed : string := "1".
Definition clrGreen : string := "2".
Definition clrYellow : string := "3".

Definition plainStyle : Style := mkStyle false None.
Definition selectedAccentStyle : Style := fg clrAccent.
Definition selectedItemStyle : Style := boldStyle.
Definition modalTitleStyle : Style := boldStyle.
Definition modalLabelStyle : Style := fg clrDim.
Definition modalInputStyle : Style := plainStyle.
Definition dangerStyle : Style := boldFg clrRed.
Definition accentStyle : Style := boldFg clrAccent.

Definition leftBar : rune := 0x258C.       (* the selection bar *)
Definition upDown : gostring := [0x2191; 0x2193].

(** The hint rows of [renderFooter] in the list. *)
Definition homeHints : list gostring :=
  [lit "n  new"; upDown ++ lit "  navigate"; lit "q  quit"].

Definition rowHints : list gostring :=
  [lit "n  new"; lit "d  delete"; lit "e  edit"; lit "c  cd"; lit "enter  focus";
   upDown ++ lit "  navigate"; lit "q  quit"].

Section Modals.
(** lipgloss: [Style.Render] for the text styles, [JoinVertical] with
    [lipgloss.Left], and [modalStyle.Render], the bordered and padded box. *)
Variable Render : Style → gostring → gostring.
Variable JoinVertical : list gostring → gostring.
Variable modalStyle_Render : gostring → gostring.

Local Abbreviation renderHints := (renderHints Render).

(** [renderTypeListModal]. *)
Definition renderTypeListModal (m : Model) : gostring :=
  let rows :=
    imap (λ i t, if Z.of_nat i =? newTypeIdx m
                 then Render selectedAccentStyle [leftBar] ++ lit " "
                      ++ Render selectedItemStyle t
                 else lit "  " ++ Render dimStyle t) branchTypes in
  modalStyle_Render
    (JoinVertical
       [Render modalTitleStyle (lit "Select Type"); [];
        Join rows [newline]; [];
        renderHints [upDown ++ lit "  navigate"; lit "enter  select"; lit "esc  close"]]).

(** [renderNoCommitsModal]. *)
Definition renderNoCommitsModal (m : Model) : gostring :=
  modalStyle_Render
    (JoinVertical
       [Render modalTitleStyle (lit "New Worktree"); [];
        Render dangerStyle ([0x2717] ++ lit "  Cannot create worktree"); [];
        Render dimStyle (lit "No commits on main yet.");
        Render dimStyle (lit "Make an initial commit first."); [];
        renderHints [lit "esc  close"]]).

(** [fieldInput]. *)
Definition fieldInput (m : Model) (value : gostring) (active : bool) : gostring :=
  if active then Render modalInputStyle value ++ Render accentStyle [0x2588]
  else Render dimStyle (value ++ lit " ").

(** [renderNewFormModal]; [branchTypes[m.newTypeIdx]] can be out of range. *)
Definition renderNewFormModal (m : Model) : option gostring :=
  if negb (hasCommits m) then Some (renderNoCommitsModal m)
  else
    let fieldLabel (label : gostring) (idx : Z) :=
      if newActiveField m =? idx then Render accentStyle label
      else Render modalLabelStyle label in
    typeVal ← index branchTypes (newTypeIdx m);
    let typeDisplay :=
      if newActiveField m =? 0
      then Render selectedItemStyle typeVal ++ lit "  "
           ++ Render dimStyle ([0x21B5] ++ lit " change")
      else Render dimStyle typeVal in
    let hints :=
      if newActiveField m =? 0
      then renderHints [lit "enter  change type"; lit "tab/" ++ upDown ++ lit "  navigate";
                        lit "esc  cancel"]
      else renderHints [lit "enter  create"; lit "tab/" ++ upDown ++ lit "  navigate";
                        lit "esc  cancel"] in
    Some (modalStyle_Render
            (JoinVertical
               [Render modalTitleStyle (lit "New Worktree"); [];
                fieldLabel (lit "Type") 0; typeDisplay; [];
                fieldLabel (lit "Name") 1;
                fieldInput m (newDisplayName m) (newActiveField m =? 1); [];
                fieldLabel (lit "Branch") 2;
                fieldInput m (newBranch m) (newActiveField m =? 2); [];
                fieldLabel (lit "Description") 3;
                fieldInput m (newDescription m) (newActiveField m =? 3); [];
                hints])).

(** [renderNewModal]. *)
Definition renderNewModal (m : Model) : option gostring :=
  if newTypeListOpen m then Some (renderTypeListModal m)
  else renderNewFormModal m.

(** [renderEditModal]. *)
Definition renderEditModal (m : Model) : gostring :=
  modalStyle_Render
    (JoinVertical
       [Render modalTitleStyle (lit "Edit Worktree"); [];
        Render modalLabelStyle (lit "Branch name");
        fieldInput m (editName m) true; [];
        renderHints [lit "enter  save"; lit "esc  cancel"]]).

(** [renderDeleteModal]: the test before [m.worktrees[m.cursor-1]] keeps the
    index in range. *)
Definition renderDeleteModal (m : Model) : gostring :=
  let name :=
    if (cursor m >? 0) && (cursor m - 1 <? slen (worktrees m))
    then from_option Worktree.Name [] (index (worktrees m) (cursor m - 1))
    else [] in
  modalStyle_Render
    (JoinVertical
       [Render dangerStyle (lit "Delete " ++ name ++ lit "?"); [];
        Render dimStyle (lit "This cannot be undone."); [];
        renderHints [lit "y  confirm"; lit "n / esc  cancel"]]).

(** [renderFooter]; in the list, past the create row, [m.worktrees[m.cursor-1]]
    is read after the upper bound alone was tested. *)
Definition renderFooter (m : Model) : option gostring :=
  if negb (streq (errMsg m) [])
  then Some (Render dangerStyle (lit "error: " ++ errMsg m)
             ++ Render footerStyle (lit "    (any key to dismiss)"))
  else
    match state m with
    | StateList =>
        if cursor m =? 0 then Some (renderHints homeHints)
        else
          onPrimary ←
            (if cursor m - 1 <? slen (worktrees m)
             then Worktree.IsMain <$> index (worktrees m) (cursor m - 1)
             else Some false);
          if onPrimary : bool then Some (renderHints homeHints)
          else Some (renderHints rowHints)
    | StateRightPaneFocused =>
        Some (renderHints [upDown ++ lit "  navigate commits"; lit "enter  view";
                           lit "esc  back"; lit "q  quit"])
    | _ => Some (renderHints [lit "q  quit"])
    end.
End Modals.

(** A [JoinVertical] and a modal box for plain text. *)
Definition plainStack (parts : list gostring) : gostring := Join parts [newline].
Definition plainModal (s : gostring) : gostring := s.

End Screens.
Import Screens.

(** ** The git package ([internal/git/git.go])

    The functions of package [git] read the repository through the [git]
    binary. What the binary prints is not the program's: a [Host] gives,
    for a working directory and an argument list, the output, the error of
    [cmd.Output] and what was written to stderr, and the metadata file as
    [readMeta] decodes it. One call of a function below sees one [Host]. *)

Module Git.

Definition tab : rune := 0x09.
Definition bar : rune := 0x7C.
Definition colon : rune := 0x3A.
Definition at_sign : rune := 0x40.

(** [strings.HasPrefix]. *)
Fixpoint HasPrefix (s prefix : gostring) {struct prefix} : bool :=
  match prefix, s with
  | [], _ => true
  | p :: prefix', r :: s' => (r =? p) && HasPrefix s' prefix'
  | _ :: _, [] => false
  end.

(** [strings.TrimPrefix]. *)
Definition TrimPrefix (s prefix : gostring) : gostring :=
  if HasPrefix s prefix then drop (length prefix) s else s.

(** [strings.HasSuffix] and [strings.TrimSuffix]. *)
Definition HasSuffix (s suffix : gostring) : bool :=
  HasPrefix (reverse s) (reverse suffix).

Definition TrimSuffix (s suffix : gostring) : gostring :=
  if HasSuffix s suffix then take (length s - length suffix) s else s.

(** [strings.TrimSpace]. *)
Fixpoint TrimLeftSpace (s : gostring) : gostring :=
  match s with
  | [] => []
  | r :: s' => if IsSpace r then TrimLeftSpace s' else s
  end.

Fixpoint TrimRightSpace (s : gostring) : gostring :=
  match s with
  | [] => []
  | r :: s' =>
      match TrimRightSpace s' with
      | [] => if IsSpace r then [] else [r]
      | t => r :: t
      end
  end.

Definition TrimSpace (s : gostring) : gostring := TrimRightSpace (TrimLeftSpace s).

(** [strings.Split(s, sep)] for a separator of one rune or more: the pieces
    between the occurrences of [sep], found from the left and not
    overlapping. [skip] counts the runes of a separator still to pass,
    [cur] is the piece being read. *)
Fixpoint SplitOn (sep : gostring) (skip : nat) (cur s : gostring) : list gostring :=
  match s with
  | [] => [cur]
  | r :: s' =>
      match skip with
      | S k => SplitOn sep k cur s'
      | O =>
          if HasPrefix s sep then cur :: SplitOn sep (length sep - 1) [] s'
          else SplitOn sep 0 (cur ++ [r]) s'
      end
  end.

Definition SplitStr (s sep : gostring) : list gostring := SplitOn sep 0 [] s.

(** [strings.SplitN(s, sep, n)] for a one-rune separator and [n >= 0]. *)
Fixpoint cutAt (s : gostring) (sep : rune) : option (gostring * gostring) :=
  match s with
  | [] => None
  | r :: s' =>
      if r =? sep then Some ([], s')
      else '(a, b) ← cutAt s' sep; Some (r :: a, b)
  end.

Fixpoint SplitN (s : gostring) (sep : rune) (n : nat) : list gostring :=
  match n with
  | O => []
  | S O => [s]
  | S n' =>
      match cutAt s sep with
      | Some (a, b) => a :: SplitN b sep n'
      | None => [s]
      end
  end.

(** [strings.Replace(s, old, new, 1)] for one-rune [old] and [new]. *)
Fixpoint ReplaceFirst (s : gostring) (old new : rune) : gostring :=
  match s with
  | [] => []
  | r :: s' => if r =? old then new :: s' else r :: ReplaceFirst s' old new
  end.

(** [string(s[0])] for a non-empty string whose first code point is [r]:
    the first byte of the UTF-8 encoding of [r], read as a code point. *)
Definition firstByte (r : rune) : rune :=
  if r <? 0x80 then r
  else if r <? 0x800 then Z.lor 0xC0 (Z.shiftr r 6)
  else if r <? 0x10000 then Z.lor 0xE0 (Z.shiftr r 12)
  else Z.lor 0xF0 (Z.shiftr r 18).

(** What one run of the binary gives: [cmd.Output]'s bytes and error, and
    the bytes written to stderr. *)
Record Exec := mkExec {
  out : gostring;
  err : option gostring;
  errOut : gostring
}.

(** The metadata kept for a branch. *)
Record WorktreeMeta := mkMeta {
  meta_Name : gostring;
  meta_Description : gostring;
  meta_CreatedFrom : gostring
}.

Record Host := mkHost {
  git : option gostring → list gostring → Exec;
  (** [readMeta(root)]: the entries decoded from the metadata file under
      [root], none when the file is missing or does not decode. *)
  readMeta : gostring → gmap (list Z) WorktreeMeta
}.

(** [runInDir] and [run]: the trimmed output, and the error, which carries
    the trimmed stderr when there is some. *)
Definition runAt (h : Host) (dir : option gostring) (args : list gostring)
  : gostring * option gostring :=
  let r := git h dir args in
  match err r with
  | Some e =>
      if len (errOut r) >? 0 then (TrimSpace (out r), Some (TrimSpace (errOut r)))
      else (TrimSpace (out r), Some e)
  | None => (TrimSpace (out r), None)
  end.

Definition run (h : Host) (args : list gostring) : gostring * option gostring :=
  runAt h None args.

Definition runInDir (h : Host) (dir : gostring) (args : list gostring)
  : gostring * option gostring :=
  runAt h (Some dir) args.

(** [GetRepoRoot]. *)
Definition GetRepoRoot (h : Host) : gostring * option gostring :=
  run h (map lit ["rev-parse"; "--show-toplevel"]%string).

(** [getDefaultBranch]. *)
Definition getDefaultBranch (h : Host) : gostring :=
  let '(out, err) :=
    run h (map lit ["symbolic-ref"; "--short"; "refs/remotes/origin/HEAD"]%string) in
  let fromOrigin :=
    if err is None
    then (if SplitN out slash 2 is [_; b] then Some b else None)
    else None in
  match fromOrigin with
  | Some b => b
  | None =>
      if (run h (map lit ["rev-parse"; "--verify"; "main"]%string)).2 is None
      then lit "main" else lit "master"
  end.

(** [GetHeadSHA]. *)
Definition GetHeadSHA (h : Host) (worktreePath : gostring)
  : gostring * option gostring :=
  runInDir h worktreePath (map lit ["rev-parse"; "--short"; "HEAD"]%string).

(** One turn of the loop of [GetWorktreeStatus]. *)
Definition countStatus (st : Z * Z) (line : gostring) : Z * Z :=
  let '(changed, untracked) := st in
  if len line <? 2 then (changed, untracked)
  else if HasPrefix line (lit "??") then (changed, untracked + 1)
  else (changed + 1, untracked).

(** [GetWorktreeStatus]. *)
Definition GetWorktreeStatus (h : Host) (worktreePath : gostring)
  : Z * Z * option gostring :=
  let '(out, err) :=
    runInDir h worktreePath (map lit ["status"; "--porcelain"]%string) in
  match err with
  | Some e => (0, 0, Some e)
  | None => (fold_left countStatus (Split out newline) (0, 0), None)
  end.

(** One line of [git log] as [GetCommits] reads it. *)
Definition parseCommit (line : gostring) : option Commit.t :=
  if SplitN line bar 3 is [a; b; c] then Some (Commit.mk a b c) else None.

(** [GetCommits]. *)
Definition GetCommits (h : Host) (worktreePath : gostring)
  : list Commit.t * option gostring :=
  let '(out, err) :=
    runInDir h worktreePath (map lit ["log"; "-10"; "--format=%h|%s|%cr"]%string) in
  if bool_decide (is_Some err) || streq out [] then ([], err)
  else (omap parseCommit (Split out newline), None).

(** [shortenURL]. *)
Definition shortenURL (url : gostring) : gostring :=
  let url :=
    fold_left TrimPrefix
      (map lit ["https://"; "http://"; "git@"; "ssh://"]%string) url in
  let url := ReplaceFirst url colon slash in
  TrimSuffix url (lit ".git").

(** The file list of [GetCommitDetail]: one line of [--name-status]. *)
Definition parseFile (line : gostring) : option CommitFile.t :=
  let line := TrimSpace line in
  if streq line [] then None
  else
    let parts := Split line tab in
    if slen parts <? 2 then None
    else
      let status := default [] (head parts) in
      let status :=
        if len status >? 1
        then (if status is r :: _ then [firstByte r] else [])
        else status in
      Some (CommitFile.mk status (default [] (last parts))).

(** The type [GetCommitDetail] gives a line of the patch. *)
Definition diffType (line : gostring) : gostring :=
  if HasPrefix line (lit "diff --git") then lit "diff"
  else if HasPrefix line (lit "index ") || HasPrefix line (lit "new file")
          || HasPrefix line (lit "deleted file") || HasPrefix line (lit "--- ")
          || HasPrefix line (lit "+++ ")
  then lit "meta"
  else if HasPrefix line (lit "@@") then lit "@@"
  else if HasPrefix line (lit "+") then lit "+"
  else if HasPrefix line (lit "-") then lit "-"
  else lit " ".

(** [git show] as [GetCommitDetail] calls it: the error is dropped. *)
Definition show (h : Host) (worktreePath sha : gostring) (flags : list string)
  : gostring :=
  (runInDir h worktreePath ([lit "show"; sha] ++ map lit flags)).1.

(** [GetCommitDetail]; it never fails. *)
Definition GetCommitDetail (h : Host) (worktreePath sha : gostring) : CommitDetail.t :=
  let field flags := show h worktreePath sha flags in
  let shortHash := field ["--no-patch"; "--pretty=format:%h"]%string in
  let subject := field ["--no-patch"; "--pretty=format:%s"]%string in
  let body := field ["--no-patch"; "--pretty=format:%b"]%string in
  let relTime := field ["--no-patch"; "--pretty=format:%cr"]%string in
  let filesOut := field ["--name-status"; "--no-patch"; "--pretty=format:"]%string in
  let diffOut := field ["--patch"; "--no-color"; "--pretty=format:"]%string in
  CommitDetail.mk shortHash subject (TrimRight body [0x0D; newline]) relTime
    (omap parseFile (Split filesOut newline))
    (map (λ line, DiffLine.mk (diffType line) line) (Split diffOut newline))
    true.

Section Library.
(** [strconv.Atoi], whose error the callers drop, and [filepath.Base]. *)
Variable strconv_Atoi : gostring → Z.
Variable filepath_Base : gostring → gostring.

(** [GetBranchStatus]; its error is always nil. *)
Definition GetBranchStatus (h : Host) (branch : gostring) : Z * Z * bool :=
  let def := getDefaultBranch h in
  if streq branch def then (0, 0, false)
  else
    let ahead :=
      let '(out, e) :=
        run h [lit "rev-list"; lit "--count"; def ++ lit ".." ++ branch] in
      if e is None then strconv_Atoi out else 0 in
    let behind :=
      let '(out, e) :=
        run h [lit "rev-list"; lit "--count"; branch ++ lit ".." ++ def] in
      if e is None then strconv_Atoi out else 0 in
    let merged :=
      let '(out, e) := run h [lit "branch"; lit "--merged"; def] in
      if e is None
      then existsb (λ line, streq (TrimSpace (TrimPrefix line (lit "* "))) branch)
             (Split out newline)
      else false in
    (ahead, behind, merged).

(** The lines of one block of [git worktree list --porcelain]: the path,
    the branch and the name read so far. *)
Definition readLine (st : gostring * gostring * gostring) (line : gostring)
  : gostring * gostring * gostring :=
  let '(path, branch, name) := st in
  if HasPrefix line (lit "worktree ") then (TrimPrefix line (lit "worktree "), branch, name)
  else if HasPrefix line (lit "branch ")
  then (path, TrimPrefix line (lit "branch refs/heads/"),
        TrimPrefix line (lit "branch refs/heads/"))
  else if streq line (lit "detached") then (path, lit "(detached)", lit "(detached)")
  else if streq line (lit "bare") then (path, lit "(bare)", lit "(bare)")
  else st.

(** The body of the loop of [ListWorktrees] for the block of index [i]. *)
Definition readBlock (h : Host) (meta : gmap (list Z) WorktreeMeta)
  (i : nat) (block : gostring) : option Worktree.t :=
  let block := TrimSpace block in
  if streq block [] then None
  else
    let isMain := bool_decide (i = 0%nat) in
    let '(path, branch, name) := fold_left readLine (Split block newline) ([], [], []) in
    let name := if streq name [] then filepath_Base path else name in
    let '(name, description, createdFrom) :=
      match meta !! branch with
      | Some e =>
          (if negb (streq (meta_Name e) []) then meta_Name e else name,
           meta_Description e, meta_CreatedFrom e)
      | None => (name, [], [])
      end in
    let '(ahead, behind, merged) :=
      if negb isMain then GetBranchStatus h branch else (0, 0, false) in
    let headSHA := (GetHeadSHA h path).1 in
    let '(changed, untracked, _) := GetWorktreeStatus h path in
    let updatedAt :=
      let '(updated, e) :=
        runInDir h path (map lit ["log"; "-1"; "--format=%cr"]%string) in
      if bool_decide (e = None) && negb (streq updated []) then updated
      else lit "never" in
    Some (Worktree.mk name path branch isMain updatedAt description createdFrom
            ahead behind merged (GetCommits h path).1 headSHA changed untracked).

(** [ListWorktrees]. *)
Definition ListWorktrees (h : Host) : list Worktree.t * option gostring :=
  let '(out, err) := run h (map lit ["worktree"; "list"; "--porcelain"]%string) in
  match err with
  | Some e => ([], Some (lit "git worktree list: " ++ e))
  | None =>
      let meta := readMeta h (GetRepoRoot h).1 in
      (omap id (imap (readBlock h meta) (SplitStr (TrimSpace out) [newline; newline])),
       None)
  end.
End Library.

(** The arguments of the two listings. *)
Definition logArgs : list gostring :=
  map lit ["log"; "-10"; "--format=%h|%s|%cr"]%string.

Definition listArgs : list gostring :=
  map lit ["worktree"; "list"; "--porcelain"]%string.

(** A commit written back as the line of [git log] it was read from, and
    the lines that hold the two bars of the format. *)
Definition commitLine (c : Commit.t) : gostring :=
  Commit.Hash c ++ [bar] ++ Commit.Message c ++ [bar] ++ Commit.RelTime c.

Definition countRune (r : rune) (s : gostring) : Z :=
  slen (List.filter (Z.eqb r) s).

Definition hasTwoBars (line : gostring) : bool := 2 <=? countRune bar line.

(** The line types the overlay knows how to colour. *)
Definition diffTypes : list gostring :=
  map lit ["diff"; "meta"; "@@"; "+"; "-"; " "]%string.

(** A repository for the examples: three worktrees, two commits in each. *)
Definition porcelain : gostring :=
  lit "worktree /repo" ++ [newline] ++ lit "HEAD 1a2b3c4" ++ [newline]
  ++ lit "branch refs/heads/main" ++ [newline; newline]
  ++ lit "worktree /repo/.wt/feat-a" ++ [newline] ++ lit "HEAD 5d6e7f8" ++ [newline]
  ++ lit "branch refs/heads/feat/a" ++ [newline; newline]
  ++ lit "worktree /repo/.wt/tmp" ++ [newline] ++ lit "HEAD 5d6e7f8" ++ [newline]
  ++ lit "detached" ++ [newline].

Definition twoCommits : gostring :=
  lit "5d6e7f8|Fix a|b parser|2 hours ago" ++ [newline]
  ++ lit "not a commit line" ++ [newline]
  ++ lit "1a2b3c4|Initial commit|3 days ago".

Definition someFiles : gostring :=
  lit "M" ++ [tab] ++ lit "src/a.go" ++ [newline]
  ++ lit "R090" ++ [tab] ++ lit "old.go" ++ [tab] ++ lit "new.go" ++ [newline].

Definition somePatch : gostring :=
  lit "diff --git a/q.sql b/q.sql" ++ [newline] ++ lit "--- a/q.sql" ++ [newline]
  ++ lit "+++ b/q.sql" ++ [newline] ++ lit "@@ -1 +1 @@" ++ [newline]
  ++ lit "--- old comment" ++ [newline] ++ lit "+select 1".

Definition someRepo : Host :=
  mkHost
    (λ dir args,
       if bool_decide (args = map lit ["worktree"; "list"; "--porcelain"]%string)
       then mkExec porcelain None []
       else if bool_decide (args = map lit ["log"; "-10"; "--format=%h|%s|%cr"]%string)
       then mkExec twoCommits None []
       else if bool_decide (args = map lit ["status"; "--porcelain"]%string)
       then mkExec (lit " M a.go" ++ [newline] ++ lit "?? b.go" ++ [newline]) None []
       else if bool_decide (head args = Some (lit "show"))
       then (if bool_decide (last args = Some (lit "--pretty=format:"))
             then (if bool_decide (args !! 2%nat = Some (lit "--patch"))
                   then mkExec somePatch None []
                   else mkExec someFiles None [])
             else mkExec (lit "text" ++ [newline]) None [])
       else mkExec [] (Some (lit "exit status 1")) (lit "fatal: no" ++ [newline]))
    (λ root, ∅).

(** [strconv.Atoi] and [filepath.Base] for the examples, which read no
    number and use no base name. *)
Definition noAtoi (s : gostring) : Z := 0.
Definition noBase (s : gostring) : gostring := s.

End Git.

(** * Properties *)

(** ** Text layout *)

Module LayoutFacts.

Lemma runeCount_app (a b : gostring) : runeCount (a ++ b) = runeCount a + runeCount b.
Proof. unfold runeCount. rewrite length_app. lia. Qed.

Lemma runeCount_take (n : nat) (s : gostring) :
  (n <= length s)%nat → runeCount (take n s) = Z.of_nat n.
Proof. intros H. unfold runeCount. rewrite length_take. lia. Qed.

Lemma RuneLen_pos (r : rune) : 1 <= RuneLen r.
Proof. unfold RuneLen. repeat case_match; lia. Qed.

Lemma len_app (a b : gostring) : len (a ++ b) = len a + len b.
Proof. induction a as [|r a IH]; simpl; [lia|]. rewrite IH. lia. Qed.

Lemma len_nonneg (s : gostring) : 0 <= len s.
Proof. induction s as [|r s IH]; simpl; [lia|]. pose proof (RuneLen_pos r). lia. Qed.

Lemma runeCount_le_len (s : gostring) : runeCount s <= len s.
Proof.
  unfold runeCount. induction s as [|r s IH]; simpl length; simpl len; [lia|].
  pose proof (RuneLen_pos r). lia.
Qed.

Lemma cellWidth_le_RuneLen (r : rune) : 0 <= r → cellWidth r <= RuneLen r.
Proof.
  intros Hr. unfold cellWidth, RuneLen.
  repeat case_match; try lia.
Qed.

Lemma truncate_nonpos (s : gostring) (w : Z) : w <= 0 → truncate s w = [].
Proof. intros H. unfold truncate. case_match; [done | lia]. Qed.

Lemma truncate_fits (s : gostring) (w : Z) : runeCount s <= w → truncate s w = s.
Proof.
  intros H. unfold truncate. case_match eqn:Hw.
  - apply Z.leb_le in Hw. unfold runeCount in H. destruct s; [done | simpl in H; lia].
  - case_match; [done | lia].
Qed.

Lemma truncate_one (s : gostring) : truncate s 1 = take 1 s.
Proof.
  unfold truncate. simpl. case_match eqn:H; [|done].
  apply Z.leb_le in H. unfold runeCount in H.
  destruct s as [|a [|b s]]; simpl in *; try done. lia.
Qed.

Lemma truncate_cut (s : gostring) (w : Z) :
  2 <= w < runeCount s →
  truncate s w = take (Z.to_nat (w - 1)) s ++ [ellipsis].
Proof.
  intros [H1 H2]. unfold truncate. repeat case_match; try lia. done.
Qed.

Lemma truncate_runeCount (s : gostring) (w : Z) :
  0 <= w → runeCount (truncate s w) <= w.
Proof.
  intros Hw. destruct (Z.le_gt_cases (runeCount s) w) as [Hfit|Hcut].
  { by rewrite truncate_fits. }
  destruct (Z.eq_dec w 0) as [->|H0]; [by rewrite truncate_nonpos|].
  destruct (Z.eq_dec w 1) as [->|H1].
  { rewrite truncate_one. unfold runeCount in *. rewrite length_take. lia. }
  rewrite truncate_cut by lia. rewrite runeCount_app.
  unfold runeCount in *. rewrite length_take. simpl. lia.
Qed.

Lemma cellsWidth_single (s : gostring) :
  Forall (λ r, cellWidth r = 1) s → cellsWidth s = runeCount s.
Proof.
  unfold runeCount. induction 1 as [|r s Hr _ IH]; [done|].
  simpl length. simpl cellsWidth. rewrite IH, Hr. lia.
Qed.

Lemma Forall_truncate (P : rune → Prop) (s : gostring) (w : Z) :
  P ellipsis → Forall P s → Forall P (truncate s w).
Proof.
  intros He Hs. unfold truncate. repeat case_match; auto.
  - by apply Forall_take.
  - apply Forall_app. split; [by apply Forall_take | by constructor].
Qed.

End LayoutFacts.

Module TruncateSpec.
Import LayoutFacts.

(** C7 (as amended): [truncate] measures in characters (runes). For every
    string [s] and every [w >= 0] the result has at most [w] characters, and
    so takes at most [w] terminal cells when every character of [s] takes
    one; if [w] is at least the number of characters of [s] the result is
    [s] itself; if [s] has more than [w >= 2] characters the result is the
    prefix of [w - 1] characters followed by one ellipsis, [w] characters in
    all; for [w = 1] it is the bare one-character prefix; for [w <= 0] it is
    empty. *)
Theorem truncate_measures_runes (s : gostring) (w : Z) :
  (0 <= w → runeCount (truncate s w) <= w) ∧
  (0 <= w → Forall (λ r, cellWidth r = 1) s → cellsWidth (truncate s w) <= w) ∧
  (runeCount s <= w → truncate s w = s) ∧
  (2 <= w < runeCount s →
     truncate s w = take (Z.to_nat (w - 1)) s ++ [ellipsis] ∧
     take (Z.to_nat (w - 1)) s `prefix_of` s ∧
     runeCount (truncate s w) = w) ∧
  (w = 1 → truncate s w = take 1 s) ∧
  (w <= 0 → truncate s w = []).
Proof.
  split_and!.
  - apply truncate_runeCount.
  - intros Hw Hs. rewrite cellsWidth_single.
    + by apply truncate_runeCount.
    + apply Forall_truncate; [reflexivity | done].
  - apply truncate_fits.
  - intros H. rewrite truncate_cut by done. split_and!; [done | apply prefix_take |].
    rewrite runeCount_app, runeCount_take; [simpl; unfold runeCount; simpl; lia|].
    unfold runeCount in H. lia.
  - intros ->. apply truncate_one.
  - apply truncate_nonpos.
Qed.

(** The theorem at work on "worktree" cut to 5: "work" and the ellipsis. *)
Lemma truncate_measures_runes_witness :
  runeCount (truncate (lit "worktree") 5) <= 5 ∧
  cellsWidth (truncate (lit "worktree") 5) <= 5 ∧
  truncate (lit "worktree") 5 = lit "work" ++ [ellipsis] ∧
  truncate (lit "worktree") 8 = lit "worktree".
Proof.
  destruct (truncate_measures_runes (lit "worktree") 5) as (H1 & H2 & _ & H4 & _).
  destruct (truncate_measures_runes (lit "worktree") 8) as (_ & _ & H3 & _).
  split_and!.
  - apply H1. lia.
  - apply H2; [lia | repeat constructor].
  - apply H4. vm_compute. split; [discriminate | reflexivity].
  - apply H3. vm_compute. discriminate.
Defined.

(** C7 as stated fails on wide characters: three CJK ideographs pass
    [truncate] at width 3 untouched and take six cells. *)
Lemma truncate_display_width_counterexample :
  ¬ (∀ (s : gostring) (w : Z), 0 <= w → cellsWidth (truncate s w) <= w).
Proof.
  intros H. specialize (H [0x65E5; 0x672C; 0x8A9E] 3 ltac:(lia)).
  vm_compute in H. by apply H.
Qed.

End TruncateSpec.

Module WrapSpec.
Import LayoutFacts.

Lemma isWord_intro (l : gostring) :
  l ≠ [] → Forall (λ r, IsSpace r = false) l → isWord l = true.
Proof.
  intros Hne Hl. unfold isWord, streq. rewrite bool_decide_eq_false_2 by done.
  simpl. apply forallb_forall. intros r Hr.
  rewrite Forall_forall in Hl. rewrite (Hl r); [done|]. by apply list_elem_of_In.
Qed.

Lemma FieldsFrom_words (s cur w : gostring) :
  Forall (λ r, IsSpace r = false) cur →
  w ∈ FieldsFrom cur s → isWord w = true.
Proof.
  revert cur. induction s as [|r s IH]; intros cur Hcur Hw; simpl in Hw.
  - destruct cur as [|c cur]; [by apply elem_of_nil in Hw|].
    apply list_elem_of_singleton in Hw as ->. by apply isWord_intro.
  - destruct (IsSpace r) eqn:Hr.
    + destruct cur as [|c cur]; [by apply (IH [])|].
      apply elem_of_cons in Hw as [->|Hw]; [by apply isWord_intro|].
      by apply (IH []).
    + apply (IH (cur ++ [r])); [|done].
      apply Forall_app. split; [done | by constructor].
Qed.

Lemma Fields_words (p w : gostring) : w ∈ Fields p → isWord w = true.
Proof. apply FieldsFrom_words. constructor. Qed.

Section Packing.
Variable width : Z.
Variable known : gostring → Prop.
Local Abbreviation fitting := (fitting width known).
Local Abbreviation packed := (packed width known).

Lemma fitting_word (w : gostring) : isWord w = true → known w → fitting w.
Proof.
  intros Hw Hk. unfold fitting.
  destruct (Z.le_gt_cases (len w) width); [by left | right; split_and!; [done..|lia]].
Qed.

Lemma packWord_packed (st : list gostring * gostring) (w : gostring) :
  packed st → isWord w = true → known w → packed (packWord width st w).
Proof.
  destruct st as [lines line]. intros [Hlines Hline] Hw Hk. unfold packWord.
  destruct line as [|c line].
  - split; [done | right; by apply fitting_word].
  - destruct Hline as [?|Hline]; [done|].
    case_match eqn:Hfit.
    + apply Z.leb_le in Hfit. split; [done|]. right. left.
      simpl in *. rewrite len_app. simpl. unfold space, RuneLen at 2. simpl. lia.
    + split; simpl.
      * apply Forall_app. split; [done | by constructor].
      * right. by apply fitting_word.
Qed.

Lemma fold_packWord_packed (ws : list gostring) (st : list gostring * gostring) :
  packed st → Forall (λ w, isWord w = true ∧ known w) ws →
  packed (fold_left (packWord width) ws st).
Proof.
  revert st. induction ws as [|w ws IH]; intros st Hst Hws; simpl; [done|].
  inversion Hws as [|? ? [Hw Hk] Hrest]; subst.
  apply IH; [|done]. by apply packWord_packed.
Qed.

Lemma wrapParagraph_fitting (lines : list gostring) (p : gostring) :
  Forall fitting lines → Forall known (Fields p) →
  Forall fitting (wrapParagraph width lines p).
Proof.
  intros Hlines Hp. unfold wrapParagraph.
  pose proof (fold_packWord_packed (Fields p) (lines, [])) as H.
  destruct (fold_left (packWord width) (Fields p) (lines, [])) as [lines' line].
  destruct H as [H1 H2].
  - split; [done | by left].
  - apply Forall_forall. intros w Hw. split; [by apply (Fields_words p)|].
    rewrite Forall_forall in Hp. by apply Hp.
  - simpl in *. destruct line as [|c line]; [done|].
    apply Forall_app. split; [done|]. constructor; [|done].
    by destruct H2.
Qed.

Lemma fold_wrapParagraph_fitting (ps : list gostring) (lines : list gostring) :
  Forall fitting lines → Forall (λ p, Forall known (Fields p)) ps →
  Forall fitting (fold_left (wrapParagraph width) ps lines).
Proof.
  revert lines. induction ps as [|p ps IH]; intros lines Hl Hps; simpl; [done|].
  inversion Hps; subst. apply IH; [|done]. by apply wrapParagraph_fitting.
Qed.
End Packing.

Lemma wrapWords_fitting (s : gostring) (w : Z) :
  0 < w → Forall (fitting w (λ l, l ∈ wordsOf s)) (wrapWords s w).
Proof.
  intros Hw. unfold wrapWords. case_match; [lia|].
  apply fold_wrapParagraph_fitting; [done|].
  apply Forall_forall. intros p Hp. apply Forall_forall. intros x Hx.
  unfold wordsOf. apply list_elem_of_In, in_concat. exists (Fields p).
  split; [apply in_map|]; by apply list_elem_of_In.
Qed.




End WrapSpec.

(** ** Slugs *)

Module SlugSpec.
Import LayoutFacts.

(** Boolean comparisons on runes, turned into linear arithmetic. *)
Ltac rune_arith :=
  repeat match goal with
         | H : _ && _ = true |- _ => apply andb_true_iff in H as [? ?]
         | H : _ || _ = false |- _ => apply orb_false_iff in H as [? ?]
         | H : negb _ = true |- _ => apply negb_true_iff in H
         | H : negb _ = false |- _ => apply negb_false_iff in H
         end;
  repeat match goal with
         | H : _ || _ = true |- _ => apply orb_true_iff in H as [H|H]
         | H : _ && _ = false |- _ => apply andb_false_iff in H as [H|H]
         | H : _ && _ = true |- _ => apply andb_true_iff in H as [? ?]
         | H : _ || _ = false |- _ => apply orb_false_iff in H as [? ?]
         end;
  repeat match goal with
         | H : (_ <=? _) = true |- _ => apply Z.leb_le in H
         | H : (_ <=? _) = false |- _ => apply Z.leb_gt in H
         | H : (_ <? _) = true |- _ => apply Z.ltb_lt in H
         | H : (_ <? _) = false |- _ => apply Z.ltb_ge in H
         | H : (_ =? _) = true |- _ => apply Z.eqb_eq in H
         | H : (_ =? _) = false |- _ => apply Z.eqb_neq in H
         end;
  unfold hyphen, slash in *; try lia.

Lemma TrimRight_prefix (s c : gostring) : TrimRight s c `prefix_of` s.
Proof.
  induction s as [|r s IH]; simpl; [done|].
  destruct (TrimRight s c) as [|t ts] eqn:Ht.
  - case_match; [apply prefix_nil | apply prefix_cons, prefix_nil].
  - by apply prefix_cons.
Qed.

Lemma TrimRight_last (s c : gostring) (r : rune) :
  last (TrimRight s c) = Some r → inCutset c r = false.
Proof.
  induction s as [|a s IH]; simpl; [done|].
  destruct (TrimRight s c) as [|t ts] eqn:Ht.
  - destruct (inCutset c a) eqn:Ha; simpl; [done|]. by intros [= <-].
  - intros H. apply IH. by rewrite last_cons_cons in H.
Qed.

Lemma TrimRight_snoc_cut (s c : gostring) (r : rune) :
  inCutset c r = true → TrimRight (s ++ [r]) c = TrimRight s c.
Proof.
  intros Hr. induction s as [|a s IH]; simpl; [by rewrite Hr|]. by rewrite IH.
Qed.

Lemma TrimRight_snoc_keep (s c : gostring) (r : rune) :
  inCutset c r = false → TrimRight (s ++ [r]) c = s ++ [r].
Proof.
  intros Hr. induction s as [|a s IH]; simpl; [by rewrite Hr|].
  rewrite IH. by destruct s.
Qed.

Lemma TrimRight_nonempty_filter (s : gostring) :
  TrimRight s (lit "-/") ≠ [] →
  List.filter notHyphen (TrimRight s (lit "-/")) ≠ [].
Proof.
  unfold notHyphen. intros Hne. destruct (exists_last Hne) as (ts & t & Ht).
  pose proof (TrimRight_last s (lit "-/") t) as Hl.
  rewrite Ht, last_snoc in Hl. specialize (Hl eq_refl).
  rewrite Ht, List.filter_app. simpl.
  assert ((t =? hyphen) = false) as ->.
  { unfold inCutset in Hl. simpl in Hl. rune_arith. }
  simpl. by destruct (List.filter _ ts).
Qed.

Lemma inCutset_dash_slash (a : rune) :
  inCutset (lit "-/") a = (a =? hyphen) || (a =? slash).
Proof. unfold inCutset, hyphen, slash. simpl. by rewrite orb_false_r. Qed.

Lemma inCutset_slash (a : rune) : inCutset [slash] a = (a =? slash).
Proof. unfold inCutset. simpl. by rewrite orb_false_r. Qed.

Lemma TrimRight_filter (s : gostring) :
  List.filter notHyphen (TrimRight s (lit "-/"))
  = TrimRight (List.filter notHyphen s) [slash].
Proof.
  induction s as [|a s IH]; [done|].
  pose proof (TrimRight_nonempty_filter s) as Hne.
  unfold notHyphen in *. cbn [TrimRight List.filter].
  destruct (TrimRight s (lit "-/")) as [|t ts] eqn:Ht.
  - rewrite inCutset_dash_slash.
    destruct (a =? hyphen) eqn:Ha; cbn [orb negb].
    + by rewrite <- IH.
    + cbn [TrimRight]. rewrite <- IH, inCutset_slash.
      destruct (a =? slash); [done|]. cbn [List.filter]. by rewrite Ha.
  - specialize (Hne ltac:(done)). cbn [List.filter] in *.
    destruct (a =? hyphen) eqn:Ha; cbn [negb].
    + by rewrite <- IH.
    + cbn [TrimRight]. rewrite <- IH.
      by destruct (if negb (t =? hyphen) then _ else _).
Qed.

Lemma hasDoubleHyphen_snoc (b : gostring) (x : rune) :
  hasDoubleHyphen (b ++ [x])
  = hasDoubleHyphen b || (bool_decide (last b = Some hyphen) && (x =? hyphen)).
Proof.
  induction b as [|a b IH]; [done|].
  destruct b as [|c b].
  - cbn. destruct (a =? hyphen) eqn:Ha.
    + apply Z.eqb_eq in Ha as ->. rewrite bool_decide_eq_true_2 by done.
      cbn. by rewrite orb_false_r.
    + rewrite bool_decide_eq_false_2; [done|].
      intros [= ->]. by rewrite Z.eqb_refl in Ha.
  - change (hasDoubleHyphen ((a :: c :: b) ++ [x]))
      with (((a =? hyphen) && (c =? hyphen)) || hasDoubleHyphen ((c :: b) ++ [x])).
    rewrite IH. rewrite last_cons_cons.
    change (hasDoubleHyphen (a :: c :: b))
      with (((a =? hyphen) && (c =? hyphen)) || hasDoubleHyphen (c :: b)).
    by rewrite orb_assoc.
Qed.

Lemma hasDoubleHyphen_prefix (a b : gostring) :
  a `prefix_of` b → hasDoubleHyphen b = false → hasDoubleHyphen a = false.
Proof.
  intros [k ->]. induction k as [|x k IH] using rev_ind.
  - by rewrite app_nil_r.
  - rewrite app_assoc, hasDoubleHyphen_snoc. intros H.
    apply orb_false_iff in H as [H _]. by apply IH.
Qed.

Lemma len_pos (b : gostring) : b ≠ [] → 0 < len b.
Proof.
  destruct b as [|r b]; [done|]. intros _. simpl.
  pose proof (RuneLen_pos r). pose proof (len_nonneg b). lia.
Qed.

Lemma head_snoc_nonempty (b : gostring) (x : rune) : b ≠ [] → head (b ++ [x]) = head b.
Proof. by destruct b. Qed.

Section Slug.
Variable lowerTable : rune → rune.

Lemma slugStep_inv (st : gostring * bool) (r : rune) :
  builderInv st → builderInv (slugStep st r).
Proof.
  destruct st as [b p]. intros (Hall & Hhead & Hdbl & Hsep). simpl in *.
  unfold slugStep.
  destruct (((0x61 <=? r) && (r <=? 0x7A)) || ((0x30 <=? r) && (r <=? 0x39))) eqn:Han.
  { (* a letter or a digit *)
    assert (r ≠ hyphen) as Hr by (intros ->; discriminate Han).
    split_and!; simpl.
    - apply Forall_app. split; [done|]. constructor; [|done].
      unfold isSlugRune, keptRune, isLowerAlnum. by rewrite Han.
    - destruct b; simpl; [congruence | done].
    - rewrite hasDoubleHyphen_snoc, Hdbl.
      apply Z.eqb_neq in Hr. by rewrite Hr, andb_false_r.
    - rewrite last_snoc. split; [done | congruence]. }
  destruct (r =? 0x2F) eqn:Hsl.
  { (* the slash *)
    split_and!; simpl.
    - apply Forall_app. split; [done|]. by constructor.
    - destruct b; simpl; [by intros [=] | done].
    - rewrite hasDoubleHyphen_snoc, Hdbl. change (47 =? hyphen) with false.
      by rewrite andb_false_r.
    - rewrite last_snoc. split; [done | by intros [=]]. }
  destruct (IsSpace r || (r =? 0x5F) || (r =? 0x2D)); [|done].
  destruct (negb p && (len b >? 0)) eqn:Hadd; [|done].
  apply andb_true_iff in Hadd as [Hp Hb]. apply negb_true_iff in Hp.
  assert (b ≠ []) as Hne by (intros ->; discriminate Hb).
  split_and!; simpl.
  - apply Forall_app. split; [done|]. by constructor.
  - by rewrite head_snoc_nonempty.
  - rewrite hasDoubleHyphen_snoc, Hdbl. rewrite bool_decide_eq_false_2; [done|].
    intros Hl. apply Hsep in Hl. congruence.
  - by rewrite last_snoc.
Qed.

Lemma fold_slugStep_inv (l : gostring) (st : gostring * bool) :
  builderInv st → builderInv (fold_left slugStep l st).
Proof.
  revert st. induction l as [|r l IH]; intros st Hst; simpl; [done|].
  by apply IH, slugStep_inv.
Qed.

Lemma slugStep_kept (b : gostring) (p : bool) (r : rune) :
  List.filter notHyphen (slugStep (b, p) r).1
  = List.filter notHyphen b ++ (if keptRune r then [r] else []).
Proof.
  unfold slugStep, keptRune, isLowerAlnum, slash.
  destruct (((0x61 <=? r) && (r <=? 0x7A)) || ((0x30 <=? r) && (r <=? 0x39))) eqn:Han.
  { cbn [fst orb]. rewrite List.filter_app. cbn [List.filter].
    assert (notHyphen r = true) as ->; [|done].
    unfold notHyphen. apply negb_true_iff, Z.eqb_neq. intros ->. discriminate Han. }
  destruct (r =? 0x2F) eqn:Hsl.
  { apply Z.eqb_eq in Hsl as ->. cbn [fst orb]. by rewrite List.filter_app. }
  cbn [orb]. rewrite app_nil_r.
  destruct (IsSpace r || (r =? 0x5F) || (r =? 0x2D)); [|done].
  destruct (negb p && (len b >? 0)); [|done].
  cbn [fst]. rewrite List.filter_app. simpl. by rewrite app_nil_r.
Qed.

Lemma fold_slugStep_kept (l b : gostring) (p : bool) :
  List.filter notHyphen (fold_left slugStep l (b, p)).1
  = List.filter notHyphen b ++ List.filter keptRune l.
Proof.
  revert b p. induction l as [|r l IH]; intros b p; cbn [fold_left].
  { simpl. by rewrite app_nil_r. }
  pose proof (slugStep_kept b p r) as Hstep.
  destruct (slugStep (b, p) r) as [b' p']. rewrite IH. simpl in Hstep.
  rewrite Hstep, <- app_assoc. cbn [List.filter]. by destruct (keptRune r).
Qed.

Lemma slugify_shape (s : gostring) :
  Forall (λ r, isSlugRune r = true) (slugify lowerTable s) ∧
  head (slugify lowerTable s) ≠ Some hyphen ∧
  last (slugify lowerTable s) ≠ Some hyphen ∧
  last (slugify lowerTable s) ≠ Some slash ∧
  hasDoubleHyphen (slugify lowerTable s) = false ∧
  List.filter notHyphen (slugify lowerTable s)
  = TrimRight (List.filter keptRune (ToLower lowerTable s)) [slash].
Proof.
  unfold slugify.
  pose proof (fold_slugStep_inv (ToLower lowerTable s) ([], false)) as Hinv.
  pose proof (fold_slugStep_kept (ToLower lowerTable s) [] false) as Hkept.
  destruct (fold_left slugStep (ToLower lowerTable s) ([], false)) as [b p].
  destruct Hinv as (Hall & Hhead & Hdbl & _).
  { split_and!; simpl; [constructor | done | done | done]. }
  simpl in *.
  pose proof (TrimRight_prefix b (lit "-/")) as Hpre.
  split_and!.
  - destruct Hpre as [k Hk]. rewrite Hk in Hall. by apply Forall_app in Hall as [? _].
  - destruct Hpre as [k Hk]. destruct (TrimRight b (lit "-/")) as [|t ts]; [done|].
    by rewrite Hk in Hhead.
  - intros Hl. by apply TrimRight_last in Hl.
  - intros Hl. by apply TrimRight_last in Hl.
  - by apply (hasDoubleHyphen_prefix _ b).
  - by rewrite TrimRight_filter, Hkept.
Qed.

(** Runs of letters and digits are copied; a run of separators adds one
    hyphen when text precedes it. *)
Lemma fold_slugStep_alnum (u b : gostring) (p : bool) :
  forallb isLowerAlnum u = true →
  fold_left slugStep u (b, p) = (b ++ u, if u is [] then p else false).
Proof.
  revert b p. induction u as [|r u IH]; intros b p Hu; simpl.
  { by rewrite app_nil_r. }
  apply andb_true_iff in Hu as [Hr Hu]. unfold isLowerAlnum in Hr. rewrite Hr.
  rewrite IH by done. rewrite <- app_assoc. simpl. by destruct u.
Qed.

Lemma isSeparator_step (r : rune) (b : gostring) (p : bool) :
  isSeparator r = true →
  slugStep (b, p) r
  = if negb p && (len b >? 0) then (b ++ [hyphen], true) else (b, p).
Proof.
  intros Hr. unfold slugStep.
  assert (((0x61 <=? r) && (r <=? 0x7A)) || ((0x30 <=? r) && (r <=? 0x39)) = false)
    as ->.
  { destruct (_ || _) eqn:H; [|done]. exfalso.
    unfold isSeparator, IsSpace in Hr. rune_arith. }
  assert ((r =? 0x2F) = false) as ->.
  { destruct (r =? 0x2F) eqn:H; [|done]. exfalso.
    unfold isSeparator, IsSpace in Hr. rune_arith. }
  unfold isSeparator, hyphen in Hr. by rewrite Hr.
Qed.

Lemma fold_slugStep_separators (z b : gostring) (p : bool) :
  forallb isSeparator z = true →
  fold_left slugStep z (b, p)
  = if z is [] then (b, p)
    else if negb p && (len b >? 0) then (b ++ [hyphen], true) else (b, p).
Proof.
  revert b p. induction z as [|r z IH]; intros b p Hz; [done|].
  apply andb_true_iff in Hz as [Hr Hz]. cbn [fold_left].
  rewrite isSeparator_step by done.
  destruct (negb p && (len b >? 0)) eqn:Hadd.
  - rewrite IH by done. by destruct z.
  - rewrite IH by done. rewrite Hadd. by destruct z.
Qed.

Lemma ToLower_fixed (s : gostring) :
  forallb (λ r, isLowerAlnum r || asciiSeparator r) s = true →
  ToLower lowerTable s = s.
Proof.
  induction s as [|r s IH]; [done|]. intros H.
  apply andb_true_iff in H as [Hr Hs]. simpl. rewrite IH by done. f_equal.
  unfold unicode_ToLower.
  unfold isLowerAlnum, asciiSeparator, isSeparator, IsSpace in Hr.
  destruct (r <=? 0x7F) eqn:Hascii.
  - destruct ((0x41 <=? r) && (r <=? 0x5A)) eqn:Hup; [|done]. exfalso. rune_arith.
  - exfalso. rune_arith.
Qed.

Lemma TrimRight_alnum_end (s v : gostring) :
  forallb isLowerAlnum v = true → v ≠ [] →
  TrimRight (s ++ v) (lit "-/") = s ++ v.
Proof.
  intros Hv Hne. destruct (exists_last Hne) as (v' & x & ->).
  rewrite forallb_app in Hv. apply andb_true_iff in Hv as [_ Hx].
  simpl in Hx. rewrite andb_true_r in Hx.
  rewrite app_assoc. apply TrimRight_snoc_keep.
  rewrite inCutset_dash_slash. unfold isLowerAlnum in Hx.
  destruct ((x =? hyphen) || (x =? slash)) eqn:H; [|done]. exfalso. rune_arith.
Qed.

Lemma slugify_collapse (z0 u z1 v z2 : gostring) :
  forallb asciiSeparator z0 = true → forallb isLowerAlnum u = true → u ≠ [] →
  forallb asciiSeparator z1 = true → z1 ≠ [] →
  forallb isLowerAlnum v = true → v ≠ [] → forallb asciiSeparator z2 = true →
  slugify lowerTable (z0 ++ u ++ z1 ++ v ++ z2) = u ++ [hyphen] ++ v.
Proof.
  intros Hz0 Hu Hune Hz1 Hz1ne Hv Hvne Hz2.
  assert (∀ z, forallb asciiSeparator z = true → forallb isSeparator z = true) as Hsep.
  { intros z Hz. apply forallb_forall. intros r Hr.
    rewrite forallb_forall in Hz. specialize (Hz r Hr).
    unfold asciiSeparator in Hz. by apply andb_true_iff in Hz as [? _]. }
  unfold slugify. rewrite ToLower_fixed.
  2:{ rewrite !forallb_app. repeat (apply andb_true_iff; split);
      apply forallb_forall; intros r Hr;
      match goal with
      | H : forallb ?f ?l = true, Hr : In r ?l |- _ =>
          rewrite forallb_forall in H; rewrite (H r Hr)
      end; by rewrite ?orb_true_r. }
  rewrite !fold_left_app.
  rewrite (fold_slugStep_separators z0) by auto.
  assert (fold_left slugStep u
            (if z0 is [] then ([], false)
             else if negb false && (len [] >? 0) then ([] ++ [hyphen], true)
                  else ([], false)) = (u, false)) as ->.
  { destruct z0; simpl; rewrite fold_slugStep_alnum by done; by destruct u. }
  rewrite (fold_slugStep_separators z1) by auto.
  pose proof (len_pos u Hune) as Hlen.
  assert ((len u >? 0) = true) as -> by (apply Z.gtb_lt; lia).
  destruct z1 as [|r1 z1]; [done|]. simpl negb. cbn [andb].
  rewrite fold_slugStep_alnum by done.
  replace (if v is [] then true else false) with false by (by destruct v).
  rewrite (fold_slugStep_separators z2) by auto.
  assert ((len ((u ++ [hyphen]) ++ v) >? 0) = true) as ->.
  { apply Z.gtb_lt. rewrite !len_app. pose proof (len_nonneg v).
    pose proof (len_nonneg [hyphen]). lia. }
  pose proof (TrimRight_alnum_end (u ++ [hyphen]) v Hv Hvne) as Ht.
  destruct z2 as [|r2 z2]; cbn [negb andb fst].
  - by rewrite Ht, <- app_assoc.
  - rewrite TrimRight_snoc_cut by done. by rewrite Ht, <- app_assoc.
Qed.

(** The loop against the description: a rune that does not count leaves
    the builder as it is, and on the runes that count the builder grows by
    the squeezed text, the separators skipped while nothing was written or
    a hyphen was just put. *)
Lemma slugStep_other (st : gostring * bool) (r : rune) :
  slugRelevant r = false → slugStep st r = st.
Proof.
  destruct st as [b p]. unfold slugRelevant, keptRune, isLowerAlnum, isSeparator.
  intros H. apply orb_false_iff in H as [Hk Hs].
  apply orb_false_iff in Hk as [Han Hsl]. unfold slugStep, slash, hyphen in *.
  by rewrite Han, Hsl, Hs.
Qed.

Lemma fold_slugStep_relevant (l : gostring) (st : gostring * bool) :
  fold_left slugStep l st = fold_left slugStep (List.filter slugRelevant l) st.
Proof.
  revert st. induction l as [|r l IH]; intros st; [done|]. cbn [fold_left List.filter].
  destruct (slugRelevant r) eqn:Hr.
  - cbn [fold_left]. apply IH.
  - rewrite slugStep_other by done. apply IH.
Qed.

Lemma keptRune_not_separator (r : rune) : keptRune r = true → isSeparator r = false.
Proof.
  unfold keptRune, isLowerAlnum, isSeparator, IsSpace. intros H.
  destruct (_ || _ || _) eqn:Hs in |- *; [|done]. exfalso. rune_arith.
Qed.

Lemma keptRune_step (r : rune) (b : gostring) (p : bool) :
  keptRune r = true → slugStep (b, p) r = (b ++ [r], false).
Proof.
  unfold keptRune, isLowerAlnum, slash, slugStep. intros H.
  destruct (((0x61 <=? r) && (r <=? 0x7A)) || ((0x30 <=? r) && (r <=? 0x39)));
    [done|]. simpl in H. rewrite H. by apply Z.eqb_eq in H as ->.
Qed.

Lemma squeeze_run (r : rune) (l : gostring) :
  isSeparator r = true → squeeze (r :: l) = hyphen :: squeeze (dropSeparators l).
Proof.
  intros Hr. revert r Hr. induction l as [|r' l IH]; intros r Hr.
  - simpl. by rewrite Hr.
  - change (squeeze (r :: r' :: l))
      with (if isSeparator r
            then (if isSeparator r' then squeeze (r' :: l)
                  else hyphen :: squeeze (r' :: l))
            else r :: squeeze (r' :: l)).
    rewrite Hr. cbn [dropSeparators].
    destruct (isSeparator r') eqn:Hr'; [by apply IH | done].
Qed.

Lemma squeeze_kept (r : rune) (l : gostring) :
  isSeparator r = false → squeeze (r :: l) = r :: squeeze l.
Proof. intros Hr. simpl. by rewrite Hr. Qed.

Lemma fold_slugStep_squeeze (l b : gostring) (p : bool) :
  Forall (λ r, slugRelevant r = true) l →
  (fold_left slugStep l (b, p)).1
  = b ++ squeeze (if negb p && (len b >? 0) then l else dropSeparators l).
Proof.
  intros Hl. revert b p. induction Hl as [|r l Hr Hl IH]; intros b p.
  { destruct (_ && _); simpl; by rewrite app_nil_r. }
  cbn [fold_left]. destruct (isSeparator r) eqn:Hs.
  - rewrite isSeparator_step by done.
    destruct (negb p && (len b >? 0)) eqn:Hmode.
    + rewrite IH. cbn [negb andb]. rewrite squeeze_run by done.
      by rewrite <- app_assoc.
    + rewrite IH, Hmode. cbn [dropSeparators]. by rewrite Hs.
  - assert (keptRune r = true) as Hk.
    { unfold slugRelevant in Hr. rewrite Hs in Hr. by rewrite orb_false_r in Hr. }
    rewrite keptRune_step by done. rewrite IH. cbn [negb andb].
    assert ((len (b ++ [r]) >? 0) = true) as ->.
    { apply Z.gtb_lt, len_pos. by destruct b. }
    cbn [dropSeparators]. rewrite Hs.
    replace (if negb p && (len b >? 0) then r :: l else r :: l) with (r :: l)
      by (by destruct (_ && _)).
    rewrite squeeze_kept by done. by rewrite <- app_assoc.
Qed.

Lemma slugify_slugifySpec (s : gostring) :
  slugify lowerTable s = slugifySpec lowerTable s.
Proof.
  unfold slugify, slugifySpec. rewrite fold_slugStep_relevant.
  rewrite fold_slugStep_squeeze; [done|].
  apply Forall_forall. intros r Hr. apply list_elem_of_In in Hr.
  by apply filter_In in Hr as [_ ?].
Qed.

End Slug.

(** C3 (as amended): [slugify] lower-cases its input and writes only
    letters, digits, ['/'] and ['-']; the letters, digits and slashes of the
    lower-cased input are kept in order (less the slashes at the end); a run
    of spaces, underscores and hyphens after some text becomes one hyphen
    and never two, a run at the start is dropped, and hyphens and slashes at
    the end are stripped. So slugify("Feat: Auth Refresh") =
    "feat-auth-refresh" and slugify("a/b  c") = "a/b-c", and the result
    never begins with ['-'] and never ends with ['-'] or ['/']. A slash at
    the start is kept like any other slash. For every input the result is
    the one the description gives, [slugifySpec]: every rune other than a
    letter, a digit, a slash or a separator is left out, the separators at
    the start are dropped, each run of separators that is left becomes
    exactly one hyphen, and the hyphens and slashes at the end are cut. *)
Theorem slugify_normalises (lowerTable : rune → rune) :
  slugify lowerTable (lit "Feat: Auth Refresh") = lit "feat-auth-refresh" ∧
  slugify lowerTable (lit "a/b  c") = lit "a/b-c" ∧
  (∀ s : gostring, slugify lowerTable s = slugifySpec lowerTable s) ∧
  (∀ s : gostring,
     Forall (λ r, isSlugRune r = true) (slugify lowerTable s) ∧
     head (slugify lowerTable s) ≠ Some hyphen ∧
     last (slugify lowerTable s) ≠ Some hyphen ∧
     last (slugify lowerTable s) ≠ Some slash ∧
     hasDoubleHyphen (slugify lowerTable s) = false ∧
     List.filter notHyphen (slugify lowerTable s)
     = TrimRight (List.filter keptRune (ToLower lowerTable s)) [slash]) ∧
  (∀ z0 u z1 v z2 : gostring,
     forallb asciiSeparator z0 = true → forallb isLowerAlnum u = true → u ≠ [] →
     forallb asciiSeparator z1 = true → z1 ≠ [] →
     forallb isLowerAlnum v = true → v ≠ [] → forallb asciiSeparator z2 = true →
     slugify lowerTable (z0 ++ u ++ z1 ++ v ++ z2) = u ++ [hyphen] ++ v).
Proof.
  split_and!; [reflexivity | reflexivity | apply slugify_slugifySpec
              | apply slugify_shape | apply slugify_collapse].
Qed.

(** The theorem at work: separators around and between two words, and
    three words with punctuation between them. *)
Lemma slugify_normalises_witness :
  slugify noTable (lit "  my" ++ lit "_ -" ++ lit "branch2" ++ lit "- ")
  = lit "my-branch2" ∧
  head (slugify noTable (lit "-x-")) ≠ Some hyphen ∧
  slugify noTable (lit "a. b - .c") = lit "a-b-c".
Proof.
  destruct (slugify_normalises noTable) as (_ & _ & Hspec & Hshape & Hcollapse).
  split_and!.
  - apply (Hcollapse (lit "  ") (lit "my") (lit "_ -") (lit "branch2") (lit "- "));
      first [reflexivity | discriminate].
  - apply (Hshape (lit "-x-")).
  - rewrite Hspec. reflexivity.
Defined.

(** C3 as stated fails at the start of the slug: a leading slash stays. The
    input is ASCII, so no case table is consulted. *)
Lemma slugify_leading_slash_counterexample :
  slugify noTable (lit "/a") = lit "/a" ∧
  head (slugify noTable (lit "/a")) = Some slash.
Proof. split; reflexivity. Qed.

End SlugSpec.

(** ** The controller *)

Module UiFacts.

Lemma streq_true (a b : gostring) : streq a b = true ↔ a = b.
Proof. unfold streq. apply bool_decide_eq_true. Qed.

Lemma streq_false (a b : gostring) : streq a b = false ↔ a ≠ b.
Proof. unfold streq. apply bool_decide_eq_false. Qed.

Lemma index_in_range {A} (l : list A) (i : Z) :
  0 <= i < slen l → ∃ x, index l i = Some x.
Proof.
  intros [H0 H1]. unfold index, slen in *.
  assert ((i <? 0) = false) as -> by (apply Z.ltb_ge; lia).
  apply lookup_lt_is_Some_2. lia.
Qed.

Lemma index_Some_range {A} (l : list A) (i : Z) (x : A) :
  index l i = Some x → 0 <= i < slen l.
Proof.
  unfold index, slen. destruct (i <? 0) eqn:Hi; [done|].
  apply Z.ltb_ge in Hi. intros H. apply lookup_lt_Some in H. lia.
Qed.

(** An enter key is never read as ctrl+c, with or without alt. *)
Lemma enter_not_ctrl_c (k : KeyMsg) :
  Type_ k = KeyEnter → streq (KeyString k) (lit "ctrl+c") = false.
Proof.
  intros Hk. apply streq_false. unfold KeyString. rewrite Hk.
  by destruct (Alt k).
Qed.

End UiFacts.

Module ErrorBannerSpec.
Import UiFacts.

(** C1 (as amended): whenever the transient error message is set, the very
    next key press other than ctrl+c, for every such key and in every
    state, clears the error message and does nothing else: every other
    field of the model is as before, no command is issued, no call into the
    git package is made, and the handler of the state does not run. Ctrl+c
    is read before the banner: it issues the quit command and leaves the
    model, message included, as it is. *)
Theorem error_banner_swallows_key
  (lowerTable : rune → rune) (env : Env) (m : Model) (k : KeyMsg) :
  errMsg m ≠ [] →
  (KeyString k ≠ lit "ctrl+c" →
     Update lowerTable env m (tea_KeyMsg k)
     = Some (mkOutcome (set_errMsg [] m) None [])) ∧
  (KeyString k = lit "ctrl+c" →
     Update lowerTable env m (tea_KeyMsg k)
     = Some (mkOutcome m (Some tea_Quit) [])).
Proof.
  intros Herr. simpl. unfold handleKey, keyIs. split; intros Hk.
  - apply streq_false in Hk. rewrite Hk.
    apply streq_false in Herr. by rewrite Herr.
  - apply streq_true in Hk. by rewrite Hk.
Qed.

(** The theorem at work: with a banner up in the list, "d" on a worktree
    opens no confirmation. *)
Lemma error_banner_swallows_key_witness :
  let m := set_errMsg (lit "fatal: not a git repository")
             (set_cursor 2 (set_worktrees threeWorktrees
                (set_state StateList InitialModel))) in
  Update noTable someEnv m (tea_KeyMsg (runeKey "d"))
  = Some (mkOutcome (set_errMsg [] m) None []).
Proof.
  intros m.
  apply (error_banner_swallows_key noTable someEnv m (runeKey "d")); discriminate.
Defined.

(** C1 as stated fails for ctrl+c: the banner stays and the program quits. *)
Lemma error_banner_ctrl_c_counterexample :
  let m := set_errMsg (lit "fatal: not a git repository")
             (set_state StateList InitialModel) in
  ∃ o, Update noTable someEnv m (tea_KeyMsg (key KeyCtrlC)) = Some o ∧
       cmd o = Some tea_Quit ∧
       errMsg (next o) = lit "fatal: not a git repository".
Proof. eexists. split_and!; reflexivity. Qed.

End ErrorBannerSpec.

Module ViewSpec.

(** C10: a model whose viewport width is 0 or whose height is 0, as before
    the first resize event, renders as the empty frame, whatever its mode
    and data. *)
Theorem View_empty_without_viewport
  (viewNoGit viewShellSetup viewMain : Model → gostring) (m : Model) :
  width m = 0 ∨ height m = 0 →
  View viewNoGit viewShellSetup viewMain m = [].
Proof.
  intros H. unfold View.
  destruct H as [-> | ->]; simpl; [done | by rewrite orb_true_r].
Qed.

(** The theorem at work on the initial model, which has no size yet. *)
Lemma View_empty_without_viewport_witness :
  View blankScreen blankScreen blankScreen InitialModel = [] ∧
  View blankScreen blankScreen blankScreen (set_width 80 InitialModel) = [].
Proof.
  split.
  - apply View_empty_without_viewport. left. reflexivity.
  - apply View_empty_without_viewport. right. reflexivity.
Defined.

End ViewSpec.

Module DeletionSpec.

(** C5 (as amended): when a worktree-deletion completion message arrives,
    with or without an error, the state returns to List, a reload command is
    issued, and the cursor is decremented if and only if it is greater than
    0, whatever the length of the list; the list itself is left for the
    reload to replace, and an error is put in the banner. *)
Theorem deletion_completed
  (lowerTable : rune → rune) (env : Env) (m : Model) (err : option gostring) :
  ∃ o, Update lowerTable env m (worktreeDeletedMsg err) = Some o ∧
       state (next o) = StateList ∧
       cmd o = Some loadWorktrees ∧
       effects o = [] ∧
       cursor (next o) = (if cursor m >? 0 then cursor m - 1 else cursor m) ∧
       worktrees (next o) = worktrees m ∧
       errMsg (next o) = default (errMsg m) err.
Proof.
  eexists. split; [reflexivity|]. simpl.
  destruct err as [e|]; simpl; destruct (cursor m >? 0); done.
Qed.

(** C5 as stated fails: with three worktrees loaded and the cursor on the
    second, within the list before the deletion and within the two entries
    left after it, the completion still moves the cursor up by one. *)
Lemma deletion_cursor_counterexample :
  let m := set_cursor 2 (set_worktrees threeWorktrees
             (set_state StateDeleteConfirm InitialModel)) in
  ∃ o, Update noTable someEnv m (worktreeDeletedMsg None) = Some o ∧
       cursor m <= slen (worktrees m) - 1 ∧
       cursor (next o) = 1.
Proof. eexists. split_and!; [reflexivity | by vm_compute | reflexivity]. Qed.

End DeletionSpec.

Module RenameSpec.
Import UiFacts.

(** C9 (as amended): in the rename modal with no error banner showing,
    enter with a field value equal to the selected worktree's branch name
    issues no command and goes straight back to List, changing nothing
    else. Banner or not, and whatever the key, a rename command comes out
    of the modal only on enter with no banner showing, for the selected
    worktree's branch, with a new name that differs from it. While an error
    banner is showing, enter only takes the banner down: no command is
    issued and the modal stays open. *)
Theorem rename_unchanged_is_noop
  (lowerTable : rune → rune) (env : Env) (m : Model) (k : KeyMsg) :
  state m = StateEditWorktree →
  (errMsg m = [] →
   ∀ wt, Type_ k = KeyEnter → cursor m > 0 →
         index (worktrees m) (cursor m - 1) = Some wt →
         editName m = Worktree.Branch wt →
         Update lowerTable env m (tea_KeyMsg k)
         = Some (mkOutcome (set_state StateList m) None [])) ∧
  (∀ o c, Update lowerTable env m (tea_KeyMsg k) = Some o → cmd o = Some c →
          c = tea_Quit ∨
          ∃ wt, errMsg m = [] ∧ Type_ k = KeyEnter ∧
                index (worktrees m) (cursor m - 1) = Some wt ∧
                c = renameWorktree (Worktree.Branch wt) (editName m) ∧
                Worktree.Branch wt ≠ editName m ∧
                next o = m) ∧
  (errMsg m ≠ [] → Type_ k = KeyEnter →
   Update lowerTable env m (tea_KeyMsg k)
   = Some (mkOutcome (set_errMsg [] m) None []) ∧
   state (set_errMsg [] m) = StateEditWorktree).
Proof.
  intros Hst. split_and!.
  - intros Herr wt Hk Hcur Hwt Hname. simpl. unfold handleKey, keyIs.
    rewrite (enter_not_ctrl_c k Hk), Herr, Hst. simpl.
    unfold handleEditWorktree. rewrite Hk, Hwt. simpl.
    rewrite Hname. unfold streq at 2. rewrite bool_decide_eq_true_2 by done.
    simpl. by destruct (_ && _).
  - intros o c. simpl. unfold handleKey, keyIs.
    destruct (streq (KeyString k) (lit "ctrl+c")).
    { intros [= <-]. simpl. intros [= <-]. by left. }
    destruct (streq (errMsg m) []) eqn:Herr; cbn [negb].
    2:{ intros [= <-]. simpl. discriminate. }
    apply streq_true in Herr.
    rewrite Hst. unfold handleEditWorktree.
    destruct (Type_ k) eqn:Hk; try (intros [= <-]; simpl; discriminate).
    destruct (_ && _); [|intros [= <-]; simpl; discriminate].
    destruct (index (worktrees m) (cursor m - 1)) as [wt|] eqn:Hwt; [|done].
    simpl. destruct (streq (Worktree.Branch wt) (editName m)) eqn:Hne; simpl.
    { intros [= <-]. simpl. discriminate. }
    intros [= <-]. simpl. intros [= <-]. right. exists wt.
    apply streq_false in Hne. done.
  - intros Herr Hk. split; [|by destruct m]. simpl. unfold handleKey, keyIs.
    rewrite (enter_not_ctrl_c k Hk). apply streq_false in Herr. by rewrite Herr.
Qed.

(** The theorem at work: "feat/a" submitted for the worktree on "feat/a",
    and enter under the banner of a failed reload. *)
Lemma rename_unchanged_is_noop_witness :
  let m := set_editName (lit "feat/a")
             (set_cursor 2 (set_worktrees threeWorktrees
                (set_state StateEditWorktree InitialModel))) in
  Update noTable someEnv m (tea_KeyMsg (key KeyEnter))
  = Some (mkOutcome (set_state StateList m) None []) ∧
  Update noTable someEnv (set_errMsg (lit "exit status 128") m) (tea_KeyMsg (key KeyEnter))
  = Some (mkOutcome (set_errMsg [] (set_errMsg (lit "exit status 128") m)) None []).
Proof.
  intros m. split.
  - destruct (rename_unchanged_is_noop noTable someEnv m (key KeyEnter)) as (H & _ & _);
      [reflexivity |].
    apply (H eq_refl (worktreeOn "feat/a" false));
      [reflexivity | by vm_compute | reflexivity..].
  - destruct (rename_unchanged_is_noop noTable someEnv
                (set_errMsg (lit "exit status 128") m) (key KeyEnter))
      as (_ & _ & H); [reflexivity |].
    apply H; [discriminate | reflexivity].
Defined.

(** C9 as stated fails while an error banner is showing: the rename modal
    is open on "feat/a" with the name unchanged when a reload fails; enter
    then only takes the banner down, and the modal stays open. *)
Lemma rename_under_banner_counterexample :
  let m := renameUnderBanner in
  run noTable InitialModel toRenameUnderBanner = Some m ∧
  state m = StateEditWorktree ∧
  index (worktrees m) (cursor m - 1) = Some (worktreeOn "feat/a" false) ∧
  editName m = Worktree.Branch (worktreeOn "feat/a" false) ∧
  errMsg m = lit "git worktree list: exit status 128" ∧
  Update noTable someEnv m (tea_KeyMsg (key KeyEnter))
  = Some (mkOutcome (set_errMsg [] m) None []) ∧
  state (set_errMsg [] m) = StateEditWorktree.
Proof. intros m. split_and!; vm_compute; reflexivity. Qed.

End RenameSpec.

Module PRCacheSpec.

(** C8 (as amended): a PR-status completion message is applied by the
    branch name it carries, never by the cursor: it sets the cache entry of
    that branch, issues no command and changes nothing else in the model,
    the cursor included; the cache entry and the rendered badge of every
    other branch name, that of the worktree now selected when its branch
    name is another, are what they were. *)
Theorem pr_result_keyed_by_branch
  (lowerTable upperTable : rune → rune) (Render : Style → gostring → gostring)
  (env : Env) (m : Model) (a : gostring) (info : prCacheEntry) :
  ∃ o, Update lowerTable env m (prFetchedMsg a info) = Some o ∧
       cmd o = None ∧ effects o = [] ∧
       cacheLookup (next o) a = Some info ∧
       next o = set_prCache (prCache (next o)) m ∧
       ∀ b, b ≠ a →
            cacheLookup (next o) b = cacheLookup m b ∧
            prBadge upperTable Render (next o) b = prBadge upperTable Render m b.
Proof.
  eexists. split; [reflexivity|]. simpl.
  assert (∀ b, b ≠ a →
            cacheLookup (cacheStore a info (ensureCache m)) b = cacheLookup m b)
    as Hother.
  { intros b Hb. unfold cacheStore, ensureCache, cacheLookup.
    destruct (prCache m) as [c|] eqn:Hc; simpl.
    - rewrite Hc. simpl. by rewrite lookup_insert_ne.
    - by rewrite lookup_insert_ne. }
  split_and!; try done.
  - unfold cacheStore, ensureCache, cacheLookup.
    destruct (prCache m) as [c|] eqn:Hc; simpl.
    + rewrite Hc. simpl. by rewrite lookup_insert_eq.
    + by rewrite lookup_insert_eq.
  - unfold cacheStore, ensureCache.
    destruct (prCache m) as [c|] eqn:Hc; simpl; [by rewrite Hc|done].
  - intros b Hb. split; [by apply Hother|].
    unfold prBadge. rewrite (Hother b Hb).
    assert (ghAvailable (cacheStore a info (ensureCache m)) = ghAvailable m) as ->; [|done].
    unfold cacheStore, ensureCache.
    destruct (prCache m) as [c|] eqn:Hc; simpl; [by rewrite Hc|done].
Qed.

(** The theorem at work: the cursor is on "feat/b", whose open pull request
    is cached, when the answer for "feat/a" comes in. *)
Lemma pr_result_keyed_by_branch_witness :
  let m := set_prCache (Some oneOpenPR)
             (set_ghAvailable true
                (set_cursor 3 (set_worktrees threeWorktrees
                   (set_state StateList InitialModel)))) in
  ∃ o, Update noTable someEnv m (prFetchedMsg (lit "feat/a") None) = Some o ∧
       cursor (next o) = 3 ∧
       cacheLookup (next o) (lit "feat/a") = Some None ∧
       prBadge noTable plainRender (next o) (lit "feat/b")
       = prBadge noTable plainRender m (lit "feat/b").
Proof.
  intros m.
  destruct (pr_result_keyed_by_branch noTable noTable plainRender someEnv m
              (lit "feat/a") None) as (o & Ho & _ & _ & Ha & Hrest & Hb).
  exists o. split_and!; [done | by rewrite Hrest | done |].
  apply (Hb (lit "feat/b")). discriminate.
Defined.

(** C8 as stated fails for two worktrees that carry the same branch name,
    as two detached worktrees do: the cursor is on the second, whose badge
    is empty, when the answer to the fetch issued for the first comes in;
    the cursor stays where it is and the badge of the second turns to
    "no PR". *)
Lemma pr_result_shared_branch_counterexample :
  let m := onSecondDetached in
  let a := detachedAt "/repo/.wt/x" in
  let b := detachedAt "/repo/.wt/y" in
  run noTable InitialModel toSecondDetached = Some m ∧
  index (worktrees m) 1 = Some a ∧
  index (worktrees m) (cursor m - 1) = Some b ∧
  a ≠ b ∧
  prBadge noTable plainRender m (Worktree.Branch b) = [] ∧
  ∃ o, Update noTable someEnv m (prFetchedMsg (Worktree.Branch a) None) = Some o ∧
       cursor (next o) = cursor m ∧
       prBadge noTable plainRender (next o) (Worktree.Branch b) = lit "no PR".
Proof.
  intros m a b. split_and!; try (vm_compute; reflexivity).
  - by vm_compute.
  - eexists. split; [reflexivity|]. split; vm_compute; reflexivity.
Qed.

End PRCacheSpec.

Module ScrollSpec.
Import UiFacts.

Lemma appliedScroll_min {A} (lines : list A) (scrollH stored : Z) :
  appliedScroll lines scrollH stored
  = Z.min stored (Z.max 0 (slen lines - scrollH)).
Proof.
  unfold appliedScroll, maxScroll.
  destruct (slen lines - scrollH <? 0) eqn:H1;
    [apply Z.ltb_lt in H1 | apply Z.ltb_ge in H1];
    case_match eqn:H2;
    first [apply Z.gtb_lt in H2 | rewrite Z.gtb_ltb in H2; apply Z.ltb_ge in H2];
    lia.
Qed.

Lemma wrap_small (x : Z) : - 2 ^ 63 <= x < 2 ^ 63 → wrap x = x.
Proof. intros H. unfold wrap. rewrite Z.mod_small; lia. Qed.

Lemma keyIs_exclusive (k : KeyMsg) (a b : string) :
  lit a ≠ lit b → keyIs k a = true → keyIs k b = false.
Proof.
  unfold keyIs. intros Hab Ha. apply streq_true in Ha. apply streq_false.
  by rewrite Ha.
Qed.




End ScrollSpec.

Module CursorSpec.
Import UiFacts.

Lemma index_None_range {A} (l : list A) (i : Z) :
  index l i = None → i < 0 ∨ slen l <= i.
Proof.
  unfold index, slen. destruct (Z.ltb_spec i 0) as [Hi|Hi]; [by left|].
  intros Hl. apply lookup_ge_None in Hl. lia.
Qed.

(** Case analysis on the tests of a handler, keeping what each test says. *)
Ltac split_tests :=
  repeat match goal with
         | |- context [?a >? ?b] =>
             rewrite (Z.gtb_ltb a b); destruct (Z.ltb_spec b a)
         | |- context [?a >=? ?b] =>
             rewrite (Z.geb_leb a b); destruct (Z.leb_spec b a)
         | |- context [?a <? ?b] => destruct (Z.ltb_spec a b)
         | |- context [?a <=? ?b] => destruct (Z.leb_spec a b)
         | |- context [?a =? ?b] => destruct (Z.eqb_spec a b)
         | |- context [index ?l ?i] =>
             let H := fresh "Hidx" in destruct (index l i) eqn:H; simpl
         | |- context [if ?b then _ else _] => destruct b eqn:?; simpl
         | |- context [match ?x with _ => _ end] => destruct x eqn:?; simpl
         end.

Section Preservation.
Variable lowerTable : rune → rune.

Lemma maybeFetchPR_total (m : Model) :
  wellFormed m → ∃ c, maybeFetchPR m = Some c.
Proof.
  intros Hm. unfold maybeFetchPR. split_tests; eauto.
  all: exfalso; unfold wellFormed, cursorInRange in *;
    apply index_None_range in Hidx; lia.
Qed.

Lemma recalcBranch_wellFormed (m : Model) :
  wellFormed m → ∃ m', recalcBranch lowerTable m = Some m' ∧ wellFormed m'.
Proof.
  intros Hm. unfold recalcBranch.
  destruct (newBranchEdited m); [eauto|].
  destruct (index branchTypes (newTypeIdx m)) as [ty|] eqn:Hidx; simpl.
  - destruct (streq _ _); eexists; (split; [reflexivity|]); apply Hm.
  - exfalso. apply index_None_range in Hidx.
    unfold wellFormed in Hm. change (slen branchTypes) with 10 in *. lia.
Qed.

(** The key tests of a handler, one after the other. *)
Ltac split_keys k :=
  repeat match goal with
         | |- context [keyIs k ?name] => destruct (keyIs k name) eqn:?; simpl
         end.

(** Fields of updated models, read off without expanding the updates. *)
Ltac model_fields :=
  unfold wellFormed, cursorInRange, openNewModal, resetNewModal, noteErr in *;
  cbn [state worktrees repoName curBranch cursor width height remoteURL
        stashCount fetchedAgo defaultBranch ghAvailable prCache hasCommits
        newTypeIdx newTypeListOpen newDisplayName newBranch newDescription
        newActiveField newBranchEdited editName selectedCommitIndex
        commitDetailScroll activeCommit errMsg
        set_state set_worktrees set_repoName set_curBranch set_cursor set_width
        set_height set_remoteURL set_stashCount set_fetchedAgo set_defaultBranch
        set_ghAvailable set_prCache set_newTypeIdx set_newTypeListOpen
        set_newDisplayName set_newBranch set_newDescription set_newActiveField
        set_newBranchEdited set_editName set_selectedCommitIndex
        set_commitDetailScroll set_activeCommit set_errMsg
        next cmd effects] in *.

Ltac wf_simple :=
  model_fields;
  change (slen branchTypes) with 10 in *;
  repeat match goal with
         | |- context [?a >? ?b] =>
             rewrite (Z.gtb_ltb a b); destruct (Z.ltb_spec b a)
         | |- context [?a <? ?b] => destruct (Z.ltb_spec a b)
         end;
  simpl; unfold slen in *; lia.

Ltac done_case := eexists; split; [reflexivity|]; wf_simple.

Ltac with_fetch :=
  match goal with
  | |- context [maybeFetchPR ?m'] =>
      let c := fresh "c" in
      let Hc := fresh "Hc" in
      destruct (maybeFetchPR_total m') as [c Hc];
      [ wf_simple | rewrite Hc; cbn [mbind option_bind]; done_case ]
  end.

Ltac with_index :=
  match goal with
  | |- context [index ?l ?i] =>
      let H := fresh "Hidx" in
      destruct (index l i) eqn:H; simpl;
      [ | exfalso; apply index_None_range in H;
          unfold wellFormed, cursorInRange, slen in *; simpl in *; lia ]
  end.

Lemma handleNoGit_wellFormed (m : Model) (k : KeyMsg) :
  wellFormed m → ∃ o, handleNoGit m k = Some o ∧ wellFormed (next o).
Proof. intros Hm. unfold handleNoGit. split_keys k; done_case. Qed.

Lemma handleShellSetup_wellFormed (m : Model) (k : KeyMsg) :
  wellFormed m → ∃ o, handleShellSetup m k = Some o ∧ wellFormed (next o).
Proof. intros Hm. unfold handleShellSetup. split_keys k; done_case. Qed.

Lemma handleList_wellFormed (m : Model) (k : KeyMsg) :
  wellFormed m → ∃ o, handleList m k = Some o ∧ wellFormed (next o).
Proof.
  intros Hm. unfold handleList. split_keys k; try with_fetch.
  - done_case.
  - destruct (Z.eqb_spec (cursor m) 0); [done_case|].
    destruct (Z.ltb_spec (cursor m - 1) (slen (worktrees m))); done_case.
  - done_case.
  - rewrite Z.gtb_ltb. destruct (Z.ltb_spec 0 (cursor m)); [|done_case].
    with_index. destruct (negb _); done_case.
  - rewrite Z.gtb_ltb. destruct (Z.ltb_spec 0 (cursor m)); [|done_case].
    with_index. done_case.
  - rewrite Z.gtb_ltb. destruct (Z.ltb_spec 0 (cursor m)); [|done_case].
    with_index. done_case.
  - done_case.
Qed.

Ltac with_recalc :=
  match goal with
  | |- context [recalcBranch lowerTable ?m'] =>
      let m2 := fresh "m2" in
      let H2 := fresh "H2" in
      let W2 := fresh "W2" in
      destruct (recalcBranch_wellFormed m') as (m2 & H2 & W2);
      [ wf_simple | rewrite H2; simpl; eexists; split; [reflexivity | exact W2] ]
  end.

Lemma handleTypeList_wellFormed (m : Model) (k : KeyMsg) :
  wellFormed m → ∃ o, handleTypeList lowerTable m k = Some o ∧ wellFormed (next o).
Proof.
  intros Hm. unfold handleTypeList. split_keys k; try with_recalc; done_case.
Qed.

Lemma appendRunes_wellFormed (runes : list rune) (m : Model) :
  wellFormed m → ∃ m', appendRunes lowerTable runes m = Some m' ∧ wellFormed m'.
Proof.
  intros Hm. unfold appendRunes.
  repeat match goal with
         | |- context [newActiveField m =? ?n] =>
             destruct (newActiveField m =? n); simpl
         end;
    try with_recalc; eexists; (split; [reflexivity|]); wf_simple.
Qed.

Lemma deleteChar_wellFormed (m : Model) :
  wellFormed m → ∃ m', deleteChar lowerTable m = Some m' ∧ wellFormed m'.
Proof.
  intros Hm. unfold deleteChar.
  repeat match goal with
         | |- context [newActiveField m =? ?n] =>
             destruct (newActiveField m =? n); simpl
         end;
    try with_recalc; eexists; (split; [reflexivity|]); wf_simple.
Qed.

Lemma handleNewWorktree_wellFormed (env : Env) (m : Model) (k : KeyMsg) :
  wellFormed m →
  ∃ o, handleNewWorktree lowerTable env m k = Some o ∧ wellFormed (next o).
Proof.
  intros Hm. unfold handleNewWorktree.
  destruct (newTypeListOpen m); [by apply handleTypeList_wellFormed|].
  destruct (Type_ k); try done_case.
  - destruct (appendRunes_wellFormed (Runes k) m Hm) as (m' & -> & Hm'). simpl. eauto.
  - destruct (newActiveField m =? 0); [done_case|]. destruct (_ && _); done_case.
  - destruct (appendRunes_wellFormed [0x20] m Hm) as (m' & -> & Hm'). simpl. eauto.
  - destruct (deleteChar_wellFormed m Hm) as (m' & -> & Hm'). simpl. eauto.
Qed.

Lemma handleRightPaneFocused_wellFormed (m : Model) (k : KeyMsg) :
  wellFormed m → ∃ o, handleRightPaneFocused m k = Some o ∧ wellFormed (next o).
Proof.
  intros Hm. unfold handleRightPaneFocused.
  assert (∃ commits,
            (if (cursor m >? 0) && (cursor m - 1 <? slen (worktrees m))
             then Worktree.Commits <$> index (worktrees m) (cursor m - 1)
             else Some []) = Some commits ∧
            (0 < slen commits →
             ∃ wt, index (worktrees m) (cursor m - 1) = Some wt))
    as (commits & -> & Hwt).
  { rewrite (Z.gtb_ltb (cursor m) 0).
    destruct (Z.ltb_spec 0 (cursor m));
      [destruct (Z.ltb_spec (cursor m - 1) (slen (worktrees m)))|]; simpl.
    - destruct (index_in_range (worktrees m) (cursor m - 1)) as [wt Hidx]; [lia|].
      rewrite Hidx. simpl. eauto.
    - exists []. split; [done|]. unfold slen. simpl. lia.
    - exists []. split; [done|]. unfold slen. simpl. lia. }
  simpl. split_keys k; try done_case.
  destruct ((slen commits >? 0) && (selectedCommitIndex m <? slen commits)) eqn:Hsel;
    [|done_case].
  apply andb_true_iff in Hsel as [Hlen Hsel].
  apply Z.gtb_lt in Hlen. apply Z.ltb_lt in Hsel.
  destruct (index_in_range commits (selectedCommitIndex m)) as [c ->];
    [unfold wellFormed in Hm; lia|].
  destruct (Hwt Hlen) as [wt ->]. simpl. done_case.
Qed.

Lemma handleCommitDetail_wellFormed (m : Model) (k : KeyMsg) :
  wellFormed m → ∃ o, handleCommitDetail m k = Some o ∧ wellFormed (next o).
Proof. intros Hm. unfold handleCommitDetail. split_keys k; done_case. Qed.

Lemma handleEditWorktree_wellFormed (m : Model) (k : KeyMsg) :
  wellFormed m → ∃ o, handleEditWorktree m k = Some o ∧ wellFormed (next o).
Proof.
  intros Hm. unfold handleEditWorktree. destruct (Type_ k); try done_case.
  rewrite Z.gtb_ltb. destruct (Z.ltb_spec 0 (cursor m)); simpl; [|done_case].
  destruct (negb _); simpl; [|done_case].
  with_index. destruct (negb _); done_case.
Qed.

Lemma handleDeleteConfirm_wellFormed (m : Model) (k : KeyMsg) :
  wellFormed m → ∃ o, handleDeleteConfirm m k = Some o ∧ wellFormed (next o).
Proof.
  intros Hm. unfold handleDeleteConfirm. split_keys k; try done_case.
  rewrite Z.gtb_ltb. destruct (Z.ltb_spec 0 (cursor m)); simpl; [|done_case].
  with_index. done_case.
Qed.

Lemma handleKey_wellFormed (env : Env) (m : Model) (k : KeyMsg) :
  wellFormed m → ∃ o, handleKey lowerTable env m k = Some o ∧ wellFormed (next o).
Proof.
  intros Hm. unfold handleKey.
  destruct (keyIs k "ctrl+c"); [done_case|].
  destruct (negb _); [done_case|].
  destruct (state m);
    auto using handleNoGit_wellFormed, handleShellSetup_wellFormed,
      handleList_wellFormed, handleNewWorktree_wellFormed,
      handleEditWorktree_wellFormed, handleDeleteConfirm_wellFormed,
      handleRightPaneFocused_wellFormed, handleCommitDetail_wellFormed.
Qed.

Lemma ensureCache_fields (m : Model) :
  cursor (ensureCache m) = cursor m ∧
  worktrees (ensureCache m) = worktrees m ∧
  newTypeIdx (ensureCache m) = newTypeIdx m ∧
  selectedCommitIndex (ensureCache m) = selectedCommitIndex m.
Proof. unfold ensureCache. by destruct (prCache m). Qed.

Lemma clamp_wellFormed (m : Model) :
  0 <= cursor m → 0 <= newTypeIdx m < slen branchTypes →
  0 <= selectedCommitIndex m →
  wellFormed (if cursor m >? slen (worktrees m)
              then set_cursor (slen (worktrees m)) m else m).
Proof.
  intros Hc Ht Hs. rewrite Z.gtb_ltb.
  destruct (Z.ltb_spec (slen (worktrees m)) (cursor m));
    unfold wellFormed, cursorInRange; cbn [cursor worktrees newTypeIdx
      selectedCommitIndex set_cursor]; unfold slen in *; lia.
Qed.

Lemma loaded_wellFormed (env : Env) (m : Model) (l : worktreesLoaded) :
  wellFormed m →
  ∃ o, Update lowerTable env m (worktreesLoadedMsg l) = Some o ∧ wellFormed (next o).
Proof.
  intros Hm. unfold Update. destruct (l_err l) as [e|]; [done_case|].
  cbv zeta.
  match goal with |- context [ensureCache ?X] => set (m8 := X) end.
  destruct (ensureCache_fields m8) as (Hc & Hw & Ht & Hs).
  set (m9 := set_state StateList (ensureCache m8)).
  assert (cursor m9 = cursor m ∧ newTypeIdx m9 = newTypeIdx m
          ∧ selectedCommitIndex m9 = selectedCommitIndex m) as (Hc9 & Ht9 & Hs9).
  { subst m9. cbn [cursor newTypeIdx selectedCommitIndex set_state].
    rewrite Hc, Ht, Hs. subst m8. split_and!; reflexivity. }
  clearbody m9. clear Hc Hw Ht Hs. clearbody m8.
  assert (wellFormed (if cursor m9 >? slen (worktrees m9)
                      then set_cursor (slen (worktrees m9)) m9 else m9)) as Hwf.
  { unfold wellFormed, cursorInRange in Hm.
    apply clamp_wellFormed; rewrite ?Hc9, ?Ht9, ?Hs9; lia. }
  destruct (maybeFetchPR_total _ Hwf) as [c Hfetch]. rewrite Hfetch.
  eexists. split; [reflexivity | exact Hwf].
Qed.

Lemma Update_wellFormed (env : Env) (m : Model) (msg : Msg) :
  wellFormed m → ∃ o, Update lowerTable env m msg = Some o ∧ wellFormed (next o).
Proof.
  intros Hm. destruct msg as [w h|isGit|l|br info|detail err|err|err|err|err|k|].
  - simpl. done_case.
  - simpl. destruct isGit; simpl; [destruct (IsShellIntegrated env)|]; done_case.
  - by apply loaded_wellFormed.
  - simpl. eexists. split; [reflexivity|]. unfold cacheStore, ensureCache.
    destruct (prCache m) eqn:Hc; simpl; [rewrite Hc|]; wf_simple.
  - simpl. destruct err; [done_case|]. destruct detail; done_case.
  - simpl. destruct err; done_case.
  - simpl. destruct err; done_case.
  - simpl. destruct err; done_case.
  - simpl. destruct err; done_case.
  - by apply handleKey_wellFormed.
  - simpl. done_case.
Qed.

Lemma InitialModel_wellFormed : wellFormed InitialModel.
Proof. unfold wellFormed, cursorInRange. by vm_compute. Qed.

Lemma run_wellFormed (events : list (Env * Msg)) (m : Model) :
  wellFormed m → ∃ m', run lowerTable m events = Some m' ∧ wellFormed m'.
Proof.
  revert m. induction events as [|[env msg] rest IH]; intros m Hm; simpl; [eauto|].
  destruct (Update_wellFormed env m msg Hm) as (o & -> & Ho). simpl. by apply IH.
Qed.

End Preservation.

(** C4: whatever the sequence of events (key presses, resizes, completion
    messages, each with what the environment answers at that time), run
    from the initial model, after any number [n] of them (all of them for
    [n] large enough) no step has failed and the model reached has its
    cursor within [0, len(worktrees)], for the list loaded at that time. At
    0 the cursor is on the create row; from 1 on, [worktrees[cursor-1]]
    exists. *)
Theorem cursor_stays_in_range
  (lowerTable : rune → rune) (events : list (Env * Msg)) (n : nat) :
  ∃ m, run lowerTable InitialModel (take n events) = Some m ∧
       0 <= cursor m <= slen (worktrees m) ∧
       (cursor m = 0 ∨ ∃ wt, index (worktrees m) (cursor m - 1) = Some wt).
Proof.
  destruct (run_wellFormed lowerTable (take n events) InitialModel
              InitialModel_wellFormed) as (m & Hrun & (Hcur & _)).
  exists m. unfold cursorInRange in Hcur. split; [done|]. split; [lia|].
  destruct (Z.eq_dec (cursor m) 0); [by left | right].
  apply index_in_range. lia.
Qed.

End CursorSpec.

(** ** What reachable models keep *)

Module SteadyFacts.
Import UiFacts.

(** Fields of updated models, read off without expanding the updates. *)
Ltac fields :=
  cbn [state worktrees repoName curBranch cursor width height remoteURL
        stashCount fetchedAgo defaultBranch ghAvailable prCache hasCommits
        newTypeIdx newTypeListOpen newDisplayName newBranch newDescription
        newActiveField newBranchEdited editName selectedCommitIndex
        commitDetailScroll activeCommit errMsg
        set_state set_worktrees set_repoName set_curBranch set_cursor set_width
        set_height set_remoteURL set_stashCount set_fetchedAgo set_defaultBranch
        set_ghAvailable set_prCache set_newTypeIdx set_newTypeListOpen
        set_newDisplayName set_newBranch set_newDescription set_newActiveField
        set_newBranchEdited set_editName set_selectedCommitIndex
        set_commitDetailScroll set_activeCommit set_errMsg
        next cmd effects] in *.

Ltac unfold_model :=
  unfold openNewModal, resetNewModal, noteErr in *; fields.

Lemma noSpace_nil : noSpace [].
Proof. constructor. Qed.

Lemma noSpace_dropLast (s : gostring) : noSpace s → noSpace (dropLast s).
Proof. intros H. unfold dropLast. case_match; [done | by apply Forall_take]. Qed.

Lemma noSpace_typed (old : gostring) (runes : list rune) :
  noSpace old →
  noSpace (old ++ string_of_runes (map (λ r, if IsSpace r then 0x2D else r) runes)).
Proof.
  intros Hold. apply Forall_app. split; [done|].
  unfold string_of_runes. rewrite map_map. apply Forall_forall.
  intros x Hx. apply list_elem_of_In, in_map_iff in Hx as (r & <- & _).
  destruct (IsSpace r) eqn:Hr; [reflexivity|].
  by destruct (validRune r).
Qed.

Lemma isSlugRune_noSpace (r : rune) : isSlugRune r = true → IsSpace r = false.
Proof.
  unfold isSlugRune, keptRune, isLowerAlnum, slash, hyphen. intros H.
  destruct (IsSpace r) eqn:Hs; [|done]. exfalso.
  unfold IsSpace in Hs. SlugSpec.rune_arith.
Qed.

Lemma branchTypes_noSpace (i : Z) (ty : gostring) :
  index branchTypes i = Some ty → noSpace ty.
Proof.
  unfold index. destruct (i <? 0); [done|]. intros H.
  apply list_elem_of_lookup_2 in H.
  assert (Forall noSpace branchTypes) as Hall by (repeat constructor).
  rewrite Forall_forall in Hall. by apply Hall.
Qed.

Section Settled.
Variable lowerTable : rune → rune.

Lemma slugify_noSpace (s : gostring) : noSpace (slugify lowerTable s).
Proof.
  destruct (SlugSpec.slugify_shape lowerTable s) as [H _].
  eapply Forall_impl; [exact H|]. apply isSlugRune_noSpace.
Qed.

(** [recalcBranch] touches the branch field only, and spaces stay out. *)
Lemma recalcBranch_frame (m m' : Model) :
  recalcBranch lowerTable m = Some m' →
  m' = m ∨ ∃ b, m' = set_newBranch b m ∧ noSpace b.
Proof.
  unfold recalcBranch. destruct (newBranchEdited m); [intros [= <-]; by left|].
  destruct (index branchTypes (newTypeIdx m)) as [ty|] eqn:Hty; [|done]. simpl.
  pose proof (branchTypes_noSpace _ _ Hty) as Hns.
  destruct (streq _ _); intros [= <-]; right; eexists; (split; [reflexivity|]).
  - done.
  - apply Forall_app. split; [done|]. simpl.
    constructor; [reflexivity | apply slugify_noSpace].
Qed.

Lemma recalcBranch_settled (m m' : Model) :
  settled m → recalcBranch lowerTable m = Some m' →
  settled m' ∧ state m' = state m.
Proof.
  intros Hs H. apply recalcBranch_frame in H as [->|(b & -> & Hb)]; [done|].
  unfold settled, selected in *. fields. tauto.
Qed.

(** Comparisons met on the way, as arithmetic. *)
Ltac tests_to_props :=
  repeat match goal with
         | H : (_ >? _) = _ |- _ => rewrite Z.gtb_ltb in H
         | H : (_ >=? _) = _ |- _ => rewrite Z.geb_leb in H
         | H : negb _ = true |- _ => apply negb_true_iff in H
         | H : negb _ = false |- _ => apply negb_false_iff in H
         | H : _ && _ = true |- _ => apply andb_true_iff in H as [? ?]
         | H : (_ <? _) = true |- _ => apply Z.ltb_lt in H
         | H : (_ <? _) = false |- _ => apply Z.ltb_ge in H
         | H : (_ <=? _) = true |- _ => apply Z.leb_le in H
         | H : (_ <=? _) = false |- _ => apply Z.leb_gt in H
         | H : (_ =? _) = true |- _ => apply Z.eqb_eq in H
         | H : (_ =? _) = false |- _ => apply Z.eqb_neq in H
         end.

(** Follow a handler down to the outcome it returns. *)
Ltac crack Ho :=
  repeat first
    [ match type of Ho with
      | context [keyIs ?k ?n] =>
          destruct (keyIs k n) eqn:?; cbn [orb andb negb] in Ho; cbv iota beta in Ho
      end
    | match type of Ho with
      | context [maybeFetchPR ?M] =>
          destruct (maybeFetchPR M) eqn:?; cbn [mbind option_bind] in Ho
      end
    | match type of Ho with
      | context [index ?l ?i] =>
          destruct (index l i) eqn:?; cbn [mbind option_bind fmap option_fmap option_map] in Ho
      end
    | match type of Ho with
      | context [if ?b then _ else _] => destruct b eqn:?; cbv iota beta in Ho
      end ];
  try discriminate Ho;
  unfold ret in Ho; try (injection Ho as <-).

Ltac settled_close :=
  unfold settled, selected in *; unfold_model;
  repeat match goal with
         | H : state _ = _ |- _ => rewrite H in *
         end;
  cbn [actsOnSelection] in *; tests_to_props;
  unfold wellFormed, cursorInRange in *;
  intuition (try discriminate; try lia; eauto using noSpace_nil).

Lemma handleNoGit_settled (m : Model) (k : KeyMsg) (o : Outcome) :
  settled m → handleNoGit m k = Some o → settled (next o).
Proof. intros Hs Ho. unfold handleNoGit in Ho. crack Ho; settled_close. Qed.

Lemma handleShellSetup_settled (m : Model) (k : KeyMsg) (o : Outcome) :
  settled m → handleShellSetup m k = Some o → settled (next o).
Proof. intros Hs Ho. unfold handleShellSetup in Ho. crack Ho; settled_close. Qed.

Lemma handleList_settled (m : Model) (k : KeyMsg) (o : Outcome) :
  wellFormed m → settled m → state m = StateList →
  handleList m k = Some o → settled (next o).
Proof.
  intros Hwf Hs Hst Ho. unfold handleList in Ho. crack Ho; settled_close.
Qed.

Ltac with_recalc_in Ho :=
  match type of Ho with
  | context [recalcBranch lowerTable ?M] =>
      let m2 := fresh "m2" in
      let H2 := fresh "H2" in
      destruct (recalcBranch lowerTable M) as [m2|] eqn:H2;
      cbn [mbind option_bind] in Ho; [|discriminate Ho];
      apply recalcBranch_settled in H2 as [? ?]; [|settled_close]
  end.

Lemma handleTypeList_settled (m : Model) (k : KeyMsg) (o : Outcome) :
  settled m → state m = StateNewWorktree →
  handleTypeList lowerTable m k = Some o →
  settled (next o) ∧ state (next o) = StateNewWorktree.
Proof.
  intros Hs Hst Ho. unfold handleTypeList in Ho.
  repeat match type of Ho with
         | context [keyIs ?k ?n] =>
             destruct (keyIs k n) eqn:?; cbn [orb andb negb] in Ho; cbv iota beta in Ho
         end;
    try with_recalc_in Ho; crack Ho; fields; (split; [|congruence]);
    try done; settled_close.
Qed.

Lemma appendRunes_settled (runes : list rune) (m m' : Model) :
  settled m → state m = StateNewWorktree →
  appendRunes lowerTable runes m = Some m' →
  settled m' ∧ state m' = StateNewWorktree.
Proof.
  intros Hs Hst Ho. unfold appendRunes in Ho.
  destruct (newActiveField m =? 0); [injection Ho as <-; done|].
  destruct (newActiveField m =? 1).
  { apply recalcBranch_settled in Ho as [? Hst']; [|settled_close].
    split; [done|]. rewrite Hst'. by fields. }
  destruct (newActiveField m =? 2).
  { injection Ho as <-. split; [|by fields].
    destruct Hs as (? & Hns & ? & ?). unfold settled, selected. fields.
    rewrite Hst. split; [done|]. split; [by apply noSpace_typed | done]. }
  destruct (newActiveField m =? 3); injection Ho as <-; [|done].
  split; [|by fields]. settled_close.
Qed.

Lemma deleteChar_settled (m m' : Model) :
  settled m → state m = StateNewWorktree →
  deleteChar lowerTable m = Some m' →
  settled m' ∧ state m' = StateNewWorktree.
Proof.
  intros Hs Hst Ho. unfold deleteChar in Ho.
  destruct (newActiveField m =? 1).
  { apply recalcBranch_settled in Ho as [? Hst']; [|settled_close].
    split; [done|]. rewrite Hst'. by fields. }
  destruct (newActiveField m =? 2).
  { injection Ho as <-. split; [|by fields].
    destruct Hs as (? & Hns & ? & ?). unfold settled, selected. fields.
    rewrite Hst. split; [done|]. split; [by apply noSpace_dropLast | done]. }
  destruct (newActiveField m =? 3); injection Ho as <-; [|done].
  split; [|by fields]. settled_close.
Qed.

Lemma rem4_range (f : Z) (d : Z) : 0 <= f → 0 <= d → 0 <= Z.rem (f + d) 4 <= 3.
Proof.
  intros Hf Hd. pose proof (Z.rem_bound_pos (f + d) 4 ltac:(lia) ltac:(lia)). lia.
Qed.

Lemma handleNewWorktree_settled (env : Env) (m : Model) (k : KeyMsg) (o : Outcome) :
  settled m → state m = StateNewWorktree →
  handleNewWorktree lowerTable env m k = Some o → settled (next o).
Proof.
  intros Hs Hst Ho. unfold handleNewWorktree in Ho.
  destruct (newTypeListOpen m); [by apply handleTypeList_settled in Ho as [? _]|].
  destruct (Type_ k).
  - destruct (appendRunes lowerTable (Runes k) m) as [m'|] eqn:Ha; [|done].
    injection Ho as <-. by apply appendRunes_settled in Ha as [? _].
  - crack Ho; settled_close.
  - crack Ho; settled_close.
  - injection Ho as <-. destruct Hs as ((? & ?) & ? & ? & ?).
    pose proof (rem4_range (newActiveField m) 1 ltac:(done) ltac:(lia)).
    unfold settled, selected. fields. rewrite Hst. done.
  - injection Ho as <-. destruct Hs as ((? & ?) & ? & ? & ?).
    pose proof (rem4_range (newActiveField m) 3 ltac:(done) ltac:(lia)).
    unfold settled, selected. fields. rewrite Hst. done.
  - injection Ho as <-. destruct Hs as ((? & ?) & ? & ? & ?).
    pose proof (rem4_range (newActiveField m) 1 ltac:(done) ltac:(lia)).
    unfold settled, selected. fields. rewrite Hst. done.
  - destruct (appendRunes lowerTable [32] m) as [m'|] eqn:Ha; [|done].
    injection Ho as <-. by apply appendRunes_settled in Ha as [? _].
  - destruct (deleteChar lowerTable m) as [m'|] eqn:Ha; [|done].
    injection Ho as <-. by apply deleteChar_settled in Ha as [? _].
  - crack Ho; settled_close.
  - crack Ho; settled_close.
Qed.

Lemma handleRightPaneFocused_settled (m : Model) (k : KeyMsg) (o : Outcome) :
  settled m → state m = StateRightPaneFocused →
  handleRightPaneFocused m k = Some o → settled (next o).
Proof.
  intros Hs Hst Ho. unfold handleRightPaneFocused in Ho.
  destruct (if (cursor m >? 0) && (cursor m - 1 <? slen (worktrees m))
            then Worktree.Commits <$> index (worktrees m) (cursor m - 1)
            else Some []) as [commits|]; [|done].
  cbn [mbind option_bind] in Ho. crack Ho; settled_close.
Qed.

Lemma handleCommitDetail_settled (m : Model) (k : KeyMsg) (o : Outcome) :
  settled m → state m = StateCommitDetail →
  handleCommitDetail m k = Some o → settled (next o).
Proof. intros Hs Hst Ho. unfold handleCommitDetail in Ho. crack Ho; settled_close. Qed.

Lemma handleEditWorktree_settled (m : Model) (k : KeyMsg) (o : Outcome) :
  settled m → state m = StateEditWorktree →
  handleEditWorktree m k = Some o → settled (next o).
Proof.
  intros Hs Hst Ho. unfold handleEditWorktree in Ho.
  destruct (Type_ k); crack Ho; settled_close.
Qed.

Lemma handleDeleteConfirm_settled (m : Model) (k : KeyMsg) (o : Outcome) :
  settled m → state m = StateDeleteConfirm →
  handleDeleteConfirm m k = Some o → settled (next o).
Proof. intros Hs Hst Ho. unfold handleDeleteConfirm in Ho. crack Ho; settled_close. Qed.

Lemma handleKey_settled (env : Env) (m : Model) (k : KeyMsg) (o : Outcome) :
  wellFormed m → settled m →
  handleKey lowerTable env m k = Some o → settled (next o).
Proof.
  intros Hwf Hs Ho. unfold handleKey in Ho.
  destruct (keyIs k "ctrl+c"); [injection Ho as <-; done|].
  destruct (negb _); [injection Ho as <-; settled_close|].
  destruct (state m) eqn:Hst.
  - by apply handleNoGit_settled in Ho.
  - by apply handleShellSetup_settled in Ho.
  - by apply handleList_settled in Ho.
  - by apply handleNewWorktree_settled in Ho.
  - by apply handleEditWorktree_settled in Ho.
  - by apply handleDeleteConfirm_settled in Ho.
  - by apply handleRightPaneFocused_settled in Ho.
  - by apply handleCommitDetail_settled in Ho.
Qed.

(** A model with another cache is the same model to [settled]. *)
Lemma ensureCache_same (m : Model) :
  (∃ c, ensureCache m = set_prCache c m) ∨ ensureCache m = m.
Proof. unfold ensureCache. destruct (prCache m); eauto. Qed.

Lemma loaded_settled (env : Env) (m : Model) (l : worktreesLoaded) (o : Outcome) :
  settled m →
  Update lowerTable env m (worktreesLoadedMsg l) = Some o → settled (next o).
Proof.
  intros Hs Ho. unfold Update in Ho. destruct (l_err l) as [e|].
  { injection Ho as <-. settled_close. }
  cbv zeta in Ho.
  match type of Ho with context [ensureCache ?X] => set (m8 := X) in Ho end.
  set (m9 := set_state StateList (ensureCache m8)) in Ho.
  assert (state m9 = StateList ∧ newActiveField m9 = newActiveField m
          ∧ newBranch m9 = newBranch m) as (Hst9 & Hf9 & Hb9).
  { subst m9. fields. destruct (ensureCache_same m8) as [[c ->] | ->];
      subst m8; fields; done. }
  clearbody m9. clear m8.
  destruct (maybeFetchPR _) as [c|] eqn:Hfetch; [|done].
  cbn [mbind option_bind] in Ho. injection Ho as <-. fields.
  destruct Hs as (Hf & Hb & _ & _).
  destruct (cursor m9 >? slen (worktrees m9));
    unfold settled, selected; fields; rewrite Hst9, Hf9, Hb9;
    (split; [done|]); (split; [done|]); split; intros; discriminate.
Qed.

Lemma Update_settled (env : Env) (m : Model) (msg : Msg) (o : Outcome) :
  wellFormed m → settled m →
  Update lowerTable env m msg = Some o → settled (next o).
Proof.
  intros Hwf Hs Ho.
  destruct msg as [w h|isGit|l|br info|detail err|err|err|err|err|k|].
  - simpl in Ho. injection Ho as <-. settled_close.
  - simpl in Ho. crack Ho; settled_close.
  - by apply loaded_settled in Ho.
  - simpl in Ho. injection Ho as <-.
    unfold cacheStore. destruct (ensureCache_same m) as [[c He] | He]; rewrite He.
    + fields. destruct c; settled_close.
    + destruct (prCache m); settled_close.
  - simpl in Ho. destruct err; [|destruct detail]; injection Ho as <-; settled_close.
  - simpl in Ho. destruct err; injection Ho as <-; settled_close.
  - simpl in Ho. destruct err; injection Ho as <-; settled_close.
  - simpl in Ho. destruct err; simpl in Ho; destruct (cursor m >? 0);
      injection Ho as <-; settled_close.
  - simpl in Ho. destruct err; injection Ho as <-; settled_close.
  - by apply handleKey_settled in Ho.
  - simpl in Ho. injection Ho as <-. done.
Qed.

Lemma Update_steady (env : Env) (m : Model) (msg : Msg) (o : Outcome) :
  steady m → Update lowerTable env m msg = Some o → steady (next o).
Proof.
  intros [Hwf Hs] Ho. split.
  - destruct (CursorSpec.Update_wellFormed lowerTable env m msg Hwf) as (o' & Ho' & ?).
    congruence.
  - by apply Update_settled in Ho.
Qed.

Lemma InitialModel_steady : steady InitialModel.
Proof.
  split; [apply CursorSpec.InitialModel_wellFormed|].
  unfold settled, selected. cbn. split_and!; try done; try lia. constructor.
Qed.

Lemma reachable_steady (m : Model) : reachable lowerTable m → steady m.
Proof.
  induction 1 as [|m env msg o _ IH Ho]; [apply InitialModel_steady|].
  by apply Update_steady in Ho.
Qed.

(** [Update] never panics in a reachable model. *)
Lemma reachable_Update_total (m : Model) (env : Env) (msg : Msg) :
  reachable lowerTable m → ∃ o, Update lowerTable env m msg = Some o.
Proof.
  intros Hm. apply reachable_steady in Hm as [Hwf _].
  destruct (CursorSpec.Update_wellFormed lowerTable env m msg Hwf) as (o & Ho & _).
  eauto.
Qed.

Lemma run_reachable (events : list (Env * Msg)) (m m' : Model) :
  reachable lowerTable m → run lowerTable m events = Some m' →
  reachable lowerTable m'.
Proof.
  revert m. induction events as [|[env msg] rest IH]; intros m Hm; simpl.
  { by intros [= <-]. }
  destruct (Update lowerTable env m msg) as [o|] eqn:Ho; [|done]. simpl.
  apply IH. by eapply reach_step.
Qed.

Lemma maybeFetchPR_cmd (m : Model) (c : Cmd) :
  maybeFetchPR m = Some (Some c) → ∃ b, c = fetchPR b.
Proof.
  unfold maybeFetchPR. intros H.
  repeat match type of H with
         | context [if ?b then _ else _] => destruct b; cbv iota beta in H
         | context [index ?l ?i] =>
             destruct (index l i); cbn [mbind option_bind] in H
         | context [cacheLookup ?m ?b] => destruct (cacheLookup m b)
         end; try discriminate H.
  injection H as <-. eauto.
Qed.

Ltac origin_close :=
  unfold issuedBy, selected; fields;
  repeat match goal with
         | H : maybeFetchPR ?M = Some ?c |- _ =>
             destruct c as [?c|];
             [destruct (maybeFetchPR_cmd _ _ H) as [? ->]|]
         end;
  try done; tests_to_props;
  repeat match goal with
         | H : streq _ _ = false |- _ => apply streq_false in H
         | H : streq _ _ = true |- _ => apply streq_true in H
         end;
  intuition (try done; eauto 8).

Lemma handleKey_issuedBy (env : Env) (m : Model) (k : KeyMsg) (o : Outcome) :
  handleKey lowerTable env m k = Some o → issuedBy env m o.
Proof.
  intros Ho. unfold handleKey in Ho.
  destruct (keyIs k "ctrl+c"); [injection Ho as <-; done|].
  destruct (negb _); [injection Ho as <-; done|].
  destruct (state m) eqn:Hst.
  - unfold handleNoGit in Ho. crack Ho; origin_close.
  - unfold handleShellSetup in Ho. crack Ho; origin_close.
  - unfold handleList in Ho. crack Ho; origin_close.
  - unfold handleNewWorktree in Ho.
    destruct (newTypeListOpen m).
    { unfold handleTypeList in Ho.
      repeat match type of Ho with
             | context [keyIs ?k ?n] =>
                 destruct (keyIs k n) eqn:?; cbn [orb andb negb] in Ho;
                 cbv iota beta in Ho
             end;
        try (destruct (recalcBranch _ _); cbn [mbind option_bind] in Ho);
        crack Ho; origin_close. }
    destruct (Type_ k);
      try (destruct (appendRunes _ _ _); cbn [mbind option_bind] in Ho);
      try (destruct (deleteChar _ _); cbn [mbind option_bind] in Ho);
      crack Ho; origin_close.
  - unfold handleEditWorktree in Ho. destruct (Type_ k); crack Ho; origin_close.
  - unfold handleDeleteConfirm in Ho. crack Ho; origin_close.
  - unfold handleRightPaneFocused in Ho.
    destruct (if (cursor m >? 0) && (cursor m - 1 <? slen (worktrees m))
              then Worktree.Commits <$> index (worktrees m) (cursor m - 1)
              else Some []) as [commits|] eqn:Hc; [|done].
    cbn [mbind option_bind] in Ho. crack Ho; try origin_close.
    destruct ((cursor m >? 0) && (cursor m - 1 <? slen (worktrees m)));
      [|injection Hc as <-; unfold slen in *; simpl in *; lia].
    injection Hc as <-. eauto 8.
  - unfold handleCommitDetail in Ho. crack Ho; origin_close.
Qed.

Lemma Update_issuedBy (env : Env) (m : Model) (msg : Msg) (o : Outcome) :
  Update lowerTable env m msg = Some o → issuedBy env m o.
Proof.
  intros Ho. destruct msg as [w h|isGit|l|br info|detail err|err|err|err|err|k|].
  - simpl in Ho. by injection Ho as <-.
  - simpl in Ho. crack Ho; done.
  - unfold Update in Ho. destruct (l_err l); [by injection Ho as <-|].
    cbv zeta in Ho.
    match type of Ho with
    | context [maybeFetchPR ?M] => set (m' := M) in Ho; clearbody m'
    end.
    destruct (maybeFetchPR m') as [c|] eqn:Hfetch; [|done].
    cbn [mbind option_bind] in Ho. injection Ho as <-.
    unfold issuedBy. cbn [cmd next]. destruct c as [c|]; [|done].
    by destruct (maybeFetchPR_cmd _ _ Hfetch) as [b ->].
  - simpl in Ho. by injection Ho as <-.
  - simpl in Ho. destruct err; [|destruct detail]; by injection Ho as <-.
  - simpl in Ho. destruct err; by injection Ho as <-.
  - simpl in Ho. by injection Ho as <-.
  - simpl in Ho. by injection Ho as <-.
  - simpl in Ho. by injection Ho as <-.
  - by apply handleKey_issuedBy in Ho.
  - simpl in Ho. by injection Ho as <-.
Qed.

Lemma sameData_refl (m : Model) : sameData m m.
Proof. unfold sameData. tauto. Qed.

Ltac data_close := unfold sameData; unfold_model; tauto.

Lemma recalcBranch_sameData (m m' : Model) :
  recalcBranch lowerTable m = Some m' → sameData m m'.
Proof.
  intros H. apply recalcBranch_frame in H as [->|(b & -> & _)];
    [apply sameData_refl | data_close].
Qed.

Lemma sameData_trans (a b c : Model) : sameData a b → sameData b c → sameData a c.
Proof. unfold sameData. intuition congruence. Qed.

Lemma appendRunes_sameData (runes : list rune) (m m' : Model) :
  appendRunes lowerTable runes m = Some m' → sameData m m'.
Proof.
  unfold appendRunes. intros H.
  repeat match type of H with
         | context [newActiveField m =? ?n] => destruct (newActiveField m =? n)
         end;
    try (injection H as <-; data_close).
  apply recalcBranch_sameData in H.
  eapply sameData_trans; [|exact H]. data_close.
Qed.

Lemma deleteChar_sameData (m m' : Model) :
  deleteChar lowerTable m = Some m' → sameData m m'.
Proof.
  unfold deleteChar. intros H.
  repeat match type of H with
         | context [newActiveField m =? ?n] => destruct (newActiveField m =? n)
         end;
    try (injection H as <-; data_close).
  apply recalcBranch_sameData in H.
  eapply sameData_trans; [|exact H]. data_close.
Qed.

Lemma handleKey_sameData (env : Env) (m : Model) (k : KeyMsg) (o : Outcome) :
  handleKey lowerTable env m k = Some o → sameData m (next o).
Proof.
  intros Ho. unfold handleKey in Ho.
  destruct (keyIs k "ctrl+c"); [injection Ho as <-; data_close|].
  destruct (negb _); [injection Ho as <-; data_close|].
  destruct (state m) eqn:Hst.
  - unfold handleNoGit in Ho. crack Ho; data_close.
  - unfold handleShellSetup in Ho. crack Ho; data_close.
  - unfold handleList in Ho. crack Ho; data_close.
  - unfold handleNewWorktree in Ho.
    destruct (newTypeListOpen m).
    { unfold handleTypeList in Ho.
      repeat match type of Ho with
             | context [keyIs ?k ?n] =>
                 destruct (keyIs k n) eqn:?; cbn [orb andb negb] in Ho;
                 cbv iota beta in Ho
             end;
        try (destruct (recalcBranch _ _) eqn:Hr; cbn [mbind option_bind] in Ho;
             [apply recalcBranch_sameData in Hr|discriminate Ho];
             injection Ho as <-; cbn [next];
             eapply sameData_trans; [|exact Hr]; data_close);
        crack Ho; data_close. }
    destruct (Type_ k);
      try (destruct (appendRunes _ _ _) eqn:Hr; cbn [mbind option_bind] in Ho;
           [apply appendRunes_sameData in Hr|discriminate Ho];
           injection Ho as <-; exact Hr);
      try (destruct (deleteChar _ _) eqn:Hr; cbn [mbind option_bind] in Ho;
           [apply deleteChar_sameData in Hr|discriminate Ho];
           injection Ho as <-; exact Hr);
      crack Ho; data_close.
  - unfold handleEditWorktree in Ho. destruct (Type_ k); crack Ho; data_close.
  - unfold handleDeleteConfirm in Ho. crack Ho; data_close.
  - unfold handleRightPaneFocused in Ho.
    destruct (if (cursor m >? 0) && (cursor m - 1 <? slen (worktrees m))
              then Worktree.Commits <$> index (worktrees m) (cursor m - 1)
              else Some []) as [commits|] eqn:Hc; [|done].
    cbn [mbind option_bind] in Ho. crack Ho; data_close.
  - unfold handleCommitDetail in Ho. crack Ho; data_close.
Qed.

End Settled.
End SteadyFacts.

(** ** Commands and what they act on *)

Module SafetySpec.
Import UiFacts SteadyFacts.

Lemma ReplaceAll_free (s : gostring) (old new : rune) :
  old ≠ new → old ∉ ReplaceAll s old new.
Proof.
  intros Hne Hin. unfold ReplaceAll in Hin.
  apply list_elem_of_In, in_map_iff in Hin as (r & Hr & _).
  destruct (Z.eqb_spec r old); congruence.
Qed.

(** X1: in any model the program can reach, a delete command is issued only
    from the delete confirmation, for the worktree under the cursor, and
    that worktree is never the primary one. *)
Theorem delete_never_targets_primary
  (lowerTable : rune → rune) (m : Model) (env : Env) (msg : Msg) (o : Outcome)
  (b p : gostring) :
  reachable lowerTable m →
  Update lowerTable env m msg = Some o →
  cmd o = Some (deleteWorktree b p) →
  state m = StateDeleteConfirm ∧
  ∃ wt, selected m = Some wt ∧ Worktree.IsMain wt = false ∧
        b = Worktree.Branch wt ∧ p = Worktree.Path wt.
Proof.
  intros Hm Ho Hc. apply reachable_steady in Hm as (_ & _ & _ & _ & Hdel).
  apply Update_issuedBy in Ho. unfold issuedBy in Ho. rewrite Hc in Ho.
  destruct Ho as (Hst & wt & Hsel & -> & ->). split; [done|].
  destruct (Hdel Hst) as (wt' & Hsel' & Hmain).
  exists wt. split_and!; try done. congruence.
Qed.

(** The theorem at work: after loading three worktrees, moving to the second
    and pressing "d", "y" deletes "feat/a", which is not the primary one. *)
Lemma delete_never_targets_primary_witness :
  ∃ o wt, Update noTable someEnv confirming (tea_KeyMsg (runeKey "y")) = Some o ∧
          cmd o = Some (deleteWorktree (lit "feat/a") (lit "/repo/.wt/feat/a")) ∧
          selected confirming = Some wt ∧ Worktree.IsMain wt = false ∧
          Worktree.Branch wt = lit "feat/a".
Proof.
  assert (reachable noTable confirming) as Hreach.
  { apply (run_reachable noTable toDeleteConfirm InitialModel);
      [apply reach_init | by vm_compute]. }
  destruct (Update noTable someEnv confirming (tea_KeyMsg (runeKey "y")))
    as [o|] eqn:Ho; [|by vm_compute in Ho].
  assert (cmd o = Some (deleteWorktree (lit "feat/a") (lit "/repo/.wt/feat/a")))
    as Hc.
  { vm_compute in Ho. injection Ho as <-. reflexivity. }
  destruct (delete_never_targets_primary noTable confirming someEnv _ o _ _
              Hreach Ho Hc) as (_ & wt & Hsel & Hmain & Hb & _).
  exists o, wt. split_and!; done.
Defined.

(** [filepath.Join] on a clean root and plain elements. *)
Lemma Split_plain (e t : gostring) :
  0x2F ∉ e → Split (e ++ 0x2F :: t) 0x2F = e :: Split t 0x2F.
Proof.
  induction e as [|r e IH]; intros Hn; [done|].
  assert (r ≠ 0x2F) as Hr by (intros ->; apply Hn; left).
  assert (0x2F ∉ e) as He by (intros H; apply Hn; by right).
  cbn [app Split]. apply Z.eqb_neq in Hr as ->. by rewrite IH.
Qed.

Lemma Split_one (e : gostring) : 0x2F ∉ e → Split e 0x2F = [e].
Proof.
  induction e as [|r e IH]; intros Hn; [done|].
  assert (r ≠ 0x2F) as Hr by (intros ->; apply Hn; left).
  assert (0x2F ∉ e) as He by (intros H; apply Hn; by right).
  cbn [Split]. apply Z.eqb_neq in Hr as ->. by rewrite IH.
Qed.

Lemma Split_elements (es : list gostring) (e : gostring) :
  Forall plainElement es → 0x2F ∉ e →
  Split (e ++ concat (map (cons 0x2F) es)) 0x2F = e :: es.
Proof.
  intros Hes. revert e. induction Hes as [|e' es He' Hes IH]; intros e He.
  - simpl. rewrite app_nil_r. by apply Split_one.
  - cbn [map concat]. cbn [app]. rewrite Split_plain by done.
    rewrite IH; [done|]. by destruct He' as (_ & ? & _).
Qed.

Lemma cleanStep_plain (rooted : bool) (stack : list gostring) (e : gostring) :
  plainElement e → cleanStep rooted stack e = e :: stack.
Proof.
  intros (H0 & _ & H1 & H2). unfold cleanStep.
  apply streq_false in H0 as ->. apply streq_false in H1. apply streq_false in H2.
  change (lit ".") with [0x2E] in H1. change (lit "..") with [0x2E; 0x2E] in H2.
  by rewrite H1, H2.
Qed.

Lemma fold_cleanStep_plain (rooted : bool) (es stack : list gostring) :
  Forall plainElement es →
  fold_left (cleanStep rooted) es stack = reverse es ++ stack.
Proof.
  intros Hes. revert stack. induction Hes as [|e es He Hes IH]; intros stack; [done|].
  cbn [fold_left]. rewrite cleanStep_plain by done. rewrite IH.
  by rewrite reverse_cons, <- app_assoc.
Qed.

Lemma Join_slashes (es : list gostring) :
  es ≠ [] → 0x2F :: Join es [0x2F] = concat (map (cons 0x2F) es).
Proof.
  induction es as [|e es IH]; [done|]. intros _.
  destruct es as [|e' es].
  - simpl. by rewrite app_nil_r.
  - change (0x2F :: Join (e :: e' :: es) [0x2F])
      with ((0x2F :: e) ++ (0x2F :: Join (e' :: es) [0x2F])).
    by rewrite IH.
Qed.

Lemma filepath_Clean_elements (es : list gostring) :
  es ≠ [] → Forall plainElement es →
  filepath_Clean (concat (map (cons 0x2F) es)) = concat (map (cons 0x2F) es).
Proof.
  intros Hne Hes. unfold filepath_Clean.
  pose proof (Split_elements es [] Hes (not_elem_of_nil _)) as Hs. cbn [app] in Hs.
  rewrite Hs.
  assert (streq (concat (map (cons 0x2F) es)) [] = false) as ->.
  { apply streq_false. by destruct es. }
  rewrite bool_decide_eq_true_2 by (by destruct es).
  change (fold_left (cleanStep true) ([] :: es) [])
    with (fold_left (cleanStep true) es []).
  rewrite fold_cleanStep_plain by done. rewrite app_nil_r, reverse_involutive.
  by rewrite Join_slashes.
Qed.

Lemma filepath_Join_under_root (root a b : gostring) :
  cleanAbsolute root → plainElement a → plainElement b →
  filepath_Join [root; a; b] = root ++ [0x2F] ++ a ++ [0x2F] ++ b.
Proof.
  intros (es & Hne & Hes & ->) Ha Hb.
  assert (concat (map (cons 0x2F) es) ++ [0x2F] ++ a ++ [0x2F] ++ b
          = concat (map (cons 0x2F) (es ++ [a; b]))) as Hjoin.
  { rewrite map_app, concat_app. simpl. by rewrite app_nil_r. }
  unfold filepath_Join.
  assert (streq (concat (map (cons 0x2F) es)) [] = false) as ->.
  { apply streq_false. by destruct es. }
  change (Join [?r; a; b] [0x2F]) with (r ++ [0x2F] ++ a ++ [0x2F] ++ b).
  rewrite Hjoin. apply filepath_Clean_elements.
  - by destruct es.
  - apply Forall_app. split; [done|]. by repeat apply Forall_cons_2.
Qed.

(** X2: in any model the program can reach, a create command carries a
    display name and a branch that are not empty and a branch without any
    white space; its directory is [filepath.Join] of the repository root,
    ".wt" and the branch with every slash turned into a hyphen, a name
    free of slashes and as long as the branch. When the root is a clean
    absolute path and that name is neither "." nor "..", the directory is
    the root followed by "/.wt/" and the name. *)
Theorem create_command_well_formed
  (lowerTable : rune → rune) (m : Model) (env : Env) (msg : Msg) (o : Outcome)
  (dn br desc path : gostring) :
  reachable lowerTable m →
  Update lowerTable env m msg = Some o →
  cmd o = Some (createWorktree dn br path desc) →
  dn ≠ [] ∧ br ≠ [] ∧ noSpace br ∧
  ∃ dir, dir = ReplaceAll br 0x2F 0x2D ∧ (0x2F ∉ dir) ∧
         runeCount dir = runeCount br ∧
         path = filepath_Join [GetRepoRoot env; lit ".wt"; dir] ∧
         (cleanAbsolute (GetRepoRoot env) → dir ≠ lit "." → dir ≠ lit ".." →
          path = GetRepoRoot env ++ lit "/.wt/" ++ dir).
Proof.
  intros Hm Ho Hc. apply reachable_steady in Hm as (_ & _ & Hns & _ & _).
  apply Update_issuedBy in Ho. unfold issuedBy in Ho. rewrite Hc in Ho.
  destruct Ho as (_ & -> & Hdn & -> & Hbr & -> & ->).
  split_and!; try done. eexists. split_and!; try reflexivity.
  - by apply ReplaceAll_free.
  - unfold runeCount, ReplaceAll. by rewrite length_map.
  - intros Hroot Hdot Hdots.
    rewrite filepath_Join_under_root; [done | done | | ].
    + split_and!; [done | | done | done].
      intros Hin. apply list_elem_of_In in Hin. simpl in Hin. intuition lia.
    + split_and!; [|by apply ReplaceAll_free|done|done].
      unfold ReplaceAll. by destruct (newBranch m).
Qed.

(** The theorem at work: "Auth Refresh" submitted as a feature worktree of
    the repository at "/repo". *)
Lemma create_command_well_formed_witness :
  ∃ o, Update noTable someEnv filledForm (tea_KeyMsg (key KeyEnter)) = Some o ∧
       cmd o = Some (createWorktree (lit "Auth Refresh") (lit "feat/auth-refresh")
                       (lit "/repo/.wt/feat-auth-refresh") []) ∧
       noSpace (lit "feat/auth-refresh") ∧
       lit "/repo/.wt/feat-auth-refresh"
       = GetRepoRoot someEnv ++ lit "/.wt/" ++ lit "feat-auth-refresh".
Proof.
  assert (reachable noTable filledForm) as Hreach.
  { apply (run_reachable noTable toFilledForm InitialModel);
      [apply reach_init | by vm_compute]. }
  destruct (Update noTable someEnv filledForm (tea_KeyMsg (key KeyEnter)))
    as [o|] eqn:Ho; [|by vm_compute in Ho].
  assert (cmd o = Some (createWorktree (lit "Auth Refresh") (lit "feat/auth-refresh")
                          (lit "/repo/.wt/feat-auth-refresh") []))
    as Hc.
  { vm_compute in Ho. injection Ho as <-. reflexivity. }
  destruct (create_command_well_formed noTable filledForm someEnv _ o _ _ _ _
              Hreach Ho Hc) as (_ & _ & Hns & dir & -> & _ & _ & _ & Hdir).
  exists o. split_and!; [done..|].
  apply Hdir; [|discriminate|discriminate].
  exists [lit "repo"]. split_and!; [done| |reflexivity].
  repeat constructor; try discriminate.
  intros Hin. apply list_elem_of_In in Hin. simpl in Hin. intuition lia.
Defined.

Lemma maybeFetchPR_fetch (m : Model) (b : gostring) :
  maybeFetchPR m = Some (Some (fetchPR b)) →
  ghAvailable m = true ∧ 1 <= cursor m ∧
  ∃ wt, selected m = Some wt ∧ Worktree.IsMain wt = false ∧
        Worktree.Branch wt = b ∧ cacheLookup m b = None.
Proof.
  unfold maybeFetchPR, selected. intros H.
  destruct (negb (ghAvailable m)) eqn:Hgh; [done|]. apply negb_false_iff in Hgh.
  destruct (Z.eqb_spec (cursor m) 0); [done|].
  destruct (cursor m - 1 >=? slen (worktrees m)) eqn:Hin; [done|].
  cbn [orb] in H.
  destruct (index (worktrees m) (cursor m - 1)) as [wt|] eqn:Hwt; [|done].
  cbn [mbind option_bind] in H.
  destruct (Worktree.IsMain wt) eqn:Hmain; [done|].
  destruct (cacheLookup m (Worktree.Branch wt)) eqn:Hc; [done|].
  injection H as <-. apply index_Some_range in Hwt as Hr.
  split_and!; [done | lia |]. eauto.
Qed.

(** X3: whatever the model and the message, a PR fetch is issued only when
    the gh tool is available, only for the branch of the worktree under the
    cursor of the model returned, never for the primary worktree, and only
    when the cache has no entry for that branch. *)
Theorem fetch_only_for_uncached_selection
  (lowerTable : rune → rune) (m : Model) (env : Env) (msg : Msg) (o : Outcome)
  (b : gostring) :
  Update lowerTable env m msg = Some o →
  cmd o = Some (fetchPR b) →
  ghAvailable (next o) = true ∧ 1 <= cursor (next o) ∧
  ∃ wt, selected (next o) = Some wt ∧ Worktree.IsMain wt = false ∧
        Worktree.Branch wt = b ∧ cacheLookup (next o) b = None.
Proof.
  intros Ho Hc. apply Update_issuedBy in Ho. unfold issuedBy in Ho.
  rewrite Hc in Ho. by apply maybeFetchPR_fetch.
Qed.

(** The theorem at work: moving down from the primary worktree to "feat/a". *)
Lemma fetch_only_for_uncached_selection_witness :
  ∃ o, Update noTable someEnv onMain (tea_KeyMsg (key KeyDown)) = Some o ∧
       cmd o = Some (fetchPR (lit "feat/a")) ∧
       cursor (next o) = 2 ∧
       cacheLookup (next o) (lit "feat/a") = None.
Proof.
  destruct (Update noTable someEnv onMain (tea_KeyMsg (key KeyDown)))
    as [o|] eqn:Ho; [|by vm_compute in Ho].
  assert (cmd o = Some (fetchPR (lit "feat/a")) ∧ cursor (next o) = 2) as [Hc Hcur].
  { vm_compute in Ho. injection Ho as <-. split; reflexivity. }
  destruct (fetch_only_for_uncached_selection noTable onMain someEnv _ o _ Ho Hc)
    as (_ & _ & wt & _ & _ & _ & Hnone).
  exists o. split_and!; done.
Defined.

Lemma cacheLookup_ensureCache (m : Model) (b : gostring) :
  cacheLookup (ensureCache m) b = cacheLookup m b.
Proof.
  unfold cacheLookup, ensureCache. destruct (prCache m) eqn:Hc; fields.
  - by rewrite Hc.
  - apply lookup_empty.
Qed.

Lemma sameData_cacheLookup (m m' : Model) (b : gostring) :
  sameData m m' → cacheLookup m' b = cacheLookup m b.
Proof. intros H. unfold cacheLookup. destruct H as (_&_&_&_&_&_&_&_&->&_). done. Qed.

(** A cache entry, once there, stays there. *)
Lemma Update_cache_kept
  (lowerTable : rune → rune) (env : Env) (m : Model) (msg : Msg) (o : Outcome)
  (b : gostring) :
  is_Some (cacheLookup m b) →
  Update lowerTable env m msg = Some o →
  is_Some (cacheLookup (next o) b).
Proof.
  intros Hb Ho.
  destruct msg as [w h|isGit|l|br info|detail err|err|err|err|err|k|].
  - simpl in Ho. by injection Ho as <-.
  - simpl in Ho. destruct isGit; simpl in Ho; [destruct (IsShellIntegrated env)|];
      by injection Ho as <-.
  - unfold Update in Ho. destruct (l_err l); [by injection Ho as <-|].
    cbv zeta in Ho.
    match type of Ho with context [ensureCache ?X] => set (m8 := X) in Ho end.
    assert (cacheLookup (ensureCache m8) b = cacheLookup m b) as He.
    { rewrite cacheLookup_ensureCache. subst m8. unfold cacheLookup. by fields. }
    set (m9 := set_state StateList (ensureCache m8)) in Ho.
    assert (cacheLookup m9 b = cacheLookup m b) as H9.
    { rewrite <- He. subst m9. unfold cacheLookup. by fields. }
    clearbody m9. clear He. clearbody m8.
    destruct (maybeFetchPR _) as [c|]; [|done].
    cbn [mbind option_bind] in Ho. injection Ho as <-. cbn [next].
    destruct (cursor m9 >? slen (worktrees m9));
      [|by rewrite H9].
    unfold cacheLookup in *. fields. by rewrite H9.
  - simpl in Ho. injection Ho as <-. cbn [next].
    unfold cacheStore.
    pose proof (cacheLookup_ensureCache m) as He.
    destruct (prCache (ensureCache m)) as [c|] eqn:Hc.
    + unfold cacheLookup. fields.
      destruct (decide (br = b)) as [->|Hne].
      * rewrite lookup_insert_eq. eauto.
      * rewrite lookup_insert_ne by done.
        specialize (He b). unfold cacheLookup in He at 1. rewrite Hc in He.
        by rewrite He.
    + by rewrite He.
  - simpl in Ho. destruct err; [|destruct detail]; by injection Ho as <-.
  - simpl in Ho. destruct err; by injection Ho as <-.
  - simpl in Ho. destruct err; by injection Ho as <-.
  - simpl in Ho. destruct err; simpl in Ho; destruct (cursor m >? 0);
      by injection Ho as <-.
  - simpl in Ho. destruct err; by injection Ho as <-.
  - apply handleKey_sameData in Ho. by rewrite (sameData_cacheLookup m).
  - simpl in Ho. by injection Ho as <-.
Qed.

(** X4: a branch whose PR status is in the cache is never fetched again:
    from a model whose cache has an entry for a branch, no sequence of
    events makes the program issue a PR fetch for that branch. *)
Theorem cached_branch_never_fetched_again
  (lowerTable : rune → rune) (events : list (Env * Msg)) (m : Model) (b : gostring) :
  is_Some (cacheLookup m b) →
  fetchPR b ∉ runCmds lowerTable m events.
Proof.
  revert m. induction events as [|[env msg] rest IH]; intros m Hb; simpl.
  { apply not_elem_of_nil. }
  destruct (Update lowerTable env m msg) as [o|] eqn:Ho; [|apply not_elem_of_nil].
  pose proof (Update_cache_kept lowerTable env m msg o b Hb Ho) as Hb'.
  intros Hin. apply elem_of_app in Hin as [Hin|Hin]; [|by apply (IH (next o))].
  destruct (cmd o) as [c|] eqn:Hc; [|by apply elem_of_nil in Hin].
  apply list_elem_of_singleton in Hin as <-.
  apply Update_issuedBy in Ho. unfold issuedBy in Ho. rewrite Hc in Ho.
  apply maybeFetchPR_fetch in Ho as (_ & _ & wt & _ & _ & _ & Hnone).
  rewrite Hnone in Hb'. by destruct Hb'.
Qed.

(** The theorem at work: walking over "feat/a" and the cached "feat/b"
    fetches the first and never the second. *)
Lemma cached_branch_never_fetched_again_witness :
  fetchPR (lit "feat/a") ∈ runCmds noTable onMainCached downAndBack ∧
  fetchPR (lit "feat/b") ∉ runCmds noTable onMainCached downAndBack.
Proof.
  split; [vm_compute; apply list_elem_of_here|].
  apply cached_branch_never_fetched_again.
  unfold is_Some. eexists. vm_compute. reflexivity.
Defined.

Section Frames.
Variable lowerTable : rune → rune.

(** X5: a key press never changes what was loaded from the repository or
    the viewport: the worktree list, the repository name, branch, remote,
    stash count, fetch time and default branch, the gh flag, the PR cache,
    the commits flag, and the width and height are the same after any key
    in any mode. *)
Theorem key_press_keeps_loaded_data
  (env : Env) (m : Model) (k : KeyMsg) (o : Outcome) :
  Update lowerTable env m (tea_KeyMsg k) = Some o → sameData m (next o).
Proof. apply handleKey_sameData. Qed.

(** X6: in every model the program can reach, the active field of the
    create form is one of its four, the chosen branch type is an entry of
    [branchTypes], the commit selection is not negative, and the branch
    field holds no white space. *)
Theorem reachable_modal_fields_in_range (m : Model) :
  reachable lowerTable m →
  0 <= newActiveField m <= 3 ∧
  (∃ ty, index branchTypes (newTypeIdx m) = Some ty) ∧
  0 <= selectedCommitIndex m ∧
  noSpace (newBranch m).
Proof.
  intros Hm. apply reachable_steady in Hm as ((_ & Hty & Hsel) & Hf & Hns & _).
  split_and!; try done; try lia. by apply index_in_range.
Qed.

(** X7: in every model the program can reach, the modes that act on the
    selection (rename, delete confirmation, commit list, commit overlay)
    have the cursor on a worktree of the loaded list, never on the create
    row; in the delete confirmation that worktree is not the primary one. *)
Theorem acting_modes_have_a_selection (m : Model) :
  reachable lowerTable m →
  actsOnSelection (state m) = true →
  ∃ wt, selected m = Some wt ∧
        (state m = StateDeleteConfirm → Worktree.IsMain wt = false).
Proof.
  intros Hm Hact.
  apply reachable_steady in Hm as (((Hlo & Hhi) & _) & _ & _ & Hcur & Hdel).
  specialize (Hcur Hact).
  destruct (index_in_range (worktrees m) (cursor m - 1)) as [wt Hwt]; [lia|].
  exists wt. split; [done|]. intros Hst.
  destruct (Hdel Hst) as (wt' & Hwt' & Hmain). unfold selected in Hwt'. congruence.
Qed.

End Frames.

(** The theorems at work on the session that ends in the delete
    confirmation and on a key typed into the filled create form. *)
Lemma key_press_keeps_loaded_data_witness :
  ∃ o, Update noTable someEnv filledForm (tea_KeyMsg (runeKey "!")) = Some o ∧
       worktrees (next o) = threeWorktrees ∧ ghAvailable (next o) = true.
Proof.
  destruct (Update noTable someEnv filledForm (tea_KeyMsg (runeKey "!")))
    as [o|] eqn:Ho; [|by vm_compute in Ho].
  destruct (key_press_keeps_loaded_data noTable someEnv filledForm _ o Ho)
    as (Hw & _ & _ & _ & _ & _ & _ & Hgh & _).
  exists o. split_and!; [done | by rewrite Hw | by rewrite Hgh].
Defined.

Lemma reachable_modal_fields_in_range_witness :
  0 <= newActiveField filledForm <= 3 ∧
  (∃ ty, index branchTypes (newTypeIdx filledForm) = Some ty) ∧
  0 <= selectedCommitIndex filledForm ∧
  noSpace (newBranch filledForm).
Proof.
  apply (reachable_modal_fields_in_range noTable).
  apply (run_reachable noTable toFilledForm InitialModel);
    [apply reach_init | by vm_compute].
Defined.

Lemma acting_modes_have_a_selection_witness :
  ∃ wt, selected confirming = Some wt ∧
        (state confirming = StateDeleteConfirm → Worktree.IsMain wt = false).
Proof.
  apply (acting_modes_have_a_selection noTable).
  - apply (run_reachable noTable toDeleteConfirm InitialModel);
      [apply reach_init | by vm_compute].
  - by vm_compute.
Defined.

End SafetySpec.

(** ** What is drawn and what the keys do *)

Module ScreenSpec.
Import UiFacts SteadyFacts.

(** No message changes [hasCommits]. *)
Lemma Update_hasCommits_kept
  (lowerTable : rune → rune) (env : Env) (m : Model) (msg : Msg) (o : Outcome) :
  Update lowerTable env m msg = Some o → hasCommits (next o) = hasCommits m.
Proof.
  intros Ho.
  destruct msg as [w h|isGit|l|br info|detail err|err|err|err|err|k|].
  - simpl in Ho. by injection Ho as <-.
  - simpl in Ho. destruct isGit; simpl in Ho; [destruct (IsShellIntegrated env)|];
      by injection Ho as <-.
  - unfold Update in Ho. destruct (l_err l); [by injection Ho as <-|].
    cbv zeta in Ho.
    match type of Ho with context [ensureCache ?X] => set (m8 := X) in Ho end.
    assert (hasCommits (ensureCache m8) = hasCommits m) as He.
    { destruct (ensureCache_same m8) as [[c ->]| ->]; subst m8; by fields. }
    set (m9 := set_state StateList (ensureCache m8)) in Ho.
    assert (hasCommits m9 = hasCommits m) as H9.
    { rewrite <- He. subst m9. by fields. }
    clearbody m9. clear He. clearbody m8.
    destruct (maybeFetchPR _) as [c|]; [|done].
    cbn [mbind option_bind] in Ho. injection Ho as <-. cbn [next].
    destruct (cursor m9 >? slen (worktrees m9)); [|done]. by fields.
  - simpl in Ho. injection Ho as <-. cbn [next]. unfold cacheStore.
    destruct (ensureCache_same m) as [[c Hc]|Hc]; rewrite Hc;
      destruct (prCache _); by fields.
  - simpl in Ho. destruct err; [|destruct detail]; by injection Ho as <-.
  - simpl in Ho. destruct err; by injection Ho as <-.
  - simpl in Ho. destruct err; by injection Ho as <-.
  - simpl in Ho. destruct err; simpl in Ho; destruct (cursor m >? 0);
      by injection Ho as <-.
  - simpl in Ho. destruct err; by injection Ho as <-.
  - by destruct (handleKey_sameData lowerTable env m k o Ho)
      as (_ & _ & _ & _ & _ & _ & _ & _ & _ & H & _).
  - simpl in Ho. by injection Ho as <-.
Qed.

Section Drawn.
Variable lowerTable : rune → rune.
Variable Render : Style → gostring → gostring.
Variable JoinVertical : list gostring → gostring.
Variable modalStyle_Render : gostring → gostring.

Lemma reachable_hasCommits (m : Model) :
  reachable lowerTable m → hasCommits m = false.
Proof.
  induction 1 as [|m env msg o Hm IH Ho]; [done|].
  by rewrite (Update_hasCommits_kept _ _ _ _ _ Ho).
Qed.

(** X8: the [hasCommits] flag is false in every model the program can
    reach: the initial model has it false and no message sets it, not even
    a load that reports commits. *)
Theorem hasCommits_never_set (m : Model) :
  reachable lowerTable m → hasCommits m = false.
Proof. apply reachable_hasCommits. Qed.

Local Abbreviation renderNewModal :=
  (renderNewModal Render JoinVertical modalStyle_Render).
Local Abbreviation renderTypeListModal :=
  (renderTypeListModal Render JoinVertical modalStyle_Render).
Local Abbreviation renderNoCommitsModal :=
  (renderNoCommitsModal Render JoinVertical modalStyle_Render).
Local Abbreviation renderDeleteModal :=
  (renderDeleteModal Render JoinVertical modalStyle_Render).
Local Abbreviation renderFooter := (renderFooter Render).
Local Abbreviation renderHints := (renderHints Render).

(** X9: in every model the program can reach, the create modal is drawn
    without a panic and never shows the four-field form: it is the type
    picker when that is open and the "Cannot create worktree" notice
    otherwise. *)
Theorem create_form_never_drawn (m : Model) :
  reachable lowerTable m →
  renderNewModal m =
    Some (if newTypeListOpen m then renderTypeListModal m
          else renderNoCommitsModal m).
Proof.
  intros Hm. apply reachable_hasCommits in Hm as Hc.
  unfold Screens.renderNewModal, renderNewFormModal. rewrite Hc.
  by destruct (newTypeListOpen m).
Qed.

(** X10: the footer of the list and the "d" key agree. In a list without
    an error banner and with the cursor in range, either the footer offers
    "d  delete" and "d" opens the delete confirmation, or the footer shows
    the short row of hints (on the create row and on the primary worktree)
    and "d" changes nothing; in neither case is a command issued. *)
Theorem footer_delete_hint_matches_key (env : Env) (m : Model) :
  cursorInRange m → state m = StateList → errMsg m = [] →
  ∃ o, Update lowerTable env m (tea_KeyMsg (runeKey "d")) = Some o ∧
       cmd o = None ∧
       ((renderFooter m = Some (renderHints rowHints) ∧
         next o = set_state StateDeleteConfirm m) ∨
        (renderFooter m = Some (renderHints homeHints) ∧ next o = m)).
Proof.
  intros [Hlo Hhi] Hst Herr.
  unfold Update, handleKey, Screens.renderFooter. rewrite Hst, Herr.
  change (keyIs (runeKey "d") "ctrl+c") with false.
  change (streq [] []) with true. cbn [negb].
  unfold handleList.
  change (keyIs (runeKey "d") "q") with false.
  change (keyIs (runeKey "d") "up") with false.
  change (keyIs (runeKey "d") "k") with false.
  change (keyIs (runeKey "d") "down") with false.
  change (keyIs (runeKey "d") "j") with false.
  change (keyIs (runeKey "d") "enter") with false.
  change (keyIs (runeKey "d") "n") with false.
  change (keyIs (runeKey "d") "d") with true.
  cbn [orb].
  destruct (cursor m =? 0) eqn:H0.
  - apply Z.eqb_eq in H0. rewrite H0. cbn. eexists. eauto.
  - apply Z.eqb_neq in H0.
    assert ((cursor m >? 0) = true) as -> by lia.
    assert ((cursor m - 1 <? slen (worktrees m)) = true) as -> by lia.
    destruct (index_in_range (worktrees m) (cursor m - 1)) as [wt ->]; [lia|].
    cbn [mbind option_bind fmap option_fmap option_map].
    destruct (Worktree.IsMain wt); cbn [negb]; eexists; eauto.
Qed.

(** X11: the delete confirmation names the worktree that "y" deletes. In
    every reachable model showing the confirmation without an error banner,
    the modal's question carries the display name of the worktree under the
    cursor, which is not the primary one, and "y" issues the delete command
    for that worktree's branch and path. *)
Theorem delete_modal_names_the_target (env : Env) (m : Model) :
  reachable lowerTable m → state m = StateDeleteConfirm → errMsg m = [] →
  ∃ wt o,
    selected m = Some wt ∧ Worktree.IsMain wt = false ∧
    renderDeleteModal m =
      modalStyle_Render
        (JoinVertical
           [Render dangerStyle (lit "Delete " ++ Worktree.Name wt ++ lit "?"); [];
            Render dimStyle (lit "This cannot be undone."); [];
            renderHints [lit "y  confirm"; lit "n / esc  cancel"]]) ∧
    Update lowerTable env m (tea_KeyMsg (runeKey "y")) = Some o ∧
    next o = m ∧
    cmd o = Some (deleteWorktree (Worktree.Branch wt) (Worktree.Path wt)).
Proof.
  intros Hm Hst Herr.
  apply reachable_steady in Hm as (((Hlo & Hhi) & _) & _ & _ & Hcur & Hdel).
  destruct (Hdel Hst) as (wt & Hwt & Hmain).
  assert (1 <= cursor m) as H1 by (apply Hcur; by rewrite Hst).
  unfold selected in Hwt.
  exists wt. eexists. split_and!; [done | done | | | |].
  - unfold Screens.renderDeleteModal.
    assert ((cursor m >? 0) = true) as -> by lia.
    assert ((cursor m - 1 <? slen (worktrees m)) = true) as -> by lia.
    by rewrite Hwt.
  - unfold Update, handleKey. rewrite Hst, Herr.
    change (keyIs (runeKey "y") "ctrl+c") with false.
    change (streq [] []) with true. cbn [negb].
    unfold handleDeleteConfirm.
    change (keyIs (runeKey "y") "y") with true.
    assert ((cursor m >? 0) = true) as -> by lia.
    rewrite Hwt. reflexivity.
  - done.
  - done.
Qed.

End Drawn.

Lemma create_form_never_drawn_witness :
  state filledForm = StateNewWorktree ∧
  renderNewModal plainRender plainStack plainModal filledForm =
    Some (lit "New Worktree" ++ [newline; newline; 0x2717]
          ++ lit "  Cannot create worktree" ++ [newline; newline]
          ++ lit "No commits on main yet." ++ [newline]
          ++ lit "Make an initial commit first." ++ [newline; newline]
          ++ lit "esc  close").
Proof.
  split; [reflexivity|].
  rewrite (create_form_never_drawn noTable).
  - reflexivity.
  - apply (run_reachable noTable toFilledForm InitialModel);
      [apply reach_init | by vm_compute].
Defined.

Lemma footer_delete_hint_matches_key_witness :
  ∃ o, Update noTable someEnv onMain (tea_KeyMsg (runeKey "d")) = Some o ∧
       cmd o = None ∧
       ((renderFooter plainRender onMain = Some (renderHints plainRender rowHints) ∧
         next o = set_state StateDeleteConfirm onMain) ∨
        (renderFooter plainRender onMain = Some (renderHints plainRender homeHints) ∧
         next o = onMain)).
Proof.
  apply footer_delete_hint_matches_key; [by vm_compute | reflexivity | reflexivity].
Defined.

Lemma delete_modal_names_the_target_witness :
  ∃ wt o,
    selected confirming = Some wt ∧ Worktree.IsMain wt = false ∧
    renderDeleteModal plainRender plainStack plainModal confirming =
      plainModal
        (plainStack
           [plainRender dangerStyle (lit "Delete " ++ Worktree.Name wt ++ lit "?"); [];
            plainRender dimStyle (lit "This cannot be undone."); [];
            renderHints plainRender [lit "y  confirm"; lit "n / esc  cancel"]]) ∧
    Update noTable someEnv confirming (tea_KeyMsg (runeKey "y")) = Some o ∧
    next o = confirming ∧
    cmd o = Some (deleteWorktree (Worktree.Branch wt) (Worktree.Path wt)).
Proof.
  apply delete_modal_names_the_target; [|reflexivity|reflexivity].
  apply (run_reachable noTable toDeleteConfirm InitialModel);
    [apply reach_init | by vm_compute].
Defined.

Lemma hasCommits_never_set_witness :
  l_hasCommits loadedThree = true ∧ hasCommits filledForm = false.
Proof.
  split; [reflexivity|].
  apply (hasCommits_never_set noTable).
  apply (run_reachable noTable toFilledForm InitialModel);
    [apply reach_init | by vm_compute].
Defined.

End ScreenSpec.

(** ** Reading what git prints *)

Module GitSpec.
Import UiFacts LayoutFacts Git.

Lemma HasPrefix_spec (s p : gostring) :
  HasPrefix s p = true ↔ ∃ t, s = p ++ t.
Proof.
  revert s. induction p as [|a p IH]; intros s; simpl.
  - split; [by exists s|done].
  - destruct s as [|r s].
    + split; [done|]. by intros [t Ht].
    + rewrite andb_true_iff, Z.eqb_eq, IH. split.
      * intros [-> [t ->]]. eauto.
      * intros [t [= -> ->]]. eauto.
Qed.

Lemma HasPrefix_app (p t : gostring) : HasPrefix (p ++ t) p = true.
Proof. apply HasPrefix_spec. eauto. Qed.

Lemma TrimPrefix_app (p t : gostring) : TrimPrefix (p ++ t) p = t.
Proof. unfold TrimPrefix. rewrite HasPrefix_app. by rewrite drop_app_length. Qed.

Lemma TrimSuffix_app (s suf : gostring) : TrimSuffix (s ++ suf) suf = s.
Proof.
  unfold TrimSuffix, HasSuffix. rewrite reverse_app, HasPrefix_app.
  rewrite length_app. replace (length s + length suf - length suf)%nat with (length s) by lia.
  by rewrite take_app_length.
Qed.

(** Split and Join. *)
Lemma Split_nonempty (s : gostring) (sep : rune) : Split s sep ≠ [].
Proof.
  destruct s as [|r s]; simpl; [done|].
  destruct (r =? sep); [done|]. by destruct (Split s sep).
Qed.

Lemma Join_cons (p : gostring) (ps : list gostring) (sep : gostring) :
  ps ≠ [] → Join (p :: ps) sep = p ++ sep ++ Join ps sep.
Proof. by destruct ps. Qed.

Lemma Join_Split (s : gostring) (sep : rune) : Join (Split s sep) [sep] = s.
Proof.
  induction s as [|r s IH]; simpl; [done|].
  destruct (r =? sep) eqn:Hr.
  - apply Z.eqb_eq in Hr as ->.
    rewrite Join_cons by apply Split_nonempty. simpl. by rewrite IH.
  - pose proof (Split_nonempty s sep) as Hne.
    destruct (Split s sep) as [|p ps]; [done|].
    destruct ps as [|q ps]; simpl in *; [by rewrite IH|].
    by rewrite <- IH.
Qed.

Lemma Split_no_sep (s : gostring) (sep : rune) :
  Forall (λ p, sep ∉ p) (Split s sep).
Proof.
  induction s as [|r s IH]; simpl.
  - constructor; [apply not_elem_of_nil|constructor].
  - destruct (r =? sep) eqn:Hr.
    + constructor; [apply not_elem_of_nil|done].
    + apply Z.eqb_neq in Hr. pose proof (Split_nonempty s sep) as Hne.
      destruct (Split s sep) as [|p ps]; [done|].
      inversion IH as [|? ? Hp Hps]; subst. constructor; [|done].
      rewrite elem_of_cons. intros [->|H]; [done|by apply Hp].
Qed.

(** cutAt and SplitN. *)
Lemma cutAt_Some (s a b : gostring) (sep : rune) :
  cutAt s sep = Some (a, b) ↔ s = a ++ sep :: b ∧ sep ∉ a.
Proof.
  revert a b. induction s as [|r s IH]; intros a b; simpl.
  - split; [done|]. intros [H _]. by destruct a.
  - destruct (r =? sep) eqn:Hr.
    + apply Z.eqb_eq in Hr as ->. split.
      * intros [= <- <-]. split; [done|apply not_elem_of_nil].
      * intros [H Hn]. destruct a as [|x a]; [by injection H as ->|].
        injection H as -> _. exfalso. apply Hn. left.
    + apply Z.eqb_neq in Hr. split.
      * destruct (cutAt s sep) as [[a' b']|] eqn:Hc; [|done]. simpl.
        intros [= <- <-]. destruct (proj1 (IH a' b') eq_refl) as [-> Hn].
        split; [done|].
        rewrite elem_of_cons. intros [->|H]; [done|by apply Hn].
      * intros [H Hn]. destruct a as [|x a]; [by injection H as ->|].
        injection H as -> ->.
        assert (cutAt (a ++ sep :: b) sep = Some (a, b)) as ->; [|done].
        apply IH. split; [done|]. intros Hin. apply Hn. by right.
Qed.

Lemma cutAt_None (s : gostring) (sep : rune) :
  cutAt s sep = None ↔ sep ∉ s.
Proof.
  induction s as [|r s IH]; simpl.
  - split; [intros _; apply not_elem_of_nil|done].
  - destruct (r =? sep) eqn:Hr.
    + apply Z.eqb_eq in Hr as ->. split; [done|]. intros H. exfalso. apply H. left.
    + apply Z.eqb_neq in Hr. destruct (cutAt s sep) as [[a b]|] eqn:Hc; simpl.
      * split; [done|]. intros Hn. assert (sep ∉ s) as Hs by (intros ?; apply Hn; by right).
        apply IH in Hs. done.
      * split; [|done]. intros _. rewrite elem_of_cons. intros [->|H]; [done|].
        by apply IH in H.
Qed.

Lemma countRune_nonneg r s : 0 <= countRune r s.
Proof. unfold countRune, slen. lia. Qed.

Lemma countRune_app r s t : countRune r (s ++ t) = countRune r s + countRune r t.
Proof. unfold countRune, slen. rewrite List.filter_app, length_app. lia. Qed.

Lemma countRune_absent r s : r ∉ s → countRune r s = 0.
Proof.
  induction s as [|x s IH]; [done|]. intros Hn. unfold countRune in *. simpl.
  destruct (r =? x) eqn:Hx.
  - apply Z.eqb_eq in Hx as ->. exfalso. apply Hn. left.
  - apply IH. intros H. apply Hn. by right.
Qed.

Lemma countRune_cons_same r s : countRune r (r :: s) = 1 + countRune r s.
Proof. unfold countRune, slen. simpl. rewrite Z.eqb_refl. simpl. lia. Qed.

Lemma parseCommit_Some (line : gostring) (c : Commit.t) :
  parseCommit line = Some c →
  commitLine c = line ∧ (bar ∉ Commit.Hash c) ∧ (bar ∉ Commit.Message c) ∧
  hasTwoBars line = true.
Proof.
  unfold parseCommit. simpl.
  destruct (cutAt line bar) as [[a rest]|] eqn:H1; [|done].
  destruct (cutAt rest bar) as [[b t]|] eqn:H2; [|done].
  intros [= <-]. apply cutAt_Some in H1 as [-> Ha]. apply cutAt_Some in H2 as [-> Hb].
  unfold commitLine, hasTwoBars. simpl. split_and!; [done..|].
  rewrite countRune_app, countRune_cons_same, countRune_app, countRune_cons_same.
  pose proof (countRune_nonneg bar a). pose proof (countRune_nonneg bar b).
  pose proof (countRune_nonneg bar t). lia.
Qed.

Lemma parseCommit_None (line : gostring) :
  parseCommit line = None → hasTwoBars line = false.
Proof.
  unfold parseCommit, hasTwoBars. simpl.
  destruct (cutAt line bar) as [[a rest]|] eqn:H1.
  - destruct (cutAt rest bar) as [[b t]|] eqn:H2; [done|]. intros _.
    apply cutAt_Some in H1 as [-> Ha]. apply cutAt_None in H2.
    rewrite countRune_app, countRune_cons_same, !countRune_absent by done. lia.
  - intros _. apply cutAt_None in H1. rewrite countRune_absent by done. lia.
Qed.

Lemma omap_parseCommit (lines : list gostring) :
  map commitLine (omap parseCommit lines) = List.filter hasTwoBars lines ∧
  Forall (λ c, (bar ∉ Commit.Hash c) ∧ (bar ∉ Commit.Message c)) (omap parseCommit lines).
Proof.
  induction lines as [|l lines [IH1 IH2]]; [done|].
  change (omap parseCommit (l :: lines))
    with (match parseCommit l with
          | Some c => c :: omap parseCommit lines
          | None => omap parseCommit lines
          end).
  cbn [List.filter].
  destruct (parseCommit l) as [c|] eqn:Hc.
  - apply parseCommit_Some in Hc as (Hl & Ha & Hb & ->).
    cbn [map]. rewrite Hl, IH1. split; [done|]. by constructor.
  - apply parseCommit_None in Hc as ->. done.
Qed.

(** X12: [GetCommits] reads the log back without loss: the error it gives
    is the error of [git log]; written back with their bars, the commits
    are, in order, exactly the lines of the output that hold at least two
    bars (none when the command failed); and no hash and no message holds a
    bar, so a bar in a commit's subject ends the message there and the rest
    goes to the time. *)
Theorem GetCommits_reads_the_log (h : Host) (worktreePath : gostring) :
  (GetCommits h worktreePath).2 = (runInDir h worktreePath logArgs).2 ∧
  Forall (λ c, (bar ∉ Commit.Hash c) ∧ (bar ∉ Commit.Message c))
    (GetCommits h worktreePath).1 ∧
  map commitLine (GetCommits h worktreePath).1 =
    if (runInDir h worktreePath logArgs).2 is None
    then List.filter hasTwoBars (Split (runInDir h worktreePath logArgs).1 newline)
    else [].
Proof.
  unfold GetCommits, logArgs.
  destruct (runInDir h worktreePath _) as [out [e|]]; simpl.
  { done. }
  destruct (streq out []) eqn:Ho; simpl.
  - apply streq_true in Ho as ->. done.
  - destruct (omap_parseCommit (Split out newline)) as [H1 H2]. done.
Qed.

(** The theorem at work: three lines of log, one of them no commit, one
    with a bar in its subject. *)
Lemma GetCommits_reads_the_log_witness :
  (GetCommits someRepo (lit "/repo")).1
  = [Commit.mk (lit "5d6e7f8") (lit "Fix a") (lit "b parser|2 hours ago");
     Commit.mk (lit "1a2b3c4") (lit "Initial commit") (lit "3 days ago")] ∧
  map commitLine (GetCommits someRepo (lit "/repo")).1
  = [lit "5d6e7f8|Fix a|b parser|2 hours ago"; lit "1a2b3c4|Initial commit|3 days ago"].
Proof.
  split; [vm_compute; reflexivity|].
  destruct (GetCommits_reads_the_log someRepo (lit "/repo")) as (_ & _ & ->).
  vm_compute. reflexivity.
Defined.

(** TrimSpace *)
Lemma TrimRightSpace_cons (r : rune) (t : gostring) :
  IsSpace r = false → TrimRightSpace (r :: t) = r :: TrimRightSpace t.
Proof. intros H. simpl. rewrite H. by destruct (TrimRightSpace t). Qed.

Lemma TrimRightSpace_last (s : gostring) (x : rune) :
  last (TrimRightSpace s) = Some x → IsSpace x = false.
Proof.
  induction s as [|r s IH]; simpl; [done|].
  destruct (TrimRightSpace s) as [|y t] eqn:Ht.
  - destruct (IsSpace r) eqn:Hr; simpl; [done|]. by intros [= <-].
  - intros H. apply IH. by rewrite last_cons_cons in H.
Qed.

Lemma TrimLeftSpace_head (s : gostring) :
  TrimLeftSpace s = [] ∨ ∃ r t, TrimLeftSpace s = r :: t ∧ IsSpace r = false.
Proof.
  induction s as [|r s IH]; simpl; [by left|].
  destruct (IsSpace r) eqn:Hr; [done|]. right. eauto.
Qed.

Lemma TrimSpace_head (s : gostring) :
  TrimSpace s = [] ∨ ∃ r t, TrimSpace s = r :: t ∧ IsSpace r = false.
Proof.
  unfold TrimSpace. destruct (TrimLeftSpace_head s) as [->|(r & t & -> & Hr)].
  - by left.
  - right. rewrite TrimRightSpace_cons by done. eauto.
Qed.

Lemma TrimSpace_last (s : gostring) (x : rune) :
  last (TrimSpace s) = Some x → IsSpace x = false.
Proof. apply TrimRightSpace_last. Qed.

Lemma TrimRight_id (s cutset : gostring) :
  (∀ x, last s = Some x → inCutset cutset x = false) → TrimRight s cutset = s.
Proof.
  induction s as [|r s IH]; [done|]. intros H. simpl.
  destruct s as [|y s].
  - simpl. by rewrite (H r eq_refl).
  - rewrite IH; [done|]. intros x Hx. apply H. by rewrite last_cons_cons.
Qed.

(** The first and the last piece. *)
Lemma Split_head (r : rune) (s : gostring) (sep : rune) :
  r ≠ sep → ∃ p ps, Split (r :: s) sep = (r :: p) :: ps.
Proof.
  intros Hr. simpl. apply Z.eqb_neq in Hr as ->.
  pose proof (Split_nonempty s sep). destruct (Split s sep); [done|eauto].
Qed.

Lemma Split_last (s : gostring) (sep x : rune) :
  last s = Some x → x ≠ sep → ∃ p, last (Split s sep) = Some p ∧ p ≠ [].
Proof.
  induction s as [|r s IH]; [done|]. intros Hl Hx.
  destruct s as [|y s].
  - injection Hl as ->. simpl. apply Z.eqb_neq in Hx as ->. by exists [x].
  - rewrite last_cons_cons in Hl. destruct (IH Hl Hx) as (p & Hp & Hne).
    change (Split (r :: y :: s) sep)
      with (if r =? sep then [] :: Split (y :: s) sep
            else match Split (y :: s) sep with
                 | [] => [[r]]
                 | p :: ps => (r :: p) :: ps
                 end).
    destruct (Split (y :: s) sep) as [|q qs] eqn:Hs; [done|].
    destruct (r =? sep).
    + exists p. by rewrite last_cons_cons.
    + destruct qs as [|q' qs].
      * injection Hp as <-. by exists (r :: q).
      * exists p. rewrite last_cons_cons. by rewrite last_cons_cons in Hp.
Qed.

Lemma len_ge_length (s : gostring) : slen s <= len s.
Proof.
  unfold slen. induction s as [|r s IH]; simpl; [lia|].
  pose proof (RuneLen_pos r). lia.
Qed.

Lemma parseFile_Some (line : gostring) (f : CommitFile.t) :
  parseFile line = Some f →
  length (CommitFile.Status f) = 1%nat ∧ CommitFile.Path f ≠ [].
Proof.
  unfold parseFile. cbv zeta.
  destruct (streq (TrimSpace line) []) eqn:He; [done|].
  apply streq_false in He.
  destruct (slen (Split (TrimSpace line) tab) <? 2) eqn:Hn; [done|].
  intros [= <-]. cbn [CommitFile.Status CommitFile.Path].
  destruct (TrimSpace_head line) as [?|(r & t & Ht & Hr)]; [done|].
  assert (r ≠ tab) as Hrt by (intros ->; done).
  pose proof (TrimSpace_last line) as Hlast. rewrite Ht in *.
  destruct (Split_head r t tab Hrt) as (p & ps & Hs).
  split.
  - rewrite Hs. simpl head. simpl default.
    destruct (len (r :: p) >? 1) eqn:Hl; [done|].
    pose proof (len_ge_length (r :: p)) as Hle. unfold slen in Hle.
    simpl length in *. f_equal. lia.
  - destruct (last (r :: t)) as [x|] eqn:Hx.
    + assert (x ≠ tab) as Hxt by (intros ->; by specialize (Hlast _ eq_refl)).
      destruct (Split_last (r :: t) tab x Hx Hxt) as (q & -> & Hq). done.
    + by apply last_None in Hx.
Qed.

(** X13: every file [GetCommitDetail] lists has a status of exactly one
    character, whatever [git show --name-status] printed for it ("R090"
    becomes "R"), and a path that is not empty. *)
Theorem GetCommitDetail_files_normalised (h : Host) (worktreePath sha : gostring) :
  Forall (λ f, length (CommitFile.Status f) = 1%nat ∧ CommitFile.Path f ≠ [])
    (CommitDetail.Files (GetCommitDetail h worktreePath sha)).
Proof.
  unfold GetCommitDetail. cbn [CommitDetail.Files].
  apply Forall_forall. intros f Hf.
  apply list_elem_of_omap in Hf as (line & _ & Hline).
  by apply parseFile_Some in Hline.
Qed.

(** The theorem at work: a modified file and a rename. *)
Lemma GetCommitDetail_files_normalised_witness :
  CommitDetail.Files (GetCommitDetail someRepo (lit "/repo") (lit "5d6e7f8"))
  = [CommitFile.mk (lit "M") (lit "src/a.go"); CommitFile.mk (lit "R") (lit "new.go")] ∧
  Forall (λ f, length (CommitFile.Status f) = 1%nat ∧ CommitFile.Path f ≠ [])
    (CommitDetail.Files (GetCommitDetail someRepo (lit "/repo") (lit "5d6e7f8"))).
Proof.
  split; [vm_compute; reflexivity|]. apply GetCommitDetail_files_normalised.
Defined.

Lemma diffType_known (line : gostring) : diffType line ∈ diffTypes.
Proof.
  unfold diffType, diffTypes. repeat case_match; set_solver.
Qed.

(** X14: [GetCommitDetail] keeps the patch as it is: the detail is marked
    loaded, its diff is never empty (an empty patch is one empty line),
    the contents of the diff lines joined by newlines are the output of
    [git show --patch], every line has one of the six types the overlay
    colours, and the body is the output of the body query, from which
    [TrimRight] has nothing left to cut. *)
Theorem GetCommitDetail_keeps_the_patch (h : Host) (worktreePath sha : gostring) :
  let d := GetCommitDetail h worktreePath sha in
  CommitDetail.Loaded d = true ∧
  CommitDetail.Diff d ≠ [] ∧
  Join (map DiffLine.Content (CommitDetail.Diff d)) [newline] =
    show h worktreePath sha ["--patch"; "--no-color"; "--pretty=format:"]%string ∧
  Forall (λ l, DiffLine.Type_ l ∈ diffTypes) (CommitDetail.Diff d) ∧
  CommitDetail.Body d = show h worktreePath sha ["--no-patch"; "--pretty=format:%b"]%string.
Proof.
  unfold GetCommitDetail. cbn [CommitDetail.Loaded CommitDetail.Diff CommitDetail.Body].
  split_and!.
  - done.
  - intros H. apply fmap_nil_inv in H. by apply Split_nonempty in H.
  - rewrite map_map. cbn [DiffLine.Content]. rewrite map_id. apply Join_Split.
  - apply Forall_forall. intros l Hl. apply list_elem_of_fmap in Hl as (line & -> & _).
    apply diffType_known.
  - apply TrimRight_id. intros x Hx. unfold show, runInDir, runAt in Hx.
    assert (IsSpace x = false) as Hs.
    { repeat case_match; simpl in Hx; by apply TrimSpace_last in Hx. }
    unfold inCutset. simpl. rewrite orb_false_r. apply orb_false_iff.
    split; apply Z.eqb_neq; intros ->; done.
Qed.

(** The theorem at work: a patch that removes the SQL comment
    "-- old comment"; its line "--- old comment" is typed as a file
    header. *)
Lemma GetCommitDetail_keeps_the_patch_witness :
  map DiffLine.Type_
    (CommitDetail.Diff (GetCommitDetail someRepo (lit "/repo") (lit "5d6e7f8")))
  = map lit ["diff"; "meta"; "meta"; "@@"; "meta"; "+"]%string ∧
  Join (map DiffLine.Content
          (CommitDetail.Diff (GetCommitDetail someRepo (lit "/repo") (lit "5d6e7f8"))))
    [newline] = somePatch.
Proof.
  split; [vm_compute; reflexivity|].
  destruct (GetCommitDetail_keeps_the_patch someRepo (lit "/repo") (lit "5d6e7f8"))
    as (_ & _ & -> & _). vm_compute. reflexivity.
Defined.

(** shortenURL *)
Lemma TrimPrefix_absent (s p : gostring) : HasPrefix s p = false → TrimPrefix s p = s.
Proof. unfold TrimPrefix. by intros ->. Qed.

Lemma HasPrefix_needs (c : rune) (s p : gostring) :
  c ∈ p → c ∉ s → HasPrefix s p = false.
Proof.
  intros Hp Hs. apply not_true_iff_false. intros H.
  apply HasPrefix_spec in H as [t ->]. apply Hs. apply elem_of_app. by left.
Qed.

Lemma ReplaceFirst_absent (s : gostring) (old new : rune) :
  old ∉ s → ReplaceFirst s old new = s.
Proof.
  induction s as [|r s IH]; [done|]. intros Hn. simpl.
  destruct (r =? old) eqn:Hr.
  - apply Z.eqb_eq in Hr as ->. exfalso. apply Hn. left.
  - f_equal. apply IH. intros H. apply Hn. by right.
Qed.

Lemma ReplaceFirst_at (a b : gostring) (old new : rune) :
  old ∉ a → ReplaceFirst (a ++ old :: b) old new = a ++ new :: b.
Proof.
  induction a as [|r a IH]; intros Hn; simpl.
  - by rewrite Z.eqb_refl.
  - destruct (r =? old) eqn:Hr.
    + apply Z.eqb_eq in Hr as ->. exfalso. apply Hn. left.
    + f_equal. apply IH. intros H. apply Hn. by right.
Qed.

Lemma not_git_at (host rest : gostring) :
  at_sign ∉ host → HasPrefix (host ++ slash :: rest) (lit "git@") = false.
Proof.
  intros Hn. apply not_true_iff_false. intros H.
  apply HasPrefix_spec in H as [t Ht].
  match type of Ht with context [lit ?p] =>
    let v := eval vm_compute in (lit p) in change (lit p) with v in Ht end.
  destruct host as [|a [|b [|c [|d host]]]]; simpl in Ht;
    unfold slash, colon in Ht; try congruence.
  inversion Ht. subst. apply Hn. set_solver.
Qed.

Lemma not_ssh_scheme (host rest : gostring) :
  colon ∉ host → host ≠ lit "ssh" →
  HasPrefix (host ++ colon :: rest) (lit "ssh://") = false.
Proof.
  intros Hn Hne. apply not_true_iff_false. intros H.
  apply HasPrefix_spec in H as [t Ht].
  match type of Ht with context [lit ?p] =>
    let v := eval vm_compute in (lit p) in change (lit p) with v in Ht end.
  destruct host as [|a [|b [|c [|d host]]]]; simpl in Ht;
    unfold slash, colon in Ht; try congruence.
  - inversion Ht. subst. by apply Hne.
  - inversion Ht. subst. apply Hn. set_solver.
Qed.

(** X15: [shortenURL] gives the HTTPS form and the SCP form of a remote the
    same short name: for a host without colon and at sign, other than the
    word "ssh", and a path without colon, "https://host/path.git" and
    "git@host:path.git" both become "host/path". *)
Theorem shortenURL_https_scp_agree (host path : gostring) :
  colon ∉ host → at_sign ∉ host → colon ∉ path → host ≠ lit "ssh" →
  shortenURL (lit "https://" ++ host ++ [slash] ++ path ++ lit ".git")
    = host ++ [slash] ++ path ∧
  shortenURL (lit "git@" ++ host ++ [colon] ++ path ++ lit ".git")
    = host ++ [slash] ++ path.
Proof.
  intros Hc Ha Hp Hs. unfold shortenURL. cbn [map fold_left]. split.
  - rewrite TrimPrefix_app.
    assert (colon ∉ host ++ [slash] ++ path ++ lit ".git") as Hw.
    { rewrite !elem_of_app. intros [?|[H|[?|H]]]; [done| |done|];
        apply list_elem_of_In in H; vm_compute in H; intuition discriminate. }
    rewrite (TrimPrefix_absent _ (lit "http://"))
      by (apply (HasPrefix_needs colon); [by apply list_elem_of_In; vm_compute; tauto|done]).
    rewrite (TrimPrefix_absent _ (lit "git@")) by by apply not_git_at.
    rewrite (TrimPrefix_absent _ (lit "ssh://"))
      by (apply (HasPrefix_needs colon); [by apply list_elem_of_In; vm_compute; tauto|done]).
    rewrite ReplaceFirst_absent by done.
    rewrite !(assoc_L (++)). rewrite TrimSuffix_app. by rewrite <- !(assoc_L (++)).
  - rewrite (TrimPrefix_absent _ (lit "https://")) by done.
    rewrite (TrimPrefix_absent _ (lit "http://")) by done.
    rewrite TrimPrefix_app.
    rewrite (TrimPrefix_absent _ (lit "ssh://")) by by apply not_ssh_scheme.
    change ([colon] ++ path ++ lit ".git") with (colon :: (path ++ lit ".git")).
    rewrite ReplaceFirst_at by done.
    change (host ++ slash :: path ++ lit ".git")
      with (host ++ [slash] ++ path ++ lit ".git").
    rewrite !(assoc_L (++)). rewrite TrimSuffix_app. by rewrite <- !(assoc_L (++)).
Qed.

Lemma shortenURL_https_scp_agree_witness :
  shortenURL (lit "https://github.com/org/repo.git") = lit "github.com/org/repo" ∧
  shortenURL (lit "git@github.com:org/repo.git") = lit "github.com/org/repo".
Proof.
  apply (shortenURL_https_scp_agree (lit "github.com") (lit "org/repo"));
    try (intros H; apply list_elem_of_In in H; vm_compute in H; intuition discriminate).
  discriminate.
Defined.

Lemma TrimRightSpace_id (s : gostring) :
  (∀ x, last s = Some x → IsSpace x = false) → TrimRightSpace s = s.
Proof.
  induction s as [|r s IH]; [done|]. intros H. simpl.
  destruct s as [|y s].
  - simpl. by rewrite (H r eq_refl).
  - rewrite IH; [done|]. intros x Hx. apply H. by rewrite last_cons_cons.
Qed.

Lemma TrimSpace_idem (s : gostring) : TrimSpace (TrimSpace s) = TrimSpace s.
Proof.
  destruct (TrimSpace_head s) as [->|(r & t & Ht & Hr)]; [done|].
  pose proof (TrimSpace_last s) as Hl. rewrite Ht in *.
  unfold TrimSpace at 1. simpl. rewrite Hr. by apply TrimRightSpace_id.
Qed.

Lemma run_trimmed (h : Host) (args : list gostring) :
  TrimSpace (run h args).1 = (run h args).1.
Proof.
  unfold run, runAt. destruct (err _); [destruct (_ >? _)|]; apply TrimSpace_idem.
Qed.

(** ListWorktrees *)
Lemma SplitOn_first (sep : gostring) (s : gostring) :
  ∀ skip cur, ∃ x rest, SplitOn sep skip cur s = (cur ++ x) :: rest.
Proof.
  induction s as [|r s IH]; intros skip cur; simpl.
  - exists [], []. by rewrite app_nil_r.
  - destruct skip as [|k]; [|apply IH].
    destruct (HasPrefix (r :: s) sep).
    + exists [], (SplitOn sep (length sep - 1) [] s). by rewrite app_nil_r.
    + destruct (IH 0%nat (cur ++ [r])) as (x & rest & ->).
      exists (r :: x), rest. by rewrite <- app_assoc.
Qed.

Lemma TrimSpace_starts (r : rune) (x : gostring) :
  IsSpace r = false → TrimSpace (r :: x) ≠ [].
Proof.
  intros Hr. unfold TrimSpace. simpl. rewrite Hr.
  rewrite TrimRightSpace_cons by done. done.
Qed.

Section Lib.
Variable strconv_Atoi : gostring → Z.
Variable filepath_Base : gostring → gostring.
Local Abbreviation readBlock := (readBlock strconv_Atoi filepath_Base).
Local Abbreviation ListWorktrees := (ListWorktrees strconv_Atoi filepath_Base).

Lemma readBlock_Some (h : Host) meta (i : nat) (block : gostring) (w : Worktree.t) :
  readBlock h meta i block = Some w →
  Worktree.IsMain w = bool_decide (i = 0%nat) ∧
  (i = 0%nat → Worktree.Ahead w = 0 ∧ Worktree.Behind w = 0 ∧ Worktree.IsMerged w = false).
Proof.
  unfold Git.readBlock. cbv zeta.
  destruct (streq (TrimSpace block) []); [done|].
  destruct (fold_left readLine _ _) as [[path branch] name].
  destruct (meta !! branch) as [e|];
    destruct (negb (bool_decide (i = 0%nat))) eqn:Hi;
    try destruct (GetBranchStatus _ _ _) as [[a b] mg];
    destruct (GetWorktreeStatus h path) as [[c u] e'];
    intros [= <-]; cbn; split; try done;
    intros ->; done.
Qed.

Lemma readBlock_first (h : Host) meta (r : rune) (x : gostring) :
  IsSpace r = false → is_Some (readBlock h meta 0 (r :: x)).
Proof.
  intros Hr. unfold Git.readBlock. cbv zeta.
  pose proof (TrimSpace_starts r x Hr) as Hne. apply streq_false in Hne. rewrite Hne.
  destruct (fold_left readLine _ _) as [[path branch] name].
  destruct (meta !! branch) as [e|]; cbn [negb bool_decide decide_rel];
    destruct (GetWorktreeStatus h path) as [[c u] e']; eauto.
Qed.

Lemma later_blocks_not_main (h : Host) meta (i0 : nat) (bs : list gostring) :
  Forall (λ w, Worktree.IsMain w = false)
    (omap id (imap (readBlock h meta ∘ (λ i, S (i0 + i))) bs)).
Proof.
  apply Forall_forall. intros w Hw.
  apply list_elem_of_omap in Hw as (x & Hx & Hid). simpl in Hid. subst x.
  apply elem_of_lookup_imap in Hx as (i & b & Hb & _). simpl in Hb. symmetry in Hb.
  apply readBlock_Some in Hb as [-> _]. by rewrite bool_decide_eq_false_2.
Qed.

(** X16: the list [ListWorktrees] returns starts with the primary worktree
    and has no other: its error is that of [git worktree list] behind a
    prefix; the list is empty exactly when the command failed or printed
    nothing; otherwise its first entry is marked primary, with no commits
    ahead or behind and not merged, and no later entry is marked primary. *)
Theorem ListWorktrees_primary_first (h : Host) :
  (ListWorktrees h).2
  = (λ e, lit "git worktree list: " ++ e) <$> (run h listArgs).2 ∧
  ((ListWorktrees h).1 = [] ↔ is_Some (run h listArgs).2 ∨ (run h listArgs).1 = []) ∧
  match (ListWorktrees h).1 with
  | [] => True
  | w :: rest =>
      Worktree.IsMain w = true ∧ Worktree.Ahead w = 0 ∧ Worktree.Behind w = 0 ∧
      Worktree.IsMerged w = false ∧
      Forall (λ w', Worktree.IsMain w' = false) rest
  end.
Proof.
  unfold Git.ListWorktrees, listArgs.
  pose proof (run_trimmed h (map lit ["worktree"; "list"; "--porcelain"]%string)) as Htrim.
  destruct (run h _) as [out [e|]]; cbn [fst snd] in *.
  { split_and!; [done| |done]. split; [eauto|done]. }
  rewrite Htrim. split; [done|].
  destruct out as [|r t].
  { split; [|done]. split; [by right|done]. }
  assert (IsSpace r = false) as Hr.
  { destruct (TrimSpace_head (r :: t)) as [H|(r' & t' & H & Hr')]; rewrite Htrim in H;
      [done|]. by injection H as -> _. }
  unfold SplitStr.
  change (SplitOn [newline; newline] 0 [] (r :: t))
    with (if HasPrefix (r :: t) [newline; newline]
          then [] :: SplitOn [newline; newline] 1 [] t
          else SplitOn [newline; newline] 0 [r] t).
  assert (HasPrefix (r :: t) [newline; newline] = false) as ->.
  { simpl. destruct (Z.eqb_spec r newline) as [->|]; [done|done]. }
  destruct (SplitOn_first [newline; newline] t 0%nat [r]) as (x & rest & ->).
  rewrite imap_cons.
  destruct (readBlock_first h (readMeta h (GetRepoRoot h).1) r x Hr) as [w Hw].
  cbn [app] in *. cbn [omap list_omap]. rewrite Hw. cbn [id].
  apply readBlock_Some in Hw as [Hmain Hzero].
  destruct (Hzero eq_refl) as (Ha & Hb & Hm).
  split; [split; [done|by intros [[? [=]]|[=]]]|].
  split_and!; try done.
  apply (later_blocks_not_main h _ 0 rest).
Qed.
End Lib.

(** The theorem at work: the primary worktree, one on a branch, one
    detached. *)
Lemma ListWorktrees_primary_first_witness :
  map (λ w, (Worktree.Branch w, Worktree.IsMain w))
    (ListWorktrees noAtoi noBase someRepo).1
  = [(lit "main", true); (lit "feat/a", false); (lit "(detached)", false)] ∧
  match (ListWorktrees noAtoi noBase someRepo).1 with
  | [] => True
  | w :: rest =>
      Worktree.IsMain w = true ∧ Worktree.Ahead w = 0 ∧ Worktree.Behind w = 0 ∧
      Worktree.IsMerged w = false ∧
      Forall (λ w', Worktree.IsMain w' = false) rest
  end.
Proof.
  split; [vm_compute; reflexivity|].
  apply (ListWorktrees_primary_first noAtoi noBase someRepo).
Defined.

End GitSpec.
